(** * webpack: lib/FileSystemInfo.js and lib/cache/PackFileCacheStrategy.js

    A shallow embedding of the file-system snapshot logic (accuracy
    estimator, managed items, snapshot creation, merging and validation)
    and of the pack store's unpack policy, with the properties the
    specification states about them.

    Conventions of the embedding:
    - a JavaScript [Map] with string keys is a [gmap string _]; iteration
      order is never observable in the functions modelled here;
    - [undefined] for an optional field or argument is [None];
    - millisecond time stamps are integers ([Z]); [Infinity] and [NaN] are
      added as constructors where the code can produce them;
    - a node-style callback [(err, result)] is a value of [cb_args];
    - the work queues ([AsyncQueue]) and the file system are outside this
      file: a read handed to a queue is a [request], and the queue calling
      back, with the arguments it hands to the callback, is a [completion]
      that the model takes as input, in any order. *)

From Stdlib Require Import ZArith Lia List Permutation.
From stdpp Require Import base option gmap strings list fin_maps.

Open Scope Z_scope.

(* ===================================================================== *)
(** ** JavaScript values used by the module *)
(* ===================================================================== *)

Module JS.

(** A number that is an integer or [Infinity] (a [safeTime]). *)
Inductive number :=
| Num (z : Z)
| Infinity.

(** [a > b] where [b] may be [undefined]: [undefined] converts to [NaN]
    and every comparison with [NaN] is [false]. *)
Definition gt_opt (a : number) (b : option Z) : bool :=
  match b with
  | None => false
  | Some t =>
      match a with
      | Infinity => true
      | Num z => t <? z
      end
  end.

(** Truthiness of an optional number: [undefined] and [0] are falsy. *)
Definition truthy_num (n : option Z) : bool :=
  match n with
  | None => false
  | Some z => negb (z =? 0)
  end.

(** A counter that may have been set to [NaN]. *)
Inductive counter :=
| Count (z : Z)
| NaN.

Definition incr (c : counter) : counter :=
  match c with Count z => Count (z + 1) | NaN => NaN end.

Definition decr (c : counter) : counter :=
  match c with Count z => Count (z - 1) | NaN => NaN end.

(** [c === 0] *)
Definition is_zero (c : counter) : bool :=
  match c with Count z => z =? 0 | NaN => false end.

(** [c > 0] *)
Definition is_pos (c : counter) : bool :=
  match c with Count z => 0 <? z | NaN => false end.

(** The exceptions the modelled code can throw. *)
Inductive exn :=
| TypeError (msg : string).

(** The result of a call that may throw. *)
Inductive result (A : Type) :=
| Return (a : A)
| Throw (e : exn).
Arguments Return {A} a.
Arguments Throw {A} e.

Definition bind {A B} (k : A -> result B) (r : result A) : result B :=
  match r with
  | Return a => k a
  | Throw e => Throw e
  end.

(** [s.slice(n)], [s.slice(0, n)] and [s.slice(0, -1)]. *)
Definition slice_from (n : nat) (s : string) : string :=
  String.substring n (String.length s - n) s.

Definition slice_to (n : nat) (s : string) : string :=
  String.substring 0 n s.

Definition drop_last (s : string) : string :=
  String.substring 0 (String.length s - 1) s.

(** [s.startsWith(p)] *)
Definition startsWith (s p : string) : bool := String.prefix p s.

End JS.

#[global] Instance result_ret : MRet JS.result := @JS.Return.
#[global] Instance result_bind : MBind JS.result := @JS.bind.

(** An error object of the file system, told apart by its [code]. *)
Record Error := { code : string }.

Definition ENOENT : Error := {| code := "ENOENT" |}.

(** [err.code === "ENOENT"] *)
Definition is_ENOENT (err : Error) : bool := String.eqb (code err) "ENOENT".

(** The arguments of a node-style callback: an error, or [null] and a
    result. *)
Inductive cb_args (A : Type) :=
| CbErr (err : Error)
| CbOk (a : A).
Arguments CbErr {A} err.
Arguments CbOk {A} a.

(* ===================================================================== *)
(** ** The accuracy estimator *)
(* ===================================================================== *)

Module Accuracy.

(** [let FS_ACCURACY = 2000;] *)
Definition FS_ACCURACY_init : Z := 2000.

(** [applyMtime]: the new value of [FS_ACCURACY]. The remainder [%] takes
    the sign of the dividend, as [Z.rem]. *)
Definition applyMtime (FS_ACCURACY mtime : Z) : Z :=
  if (1 <? FS_ACCURACY) && negb (Z.rem mtime 2 =? 0) then 1
  else if (10 <? FS_ACCURACY) && negb (Z.rem mtime 20 =? 0) then 10
  else if (100 <? FS_ACCURACY) && negb (Z.rem mtime 200 =? 0) then 100
  else if (1000 <? FS_ACCURACY) && negb (Z.rem mtime 2000 =? 0) then 1000
  else FS_ACCURACY.

(** [if (mtime) applyMtime(mtime);] as in [_readFileTimestamp]. *)
Definition observe (FS_ACCURACY mtime : Z) : Z :=
  if mtime =? 0 then FS_ACCURACY else applyMtime FS_ACCURACY mtime.

(** The value after a sequence of reads. *)
Definition observe_all (FS_ACCURACY : Z) (mtimes : list Z) : Z :=
  fold_left observe mtimes FS_ACCURACY.

(** The levels the estimator can be at. *)
Definition level (a : Z) : Prop :=
  a = 1 \/ a = 10 \/ a = 100 \/ a = 1000 \/ a = 2000.

(** The rule of the specification, read without the guards on the current
    value: the granularity an mtime gives evidence of, if any. *)
Definition evidence (mtime : Z) : option Z :=
  if negb (mtime mod 2 =? 0) then Some 1
  else if negb (mtime mod 20 =? 0) then Some 10
  else if negb (mtime mod 200 =? 0) then Some 100
  else if negb (mtime mod 2000 =? 0) then Some 1000
  else None.

(** The rule in the words of the specification, guards included, with
    its [mod]: "if accuracy > 1 and mtime mod 2 <> 0 set to 1; else if
    accuracy > 10 and mtime mod 20 <> 0 set to 10; else if > 100 and mod
    200 <> 0 set to 100; else if > 1000 and mod 2000 <> 0 set to 1000". *)
Definition stated_rule (accuracy mtime : Z) : Z :=
  if bool_decide (accuracy > 1 /\ mtime mod 2 <> 0) then 1
  else if bool_decide (accuracy > 10 /\ mtime mod 20 <> 0) then 10
  else if bool_decide (accuracy > 100 /\ mtime mod 200 <> 0) then 100
  else if bool_decide (accuracy > 1000 /\ mtime mod 2000 <> 0) then 1000
  else accuracy.

(** Tightening to the evidence: the smaller of the two, never larger. *)
Definition tighten (a : Z) (e : option Z) : Z :=
  match e with
  | Some k => Z.min a k
  | None => a
  end.

End Accuracy.

(* ===================================================================== *)
(** ** lib/FileSystemInfo.js *)
(* ===================================================================== *)

Module FSInfo.

(** [FileSystemInfoEntry]: [timestamp] is [undefined] for a directory. *)
Record FileSystemInfoEntry := {
  safeTime : JS.number;
  timestamp : option Z
}.

#[global] Instance number_eq_dec : EqDecision JS.number.
Proof. solve_decision. Defined.

#[global] Instance FileSystemInfoEntry_eq_dec : EqDecision FileSystemInfoEntry.
Proof. solve_decision. Defined.

(** A value stored in a snapshot: the string ["error"], or what was read.
    What was read is [null] ([None]) for a path that did not exist. *)
Inductive snap (A : Type) :=
| SnapError
| Snap (a : A).
Arguments SnapError {A}.
Arguments Snap {A} a.

(** [Snapshot]: every field is optional. *)
Record Snapshot := mkSnapshot {
  startTime : option Z;
  fileTimestamps : option (gmap string (snap (option FileSystemInfoEntry)));
  fileHashes : option (gmap string (snap (option string)));
  contextTimestamps : option (gmap string (snap (option FileSystemInfoEntry)));
  contextHashes : option (gmap string (snap (option string)));
  missingTimestamps : option (gmap string (snap (option FileSystemInfoEntry)));
  managedItemInfo : option (gmap string (snap string))
}.

(** The caches and managed paths of a [FileSystemInfo] instance. A cached
    [null] ([Some None]) records that the path did not exist. *)
Record FileSystemInfo := {
  _fileTimestamps : gmap string (option FileSystemInfoEntry);
  _fileHashes : gmap string (option string);
  _contextTimestamps : gmap string (option FileSystemInfoEntry);
  _contextHashes : gmap string (option string);
  _managedItems : gmap string string;
  managedPaths : list string;
  managedPathsWithSlash : list string
}.

(** The constructor. [join] of lib/util/fs.js is not among the sources and
    is taken as an argument. *)
Definition new_FileSystemInfo (join : string -> string -> string)
    (managedPaths : list string) : FileSystemInfo :=
  {| _fileTimestamps := ∅;
     _fileHashes := ∅;
     _contextTimestamps := ∅;
     _contextHashes := ∅;
     _managedItems := ∅;
     managedPaths := managedPaths;
     managedPathsWithSlash :=
       List.map (fun p => JS.drop_last (join p "_")) managedPaths |}.

(** [addFileTimestamps] *)
Definition addFileTimestamps (map : gmap string (option FileSystemInfoEntry))
    (this : FileSystemInfo) : FileSystemInfo :=
  {| _fileTimestamps :=
       map_fold (fun path ts cache => <[path := ts]> cache) (_fileTimestamps this) map;
     _fileHashes := _fileHashes this;
     _contextTimestamps := _contextTimestamps this;
     _contextHashes := _contextHashes this;
     _managedItems := _managedItems this;
     managedPaths := managedPaths this;
     managedPathsWithSlash := managedPathsWithSlash this |}.

(** Modelled from the spec: [join] of lib/util/fs.js is not among the
    sources. The specification describes a managed root as "suffixed with a
    separator"; on a POSIX file system, joining a root that has no
    trailing separator with a file name puts one ["/"] between them. *)
Definition join_posix (rootPath filename : string) : string :=
  (rootPath ++ "/" ++ filename)%string.

(** *** [mergeMaps] *)

(** [new Map(a)] followed by [map.set(key, value)] for each entry of [b];
    [new Map(undefined)] is an empty map. Reading [b.size] of an
    [undefined] [b] throws. *)
Definition mergeMaps {V} (a b : option (gmap string V))
    : JS.result (option (gmap string V)) :=
  match b with
  | None => JS.Throw (JS.TypeError "Cannot read property 'size' of undefined")
  | Some mb =>
      if bool_decide (size mb = 0%nat) then JS.Return a
      else
        let map := default ∅ a in
        JS.Return (Some (map_fold (fun key value map => <[key := value]> map) map mb))
  end.

(** *** [getManagedItem] *)

(** The loop of [getManagedItem] over the characters of [remaining] from
    index [i] on: the index at which it stops. *)
Fixpoint getManagedItem_loop (remaining : string) (i : nat) (slashes : Z) : nat :=
  match remaining with
  | EmptyString => i
  | String c rest =>
      match Ascii.nat_of_ascii c with
      | 47%nat | 92%nat =>
          if slashes - 1 =? 0 then i
          else getManagedItem_loop rest (S i) (slashes - 1)
      | 64%nat => getManagedItem_loop rest (S i) (slashes + 1)
      | _ => getManagedItem_loop rest (S i) slashes
      end
  end.

Definition getManagedItem (managedPath path : string) : string :=
  let remaining := JS.slice_from (String.length managedPath) path in
  let i := getManagedItem_loop remaining 0 2 in
  JS.slice_to (String.length managedPath + i) path.

(** The inner loop over [this.managedPathsWithSlash]: the managed item of
    [path] under the first managed path it starts with, if any. *)
Fixpoint managedItemOf (managedPathsWithSlash : list string) (path : string)
    : option string :=
  match managedPathsWithSlash with
  | [] => None
  | managedPath :: others =>
      if JS.startsWith path managedPath
      then Some (getManagedItem managedPath path)
      else managedItemOf others path
  end.

(** *** [mergeSnapshots] *)

(** [if (snapshot1.m || snapshot2.m) snapshot.m = mergeMaps(...)]: a map
    object is truthy. *)
Definition mergeField {V} (m1 m2 : option (gmap string V))
    : JS.result (option (gmap string V)) :=
  if bool_decide (is_Some m1) || bool_decide (is_Some m2)
  then mergeMaps m1 m2
  else JS.Return None.

(** The [startTime] of the merged snapshot; in the first branch both are
    numbers. *)
Definition mergeStartTime (t1 t2 : option Z) : option Z :=
  if JS.truthy_num t1 && JS.truthy_num t2
  then Some (Z.min (default 0 t1) (default 0 t2))
  else if JS.truthy_num t2 then t2
  else if JS.truthy_num t1 then t1
  else None.

Definition mergeSnapshots (snapshot1 snapshot2 : Snapshot) : JS.result Snapshot :=
  let startTime' := mergeStartTime (startTime snapshot1) (startTime snapshot2) in
  fileTimestamps' ← mergeField (fileTimestamps snapshot1) (fileTimestamps snapshot2);
  fileHashes' ← mergeField (fileHashes snapshot1) (fileHashes snapshot2);
  contextTimestamps' ← mergeField (contextTimestamps snapshot1) (contextTimestamps snapshot2);
  contextHashes' ← mergeField (contextHashes snapshot1) (contextHashes snapshot2);
  missingTimestamps' ← mergeField (missingTimestamps snapshot1) (missingTimestamps snapshot2);
  managedItemInfo' ← mergeField (managedItemInfo snapshot1) (managedItemInfo snapshot2);
  JS.Return (mkSnapshot startTime' fileTimestamps' fileHashes' contextTimestamps'
               contextHashes' missingTimestamps' managedItemInfo').

(** The union of two optional maps in which the second wins, for a second
    map that is there: what [mergeSnapshots] is specified to give a
    field. A second map that is empty and merged into no map gives no
    map. *)
Definition union_field {V} (m1 m2 : option (gmap string V))
    : option (gmap string V) :=
  match m1, m2 with
  | Some a, Some b => Some (b ∪ a)
  | None, Some b => if bool_decide (size b = 0%nat) then None else Some b
  | _, None => None
  end.

(** [snapshot2] has every map that [snapshot1] has. *)
Definition has_maps_of (snapshot1 snapshot2 : Snapshot) : Prop :=
  (is_Some (fileTimestamps snapshot1) -> is_Some (fileTimestamps snapshot2))
  /\ (is_Some (fileHashes snapshot1) -> is_Some (fileHashes snapshot2))
  /\ (is_Some (contextTimestamps snapshot1) -> is_Some (contextTimestamps snapshot2))
  /\ (is_Some (contextHashes snapshot1) -> is_Some (contextHashes snapshot2))
  /\ (is_Some (missingTimestamps snapshot1) -> is_Some (missingTimestamps snapshot2))
  /\ (is_Some (managedItemInfo snapshot1) -> is_Some (managedItemInfo snapshot2)).

(** Two optional maps share no key. *)
Definition disjoint_field {V} (m1 m2 : option (gmap string V)) : Prop :=
  forall a b, m1 = Some a -> m2 = Some b -> a ##ₘ b.

(** Two snapshots share no key in any of the six maps. *)
Definition disjoint_keys (snapshot1 snapshot2 : Snapshot) : Prop :=
  disjoint_field (fileTimestamps snapshot1) (fileTimestamps snapshot2)
  /\ disjoint_field (fileHashes snapshot1) (fileHashes snapshot2)
  /\ disjoint_field (contextTimestamps snapshot1) (contextTimestamps snapshot2)
  /\ disjoint_field (contextHashes snapshot1) (contextHashes snapshot2)
  /\ disjoint_field (missingTimestamps snapshot1) (missingTimestamps snapshot2)
  /\ disjoint_field (managedItemInfo snapshot1) (managedItemInfo snapshot2).

(** *** [createSnapshot] *)

(** The [options] argument: [hash] may be left out. *)
Record Options := { hash : option bool }.

(** [options && options.hash] *)
Definition hash_mode (options : option Options) : bool :=
  match options with
  | Some o => bool_decide (hash o = Some true)
  | None => false
  end.

(** [map.size !== 0 ? map : undefined], the value a field of the snapshot
    object gets from [if (map.size !== 0) snapshot.field = map]. *)
Definition unless_empty {V} (map : gmap string V) : option (gmap string V) :=
  if bool_decide (size map = 0%nat) then None else Some map.

(** The six maps of a snapshot. *)
Inductive kind :=
| KFileTimestamps
| KFileHashes
| KContextTimestamps
| KContextHashes
| KMissingTimestamps
| KManagedItemInfo.

(** An optional map has an entry for [p]. *)
Definition has_key {V} (map : option (gmap string V)) (p : string) : Prop :=
  exists m, map = Some m /\ is_Some (m !! p).

(** The snapshot has an entry for [p] in the map [k]. *)
Definition keys (k : kind) (snapshot : Snapshot) (p : string) : Prop :=
  match k with
  | KFileTimestamps => has_key (fileTimestamps snapshot) p
  | KFileHashes => has_key (fileHashes snapshot) p
  | KContextTimestamps => has_key (contextTimestamps snapshot) p
  | KContextHashes => has_key (contextHashes snapshot) p
  | KMissingTimestamps => has_key (missingTimestamps snapshot) p
  | KManagedItemInfo => has_key (managedItemInfo snapshot) p
  end.

(** The snapshot object has the property of the map [k]. *)
Definition has_map (k : kind) (snapshot : Snapshot) : Prop :=
  match k with
  | KFileTimestamps => is_Some (fileTimestamps snapshot)
  | KFileHashes => is_Some (fileHashes snapshot)
  | KContextTimestamps => is_Some (contextTimestamps snapshot)
  | KContextHashes => is_Some (contextHashes snapshot)
  | KMissingTimestamps => is_Some (missingTimestamps snapshot)
  | KManagedItemInfo => is_Some (managedItemInfo snapshot)
  end.

(** [p] is one of the paths of an argument that may be left out. *)
Definition in_input (paths : option (list string)) (p : string) : Prop :=
  exists l, paths = Some l /\ In p l.

(** The paths each map of the snapshot is to have an entry for, read off
    the branches of [createSnapshot]: the input paths beneath no managed
    path, by mode, and the managed items of the others. *)
Definition expected (this : FileSystemInfo)
    (files directories missing : option (list string))
    (options : option Options) (k : kind) (p : string) : Prop :=
  let unmanaged := managedItemOf (managedPathsWithSlash this) p = None in
  match k with
  | KFileTimestamps => hash_mode options = false /\ in_input files p /\ unmanaged
  | KFileHashes => hash_mode options = true /\ in_input files p /\ unmanaged
  | KContextTimestamps =>
      hash_mode options = false /\ in_input directories p /\ unmanaged
  | KContextHashes =>
      hash_mode options = true /\ in_input directories p /\ unmanaged
  | KMissingTimestamps => in_input missing p /\ unmanaged
  | KManagedItemInfo =>
      exists q,
        (in_input files q \/ in_input directories q \/ in_input missing q)
        /\ managedItemOf (managedPathsWithSlash this) q = Some p
  end.

(** The map the files, and the directories, go to in each mode. *)
Definition mode_files (options : option Options) : kind :=
  if hash_mode options then KFileHashes else KFileTimestamps.

Definition mode_directories (options : option Options) : kind :=
  if hash_mode options then KContextHashes else KContextTimestamps.

Module CreateSnapshot.

(** A read handed to one of the queues; its callback runs later. *)
Inductive request :=
| FileHash (path : string)
| FileTimestamp (path : string)
| ContextHash (path : string)
| MissingTimestamp (path : string)
| ManagedItem (path : string).

(** A queue calling back: the request and the arguments [(err, entry)]. *)
Inductive completion :=
| FileHashDone (path : string) (r : cb_args (option string))
| FileTimestampDone (path : string) (r : cb_args (option FileSystemInfoEntry))
| ContextHashDone (path : string) (r : cb_args (option string))
| MissingTimestampDone (path : string) (r : cb_args (option FileSystemInfoEntry))
| ManagedItemDone (path : string) (r : cb_args string).

Definition request_of (c : completion) : request :=
  match c with
  | FileHashDone path _ => FileHash path
  | FileTimestampDone path _ => FileTimestamp path
  | ContextHashDone path _ => ContextHash path
  | MissingTimestampDone path _ => MissingTimestamp path
  | ManagedItemDone path _ => ManagedItem path
  end.

(** The local variables of one call, and the calls made to its
    [callback] so far. *)
Record Closure := mkClosure {
  fileTimestamps : gmap string (snap (option FileSystemInfoEntry));
  fileHashes : gmap string (snap (option string));
  contextTimestamps : gmap string (snap (option FileSystemInfoEntry));
  contextHashes : gmap string (snap (option string));
  missingTimestamps : gmap string (snap (option FileSystemInfoEntry));
  managedItemInfo : gmap string (snap string);
  managedItems : gset string;
  jobs : Z;
  called : list (cb_args Snapshot)
}.

Definition init : Closure :=
  mkClosure ∅ ∅ ∅ ∅ ∅ ∅ ∅ 1 [].

Definition set_fileTimestamps path v (c : Closure) : Closure :=
  mkClosure (<[path := v]> (fileTimestamps c)) (fileHashes c) (contextTimestamps c)
    (contextHashes c) (missingTimestamps c) (managedItemInfo c) (managedItems c)
    (jobs c) (called c).

Definition set_fileHashes path v (c : Closure) : Closure :=
  mkClosure (fileTimestamps c) (<[path := v]> (fileHashes c)) (contextTimestamps c)
    (contextHashes c) (missingTimestamps c) (managedItemInfo c) (managedItems c)
    (jobs c) (called c).

Definition set_contextTimestamps path v (c : Closure) : Closure :=
  mkClosure (fileTimestamps c) (fileHashes c) (<[path := v]> (contextTimestamps c))
    (contextHashes c) (missingTimestamps c) (managedItemInfo c) (managedItems c)
    (jobs c) (called c).

Definition set_contextHashes path v (c : Closure) : Closure :=
  mkClosure (fileTimestamps c) (fileHashes c) (contextTimestamps c)
    (<[path := v]> (contextHashes c)) (missingTimestamps c) (managedItemInfo c)
    (managedItems c) (jobs c) (called c).

Definition set_missingTimestamps path v (c : Closure) : Closure :=
  mkClosure (fileTimestamps c) (fileHashes c) (contextTimestamps c)
    (contextHashes c) (<[path := v]> (missingTimestamps c)) (managedItemInfo c)
    (managedItems c) (jobs c) (called c).

Definition set_managedItemInfo path v (c : Closure) : Closure :=
  mkClosure (fileTimestamps c) (fileHashes c) (contextTimestamps c)
    (contextHashes c) (missingTimestamps c) (<[path := v]> (managedItemInfo c))
    (managedItems c) (jobs c) (called c).

(** [managedItems.add(item)] *)
Definition add_managedItem item (c : Closure) : Closure :=
  mkClosure (fileTimestamps c) (fileHashes c) (contextTimestamps c)
    (contextHashes c) (missingTimestamps c) (managedItemInfo c)
    ({[item]} ∪ managedItems c) (jobs c) (called c).

Definition set_jobs n (c : Closure) : Closure :=
  mkClosure (fileTimestamps c) (fileHashes c) (contextTimestamps c)
    (contextHashes c) (missingTimestamps c) (managedItemInfo c)
    (managedItems c) n (called c).

(** [callback(null, snapshot)] *)
Definition call (s : Snapshot) (c : Closure) : Closure :=
  mkClosure (fileTimestamps c) (fileHashes c) (contextTimestamps c)
    (contextHashes c) (missingTimestamps c) (managedItemInfo c)
    (managedItems c) (jobs c) (called c ++ [CbOk s]).

(** The snapshot object [jobDone] builds from the maps as they are. *)
Definition snapshot_of (startTime : option Z) (c : Closure) : Snapshot :=
  mkSnapshot
    (if JS.truthy_num startTime then startTime else None)
    (unless_empty (fileTimestamps c))
    (unless_empty (fileHashes c))
    (unless_empty (contextTimestamps c))
    (unless_empty (contextHashes c))
    (unless_empty (missingTimestamps c))
    (unless_empty (managedItemInfo c)).

Definition jobDone (startTime : option Z) (c : Closure) : Closure :=
  let c := set_jobs (jobs c - 1) c in
  if jobs c =? 0 then call (snapshot_of startTime c) c else c.

(** The closure and the requests issued so far, in order. *)
Definition progress : Type := Closure * list request.

(** The inner loop over the managed paths with its [continue]: a path
    beneath a managed path adds its managed item and is done; any other
    path goes on to [otherwise]. *)
Definition unless_managed (this : FileSystemInfo)
    (otherwise : string -> progress -> progress)
    (acc : progress) (path : string) : progress :=
  match managedItemOf (managedPathsWithSlash this) path with
  | Some item => (add_managedItem item acc.1, acc.2)
  | None => otherwise path acc
  end.

(** [const cache = m.get(path); if (cache !== undefined) map.set(path,
    cache); else { jobs++; queue.add(path, ...) }] *)
Definition from_cache {A} (cache : gmap string A)
    (set : string -> snap A -> Closure -> Closure)
    (req : string -> request) (path : string) (acc : progress) : progress :=
  match cache !! path with
  | Some cached => (set path (Snap cached) acc.1, acc.2)
  | None => (set_jobs (jobs acc.1 + 1) acc.1, acc.2 ++ [req path])
  end.

(** The body of a queue callback: [if (err) map.set(path, "error"); else
    map.set(path, entry); jobDone();] *)
Definition store {A} (startTime : option Z)
    (set : string -> snap A -> Closure -> Closure)
    (path : string) (r : cb_args A) (c : Closure) : Closure :=
  match r with
  | CbErr _ => jobDone startTime (set path SnapError c)
  | CbOk entry => jobDone startTime (set path (Snap entry) c)
  end.

(** The synchronous part of [createSnapshot]. *)
Definition createSnapshot (this : FileSystemInfo) (startTime : option Z)
    (files directories missing : option (list string))
    (options : option Options) : progress :=
  let acc : progress := (init, []) in
  let acc :=
    match files with
    | Some files =>
        if hash_mode options then
          foldl (unless_managed this
                   (from_cache (_fileHashes this) set_fileHashes FileHash))
                acc files
        else
          foldl (unless_managed this
                   (from_cache (_fileTimestamps this) set_fileTimestamps FileTimestamp))
                acc files
    | None => acc
    end in
  let acc :=
    match directories with
    | Some directories =>
        if hash_mode options then
          foldl (unless_managed this
                   (from_cache (_contextHashes this) set_contextHashes ContextHash))
                acc directories
        else
          foldl (unless_managed this
                   (fun path acc => (set_contextTimestamps path SnapError acc.1, acc.2)))
                acc directories
    | None => acc
    end in
  let acc :=
    match missing with
    | Some missing =>
        foldl (unless_managed this
                 (from_cache (_fileTimestamps this) set_missingTimestamps MissingTimestamp))
              acc missing
    | None => acc
    end in
  let acc :=
    foldl (fun acc path =>
             from_cache (_managedItems this) set_managedItemInfo ManagedItem path acc)
          acc (elements (managedItems acc.1)) in
  (jobDone startTime acc.1, acc.2).

(** A queue calling back. *)
Definition complete (startTime : option Z) (c : Closure) (d : completion) : Closure :=
  match d with
  | FileHashDone path r => store startTime set_fileHashes path r c
  | FileTimestampDone path r => store startTime set_fileTimestamps path r c
  | ContextHashDone path r => store startTime set_contextHashes path r c
  | MissingTimestampDone path r => store startTime set_missingTimestamps path r c
  | ManagedItemDone path r => store startTime set_managedItemInfo path r c
  end.

(** [createSnapshot] followed by the queues calling back in the order
    [done]. *)
Definition run (this : FileSystemInfo) (startTime : option Z)
    (files directories missing : option (list string))
    (options : option Options) (done : list completion) : Closure :=
  foldl (complete startTime)
        (createSnapshot this startTime files directories missing options).1 done.

(** [done] answers each request of the call once, in any order. *)
Definition answers (this : FileSystemInfo) (startTime : option Z)
    (files directories missing : option (list string))
    (options : option Options) (done : list completion) : Prop :=
  Permutation (List.map request_of done)
    (createSnapshot this startTime files directories missing options).2.

End CreateSnapshot.

(** *** [checkSnapshotValid] *)

(** Truthiness of a value that is an object or [null]. *)
Definition truthy {A} (v : option A) : bool :=
  match v with Some _ => true | None => false end.

Module CheckSnapshotValid.

(** [checkHash] *)
Definition checkHash (current : option string) (snap : snap (option string)) : bool :=
  match snap with
  | SnapError => false
  | Snap snap => bool_decide (current = snap)
  end.

(** [checkExistance] *)
Definition checkExistance (current : option FileSystemInfoEntry)
    (snap : snap (option FileSystemInfoEntry)) : bool :=
  match snap with
  | SnapError => false
  | Snap snap => Bool.eqb (negb (truthy current)) (negb (truthy snap))
  end.

(** [checkFile]; [startTime] is the variable of the enclosing call. After
    the test on existence, [current] and [snap] are both entries or both
    [null]. *)
Definition checkFile (startTime : option Z) (current : option FileSystemInfoEntry)
    (snap : snap (option FileSystemInfoEntry)) : bool :=
  match snap with
  | SnapError => false
  | Snap snap =>
      if match current with
         | Some current => JS.gt_opt (safeTime current) startTime
         | None => false
         end
      then false
      else if negb (Bool.eqb (negb (truthy current)) (negb (truthy snap)))
      then false
      else
        match current, snap with
        | Some current, Some snap =>
            if bool_decide (timestamp snap <> None)
               && bool_decide (timestamp current <> timestamp snap)
            then false
            else true
        | _, _ => true
        end
  end.

(** A read handed to one of the queues, with the snapshot's value it will
    be compared to. *)
Inductive request :=
| FileTimestamp (path : string) (ts : snap (option FileSystemInfoEntry))
| FileHash (path : string) (hash : snap (option string))
| ContextHash (path : string) (hash : snap (option string))
| MissingTimestamp (path : string) (ts : snap (option FileSystemInfoEntry)).

(** A queue calling back: the request and the arguments [(err, entry)]. *)
Inductive completion :=
| FileTimestampDone (path : string) (ts : snap (option FileSystemInfoEntry))
    (r : cb_args (option FileSystemInfoEntry))
| FileHashDone (path : string) (hash : snap (option string))
    (r : cb_args (option string))
| ContextHashDone (path : string) (hash : snap (option string))
    (r : cb_args (option string))
| MissingTimestampDone (path : string) (ts : snap (option FileSystemInfoEntry))
    (r : cb_args (option FileSystemInfoEntry)).

Definition request_of (d : completion) : request :=
  match d with
  | FileTimestampDone path ts _ => FileTimestamp path ts
  | FileHashDone path hash _ => FileHash path hash
  | ContextHashDone path hash _ => ContextHash path hash
  | MissingTimestampDone path ts _ => MissingTimestamp path ts
  end.

(** The arguments [(err, entry)] of a completion are an error. *)
Definition failed (d : completion) : bool :=
  match d with
  | FileTimestampDone _ _ (CbErr _) | FileHashDone _ _ (CbErr _)
  | ContextHashDone _ _ (CbErr _) | MissingTimestampDone _ _ (CbErr _) => true
  | _ => false
  end.

(** The counter of one call, and the calls made to its [callback] so
    far. *)
Record Closure := mkClosure {
  jobs : JS.counter;
  called : list (cb_args bool)
}.

Definition jobDone (c : Closure) : Closure :=
  let jobs := JS.decr (jobs c) in
  if JS.is_zero jobs
  then mkClosure jobs (called c ++ [CbOk true])
  else mkClosure jobs (called c).

Definition invalid (c : Closure) : Closure :=
  if JS.is_pos (jobs c)
  then mkClosure JS.NaN (called c ++ [CbOk false])
  else c.

(** The closure and the requests issued so far, in order. *)
Definition progress : Type := Closure * list request.

(** The body of each loop over a map of the snapshot:
    [const cache = m.get(path); if (cache !== undefined) { if
    (!check(cache, snap)) invalid(); } else { jobs++; queue.add(path,
    ...) }] *)
Definition visit {C S} (cache : gmap string C) (check : C -> S -> bool)
    (req : string -> S -> request) (acc : progress) (entry : string * S)
    : progress :=
  match cache !! entry.1 with
  | Some cached =>
      if negb (check cached entry.2) then (invalid acc.1, acc.2) else acc
  | None =>
      (mkClosure (JS.incr (jobs acc.1)) (called acc.1),
       acc.2 ++ [req entry.1 entry.2])
  end.

(** [for (const [path, snap] of map)], skipped when the snapshot does not
    have the map. *)
Definition each {C S} (map : option (gmap string S)) (cache : gmap string C)
    (check : C -> S -> bool) (req : string -> S -> request) (acc : progress)
    : progress :=
  match map with
  | Some map => foldl (visit cache check req) acc (map_to_list map)
  | None => acc
  end.

(** The body of a queue callback: [if (err) return invalid(); if
    (!check(entry, snap)) invalid(); else jobDone();] *)
Definition compare {C S} (check : C -> S -> bool) (snap : S) (r : cb_args C)
    (c : Closure) : Closure :=
  match r with
  | CbErr _ => invalid c
  | CbOk entry => if negb (check entry snap) then invalid c else jobDone c
  end.

(** The synchronous part of [checkSnapshotValid]. *)
Definition checkSnapshotValid (this : FileSystemInfo) (snapshot : Snapshot)
    : progress :=
  let acc : progress := (mkClosure (JS.Count 1) [], []) in
  let acc :=
    each (fileTimestamps snapshot) (_fileTimestamps this)
      (checkFile (startTime snapshot)) FileTimestamp acc in
  let acc :=
    each (fileHashes snapshot) (_fileHashes this) checkHash FileHash acc in
  let acc :=
    match contextTimestamps snapshot with
    | Some contextTimestamps =>
        if bool_decide (0 < size contextTimestamps)%nat
        then (invalid acc.1, acc.2)
        else acc
    | None => acc
    end in
  let acc :=
    each (contextHashes snapshot) (_contextHashes this) checkHash ContextHash acc in
  let acc :=
    each (missingTimestamps snapshot) (_fileTimestamps this)
      checkExistance MissingTimestamp acc in
  (jobDone acc.1, acc.2).

(** A queue calling back. *)
Definition complete (startTime : option Z) (c : Closure) (d : completion) : Closure :=
  match d with
  | FileTimestampDone _ ts r => compare (checkFile startTime) ts r c
  | FileHashDone _ hash r => compare checkHash hash r c
  | ContextHashDone _ hash r => compare checkHash hash r c
  | MissingTimestampDone _ ts r => compare checkExistance ts r c
  end.

(** [checkSnapshotValid] followed by the queues calling back in the order
    [done]. *)
Definition run (this : FileSystemInfo) (snapshot : Snapshot)
    (done : list completion) : Closure :=
  foldl (complete (startTime snapshot)) (checkSnapshotValid this snapshot).1 done.

(** [done] answers each request of the call once, in any order. *)
Definition answers (this : FileSystemInfo) (snapshot : Snapshot)
    (done : list completion) : Prop :=
  Permutation (List.map request_of done) (checkSnapshotValid this snapshot).2.

(** The arguments a queue called back with are a value that the
    predicate of its request accepts. *)
Definition passed (startTime : option Z) (d : completion) : bool :=
  match d with
  | FileTimestampDone _ ts (CbOk entry) => checkFile startTime entry ts
  | FileHashDone _ hash (CbOk entry) => checkHash entry hash
  | ContextHashDone _ hash (CbOk entry) => checkHash entry hash
  | MissingTimestampDone _ ts (CbOk entry) => checkExistance entry ts
  | _ => false
  end.

(** Every entry of a map of the snapshot whose path is cached is accepted
    by the predicate against the cached value. *)
Definition holds {C S} (cache : gmap string C) (check : C -> S -> bool)
    (map : option (gmap string S)) : Prop :=
  forall m path snap cached,
    map = Some m -> m !! path = Some snap -> cache !! path = Some cached ->
    check cached snap = true.

(** What the synchronous part of [checkSnapshotValid] accepts: the cached
    facts hold and there is no entry in [contextTimestamps]. *)
Definition cached_facts_hold (this : FileSystemInfo) (snapshot : Snapshot) : Prop :=
  holds (_fileTimestamps this) (checkFile (startTime snapshot))
    (fileTimestamps snapshot)
  /\ holds (_fileHashes this) checkHash (fileHashes snapshot)
  /\ (forall m, contextTimestamps snapshot = Some m -> size m = 0%nat)
  /\ holds (_contextHashes this) checkHash (contextHashes snapshot)
  /\ holds (_fileTimestamps this) checkExistance (missingTimestamps snapshot).

End CheckSnapshotValid.

(** *** The processors of the queues *)

(** What [fs.stat] reports that the module reads: [+stat.mtime], a whole
    number of milliseconds, and [stat.isDirectory()]. *)
Record Stats := {
  mtime : Z;
  isDirectory : bool
}.

(** The module-level [FS_ACCURACY] together with an instance. *)
Record World := mkWorld {
  FS_ACCURACY : Z;
  this : FileSystemInfo
}.

Definition cache_fileTimestamp (path : string) (ts : option FileSystemInfoEntry)
    (w : World) : World :=
  mkWorld (FS_ACCURACY w)
    {| _fileTimestamps := <[path := ts]> (_fileTimestamps (this w));
       _fileHashes := _fileHashes (this w);
       _contextTimestamps := _contextTimestamps (this w);
       _contextHashes := _contextHashes (this w);
       _managedItems := _managedItems (this w);
       managedPaths := managedPaths (this w);
       managedPathsWithSlash := managedPathsWithSlash (this w) |}.

Definition cache_fileHash (path : string) (h : option string) (w : World) : World :=
  mkWorld (FS_ACCURACY w)
    {| _fileTimestamps := _fileTimestamps (this w);
       _fileHashes := <[path := h]> (_fileHashes (this w));
       _contextTimestamps := _contextTimestamps (this w);
       _contextHashes := _contextHashes (this w);
       _managedItems := _managedItems (this w);
       managedPaths := managedPaths (this w);
       managedPathsWithSlash := managedPathsWithSlash (this w) |}.

Definition cache_contextTimestamp (path : string) (ts : option FileSystemInfoEntry)
    (w : World) : World :=
  mkWorld (FS_ACCURACY w)
    {| _fileTimestamps := _fileTimestamps (this w);
       _fileHashes := _fileHashes (this w);
       _contextTimestamps := <[path := ts]> (_contextTimestamps (this w));
       _contextHashes := _contextHashes (this w);
       _managedItems := _managedItems (this w);
       managedPaths := managedPaths (this w);
       managedPathsWithSlash := managedPathsWithSlash (this w) |}.

Definition cache_contextHash (path : string) (h : option string) (w : World) : World :=
  mkWorld (FS_ACCURACY w)
    {| _fileTimestamps := _fileTimestamps (this w);
       _fileHashes := _fileHashes (this w);
       _contextTimestamps := _contextTimestamps (this w);
       _contextHashes := <[path := h]> (_contextHashes (this w));
       _managedItems := _managedItems (this w);
       managedPaths := managedPaths (this w);
       managedPathsWithSlash := managedPathsWithSlash (this w) |}.

(** [_readFileTimestamp]: [reply] is what [fs.stat] calls back with. The
    result is the world afterwards and the arguments given to
    [callback]. *)
Definition _readFileTimestamp (path : string) (reply : cb_args Stats) (w : World)
    : World * cb_args (option FileSystemInfoEntry) :=
  match reply with
  | CbErr err =>
      if is_ENOENT err
      then (cache_fileTimestamp path None w, CbOk None)
      else (w, CbErr err)
  | CbOk stat =>
      let mtime := mtime stat in
      let w := mkWorld (Accuracy.observe (FS_ACCURACY w) mtime) (this w) in
      let ts :=
        {| safeTime :=
             if negb (mtime =? 0) then JS.Num (mtime + FS_ACCURACY w)
             else JS.Infinity;
           timestamp := if isDirectory stat then None else Some mtime |} in
      (cache_fileTimestamp path (Some ts) w, CbOk (Some ts))
  end.

(** [_readContextTimestamp] *)
Definition _readContextTimestamp (path : string) (w : World)
    : World * cb_args (option FileSystemInfoEntry) :=
  (cache_contextTimestamp path None w, CbOk None).

(** *** The getters *)

(** What a getter does with its [callback]: it calls it at once, or hands
    the path and the callback to its queue. *)
Inductive getter (A : Type) :=
| Called (args : cb_args A)
| Queued (path : string).

Arguments Called {A} args.
Arguments Queued {A} path.

(** [getFileTimestamp]; a cached [null] is a hit. *)
Definition getFileTimestamp (path : string) (this : FileSystemInfo)
    : getter (option FileSystemInfoEntry) :=
  match _fileTimestamps this !! path with
  | Some cache => Called (CbOk cache)
  | None => Queued path
  end.

(** [getContextTimestamp] *)
Definition getContextTimestamp (path : string) (this : FileSystemInfo)
    : getter (option FileSystemInfoEntry) :=
  match _contextTimestamps this !! path with
  | Some cache => Called (CbOk cache)
  | None => Queued path
  end.

(** [getFileHash] *)
Definition getFileHash (path : string) (this : FileSystemInfo)
    : getter (option string) :=
  match _fileHashes this !! path with
  | Some cache => Called (CbOk cache)
  | None => Queued path
  end.

(** [getContextHash] *)
Definition getContextHash (path : string) (this : FileSystemInfo)
    : getter (option string) :=
  match _contextHashes this !! path with
  | Some cache => Called (CbOk cache)
  | None => Queued path
  end.

(** *** The hashing processors *)

(** What the file system holds at an entry of a directory, as far as
    [_readContextHash] asks: [fs.stat] fails; or the entry is a file, with
    what [fs.readFile] calls back with for it; or a directory, with what
    [fs.readdir] calls back with for it and what it holds at each name; or
    neither of the two. *)
Inductive Child :=
| StatError (err : Error)
| IsFile (reply : cb_args string)
| IsDirectory (reply : cb_args (list string)) (children : string -> Child)
| IsOther.

(** The values of a list of results when each of them is a text. *)
Fixpoint all_text (results : list (cb_args (option string))) : option (list string) :=
  match results with
  | [] => Some []
  | CbOk (Some h) :: rest => cons h <$> all_text rest
  | _ => None
  end.

Section Hashing.

(** The hashing primitive, [createHash("md4")]: the hex digest of the
    strings it was updated with, in order. *)
Variable md4 : list string -> string.

(** [file.normalize("NFC")] and [Array.prototype.sort] on names. *)
Variable normalizeNFC : string -> string.
Variable sort : list string -> list string.

(** [join] of lib/util/fs.js, not among the sources. *)
Variable join : string -> string -> string.

(** Where the final callback of [asyncLib.map] is called with an error, or
    with a value that is no text among [fileHashes], the source does not
    look at [err] and goes on to update the hash with the names and with
    what it iterates from [fileHashes]. asyncLib and the hasher are not
    among the sources: the digest this ends in, or the exception thrown on
    the way, is an argument, given the names and what the calls of the
    iterator called back with. *)
Variable unchecked : list string -> list (cb_args (option string)) -> JS.result string.

(** [_readFileHash]: [reply] is what [fs.readFile] calls back with. *)
Definition _readFileHash (path : string) (reply : cb_args string) (w : World)
    : World * cb_args (option string) :=
  match reply with
  | CbErr err =>
      if is_ENOENT err
      then (cache_fileHash path None w, CbOk None)
      else (w, CbErr err)
  | CbOk content =>
      let digest := md4 [content] in
      (cache_fileHash path (Some digest) w, CbOk (Some digest))
  end.

(** [!/^\./.test(file)] *)
Definition not_hidden (file : string) : bool :=
  negb (String.prefix "." file).

(** [asyncLib.map(files, iterator, ...)]: the iterator is called for every
    name, [read] being what one call does; the results are kept in the
    order of the names. An exception ends the run. *)
Fixpoint readChildren
    (read : string -> World -> JS.result (World * cb_args (option string)))
    (files : list string) (w : World)
    : JS.result (World * list (cb_args (option string))) :=
  match files with
  | [] => JS.Return (w, [])
  | file :: rest =>
      r ← read file w;
      rs ← readChildren read rest r.1;
      JS.Return (rs.1, r.2 :: rs.2)
  end.

(** The final callback [(err, fileHashes) => ...]: [hash.update] with
    each name, then with each of [fileHashes]; [err] is not read. *)
Definition digest_of (files : list string) (results : list (cb_args (option string)))
    : JS.result string :=
  match all_text results with
  | Some fileHashes => JS.Return (md4 (files ++ fileHashes))
  | None => unchecked files results
  end.

(** The callback of [fs.readdir] in [_readContextHash], [read] being what
    the iterator does for a name. *)
Definition readdir_callback
    (read : string -> World -> JS.result (World * cb_args (option string)))
    (path : string) (reply : cb_args (list string)) (w : World)
    : JS.result (World * cb_args (option string)) :=
  match reply with
  | CbErr err =>
      if is_ENOENT err
      then JS.Return (cache_contextHash path None w, CbOk None)
      else JS.Return (w, CbErr err)
  | CbOk files =>
      let files := sort (List.filter not_hidden (List.map normalizeNFC files)) in
      r ← readChildren read files w;
      digest ← digest_of files r.2;
      JS.Return (cache_contextHash path (Some digest) r.1, CbOk (Some digest))
  end.

(** The iterator given to [asyncLib.map], for the name [file] in the
    directory [path] with [c] at that name: [fs.stat(child)], then
    [getFileHash] for a file, [getContextHash] for a directory with [hash ||
    ""] for its value, and [""] for anything else. A getter that finds
    nothing in its cache hands the child to its queue, which is taken to
    run its processor on it: [_readFileHash], or [_readContextHash] on the
    child directory. *)
Fixpoint iterator (path file : string) (c : Child) (w : World) {struct c}
    : JS.result (World * cb_args (option string)) :=
  let child := join path file in
  match c with
  | StatError err => JS.Return (w, CbErr err)
  | IsFile reply =>
      match getFileHash child (this w) with
      | Called args => JS.Return (w, args)
      | Queued _ => JS.Return (_readFileHash child reply w)
      end
  | IsDirectory reply children =>
      r ← match getContextHash child (this w) with
          | Called args => JS.Return (w, args)
          | Queued _ =>
              readdir_callback (fun file' => iterator child file' (children file'))
                child reply w
          end;
      JS.Return
        (r.1,
         match r.2 with
         | CbErr err => CbErr err
         | CbOk hash => CbOk (Some (default ""%string hash))
         end)
  | IsOther => JS.Return (w, CbOk (Some ""%string))
  end.

(** [_readContextHash]: [reply] is what [fs.readdir] calls back with and
    [children] what the file system holds at each name of the directory. A
    result that is [JS.Throw] is an exception that leaves the callback
    uncalled. *)
Definition _readContextHash (path : string) (reply : cb_args (list string))
    (children : string -> Child) (w : World)
    : JS.result (World * cb_args (option string)) :=
  readdir_callback (fun file => iterator path file (children file)) path reply w.

End Hashing.

(** *** The caches *)

(** [addContextTimestamps] *)
Definition addContextTimestamps (map : gmap string (option FileSystemInfoEntry))
    (this : FileSystemInfo) : FileSystemInfo :=
  {| _fileTimestamps := _fileTimestamps this;
     _fileHashes := _fileHashes this;
     _contextTimestamps :=
       map_fold (fun path ts cache => <[path := ts]> cache) (_contextTimestamps this)
         map;
     _contextHashes := _contextHashes this;
     _managedItems := _managedItems this;
     managedPaths := managedPaths this;
     managedPathsWithSlash := managedPathsWithSlash this |}.

(** The loop of [getDeprecatedFileTimestamps] and of
    [getDeprecatedContextTimestamps]: [if (info) map.set(path,
    info.safeTime)]. *)
Definition deprecated (cache : gmap string (option FileSystemInfoEntry))
    : gmap string JS.number :=
  map_fold
    (fun path info map =>
       match info with
       | Some info => <[path := safeTime info]> map
       | None => map
       end)
    ∅ cache.

Definition getDeprecatedFileTimestamps (this : FileSystemInfo)
    : gmap string JS.number :=
  deprecated (_fileTimestamps this).

Definition getDeprecatedContextTimestamps (this : FileSystemInfo)
    : gmap string JS.number :=
  deprecated (_contextTimestamps this).

(** *** [_getManagedItemInfo] *)

(** What [JSON.parse] returns, as the template reads it: [null], which has
    no property, or a value whose [name] and [version] are [None] when
    falsy and else the string the template makes of them. *)
Inductive Json :=
| JNull
| JData (name version : option string).

(** The calls of the callback: [callback(err)] with the error of
    [fs.readFile], [callback(e)] with what [JSON.parse] threw, or
    [callback(null, info)]. *)
Inductive info_args :=
| ReadError (err : Error)
| ParseError
| Info (info : string).

(** [_getManagedItemInfo]. [join] of lib/util/fs.js, the file system and
    [JSON.parse] are arguments: [readFile] is what [fs.readFile] calls back
    with for a path, and [JSON_parse] is [None] where [JSON.parse] throws.
    Reading a property of [null] throws outside the [try]. *)
Definition _getManagedItemInfo (join : string -> string -> string)
    (readFile : string -> cb_args string) (JSON_parse : string -> option Json)
    (path : string) : JS.result info_args :=
  let packageJsonPath := join path "package.json"%string in
  match readFile packageJsonPath with
  | CbErr err => JS.Return (ReadError err)
  | CbOk content =>
      match JSON_parse content with
      | None => JS.Return ParseError
      | Some JNull => JS.Throw (JS.TypeError "Cannot read property 'name' of null")
      | Some (JData name version) =>
          JS.Return (Info (default "" name ++ "@" ++ default "" version)%string)
      end
  end.

(** The string has an [@] in it. *)
Fixpoint has_at (s : string) : bool :=
  match s with
  | EmptyString => false
  | String c rest => Nat.eqb (Ascii.nat_of_ascii c) 64 || has_at rest
  end.

(** Characters that [getManagedItem] does not react to: neither a slash,
    nor a backslash, nor an [@]. *)
Definition plain_char (c : Ascii.ascii) : bool :=
  match Ascii.nat_of_ascii c with
  | 47%nat | 92%nat | 64%nat => false
  | _ => true
  end.

Fixpoint plain (s : string) : bool :=
  match s with
  | EmptyString => true
  | String c rest => plain_char c && plain rest
  end.

End FSInfo.

(* ===================================================================== *)
(** ** lib/cache/PackFileCacheStrategy.js *)
(* ===================================================================== *)

Module PackFile.

Definition MAX_INLINE_SIZE : Z := 20000.

Section Pack.

(** The cached data, any value but [undefined]. *)
Context {Data : Type}.

(** [PackEntry] as [_unpack] reads it: [data] and [size] are [undefined]
    until [deserialize] has read them. *)
Record PackEntry := {
  data : option Data;
  size : option Z
}.

(** A value of the [content] map: the data (which may be [undefined]), or
    a function that loads the entry. *)
Inductive Content :=
| Inline (data : option Data)
| Lazy (load : PackEntry).

(** The fields of [Pack] that unpacking reads or writes, and the messages
    given to [logger.log]. *)
Record Pack := mkPack {
  version : string;
  etags : gmap string string;
  content : gmap string Content;
  buildSnapshot : option FSInfo.Snapshot;
  lastSizes : gmap string (option Z);
  unserializable : gset string;
  used : gset string;
  invalid : bool;
  logged : list string
}.

(** [new Pack(version, logger)] *)
Definition new_Pack (version : string) : Pack :=
  mkPack version ∅ ∅ None ∅ ∅ ∅ false [].

(** [a > b] and [a <= b] where [a] may be [undefined]. *)
Definition gt_num (a : option Z) (b : Z) : bool :=
  match a with Some a => b <? a | None => false end.

Definition le_num (a : option Z) (b : Z) : bool :=
  match a with Some a => a <=? b | None => false end.

(** [_unpack]: the pack afterwards and the value returned. *)
Definition _unpack (identifier : string) (entry : PackEntry)
    (currentlyInline : bool) (p : Pack) : Pack * option Data :=
  match data entry with
  | None =>
      (mkPack (version p) (etags p) (content p) (buildSnapshot p)
         (delete identifier (lastSizes p))
         ({[identifier]} ∪ unserializable p) (used p) (invalid p) (logged p),
       None)
  | Some d =>
      let p :=
        mkPack (version p) (etags p) (content p) (buildSnapshot p)
          (<[identifier := size entry]> (lastSizes p))
          (unserializable p) (used p) (invalid p) (logged p) in
      let p :=
        if currentlyInline then
          if gt_num (size entry) MAX_INLINE_SIZE then
            mkPack (version p) (etags p) (content p) (buildSnapshot p)
              (lastSizes p) (unserializable p) (used p) true
              (logged p ++
                 [("Moved " ++ identifier ++
                   " from inline to lazy section for better performance.")%string])
          else p
        else
          if le_num (size entry) MAX_INLINE_SIZE then
            mkPack (version p) (etags p)
              (<[identifier := Inline (Some d)]> (content p)) (buildSnapshot p)
              (lastSizes p) (unserializable p) (used p) true
              (logged p ++
                 [("Moved " ++ identifier ++
                   " from lazy to inline section for better performance.")%string])
          else p in
      (p, Some d)
  end.

(** What [read()] returns for an entry of the content section: a function
    (a lazy entry) or a [PackEntry]. *)
Inductive Stored :=
| StoredLazy (load : PackEntry)
| StoredInline (entry : PackEntry).

(** One turn of the loop of [deserialize]. *)
Definition deserialize_entry (p : Pack) (item : string * Stored) : Pack :=
  match item.2 with
  | StoredLazy load =>
      mkPack (version p) (etags p) (<[item.1 := Lazy load]> (content p))
        (buildSnapshot p) (lastSizes p) (unserializable p) (used p) (invalid p)
        (logged p)
  | StoredInline entry =>
      let '(p, d) := _unpack item.1 entry true p in
      mkPack (version p) (etags p) (<[item.1 := Inline d]> (content p))
        (buildSnapshot p) (lastSizes p) (unserializable p) (used p) (invalid p)
        (logged p)
  end.

(** [deserialize] on a pack as the constructor left it: the values read
    before the content section, then the entries up to the [null]
    identifier. *)
Definition deserialize (version : string) (etags : gmap string string)
    (unserializable : gset string) (buildSnapshot : option FSInfo.Snapshot)
    (entries : list (string * Stored)) : Pack :=
  foldl deserialize_entry
    (mkPack version etags ∅ buildSnapshot ∅ unserializable ∅ false [])
    entries.

(** [get]: the pack afterwards and the value returned (the value the
    promise resolves to, for a lazy entry). *)
Definition get (identifier etag : string) (p : Pack) : Pack * option Data :=
  match etags p !! identifier with
  | None => (p, None)
  | Some etagInCache =>
      if negb (String.eqb etagInCache etag) then (p, None)
      else
        let p :=
          mkPack (version p) (etags p) (content p) (buildSnapshot p)
            (lastSizes p) (unserializable p) ({[identifier]} ∪ used p)
            (invalid p) (logged p) in
        match content p !! identifier with
        | Some (Lazy load) => _unpack identifier load false p
        | Some (Inline d) => (p, d)
        | None => (p, None)
        end
  end.

(** [set]. The value returned, the content map itself, is left out: no
    caller reads it. *)
Definition set (identifier etag : string) (d : option Data) (p : Pack) : Pack :=
  if bool_decide (identifier ∈ unserializable p) then p
  else
    mkPack (version p) (<[identifier := etag]> (etags p))
      (<[identifier := Inline d]> (content p)) (buildSnapshot p) (lastSizes p)
      (unserializable p) ({[identifier]} ∪ used p) true (logged p).

(** The pack with its [lastAccess] map, which the functions above neither
    read nor change. *)
Record Accessed := mkAccessed {
  pack : Pack;
  lastAccess : gmap string Z
}.

(** [_updateLastAccess]; [now] is what [Date.now()] returns. *)
Definition _updateLastAccess (now : Z) (a : Accessed) : Accessed :=
  let p := pack a in
  mkAccessed
    (mkPack (version p) (etags p) (content p) (buildSnapshot p) (lastSizes p)
       (unserializable p) ∅ (invalid p) (logged p))
    (set_fold (fun identifier lastAccess => <[identifier := now]> lastAccess)
       (lastAccess a) (used p)).

(** One turn of the loop of [collectGarbage]. *)
Definition collect (maxAge now : Z) (identifier : string) (lastAccess' : Z)
    (a : Accessed) : Accessed :=
  if maxAge <? now - lastAccess' then
    let p := pack a in
    mkAccessed
      (mkPack (version p) (delete identifier (etags p))
         (delete identifier (content p)) (buildSnapshot p) (lastSizes p)
         (unserializable p) (used p) (invalid p) (logged p))
      (delete identifier (lastAccess a))
  else a.

(** [collectGarbage]; [now1] and [now2] are what the two calls of
    [Date.now()] return, the first one in [_updateLastAccess]. *)
Definition collectGarbage (maxAge now1 now2 : Z) (a : Accessed) : Accessed :=
  let a := _updateLastAccess now1 a in
  map_fold (collect maxAge now2) a (lastAccess a).

(** The time [collectGarbage] compares with [maxAge]: the last access of
    an identifier once [_updateLastAccess] has run. *)
Definition last_access (now1 : Z) (a : Accessed) (identifier : string) : option Z :=
  if bool_decide (identifier ∈ used (pack a)) then Some now1
  else lastAccess a !! identifier.

(** The three maps have no entry for [identifier]. *)
Definition removed (a : Accessed) (identifier : string) : Prop :=
  etags (pack a) !! identifier = None
  /\ content (pack a) !! identifier = None
  /\ lastAccess a !! identifier = None.

(** The three maps have for [identifier] what they have in [a0]. *)
Definition kept (a0 a : Accessed) (identifier : string) : Prop :=
  etags (pack a) !! identifier = etags (pack a0) !! identifier
  /\ content (pack a) !! identifier = content (pack a0) !! identifier
  /\ lastAccess a !! identifier = lastAccess a0 !! identifier.

(** What [deserialize] puts in the content map for a stored entry. *)
Definition content_of (stored : Stored) : Content :=
  match stored with
  | StoredLazy load => Lazy load
  | StoredInline entry => Inline (data entry)
  end.

(** *** [PackFileCacheStrategy] *)

(** What the file serializer resolves to: something that is no [Pack], or
    a pack. *)
Inductive Deserialized :=
| NotAPack
| APack (cacheEntry : Pack).

(** The pack [packPromise] resolves to, [None] while it is pending.
    [restored] is how [fileSerializer.deserialize] settles, and [done] the
    reads that have answered the check of the build snapshot. A rejection
    inside the chain ends in [.catch], which gives a new pack. The calls of
    the logger are left out. *)
Definition packPromise (fileSystemInfo : FSInfo.FileSystemInfo) (version' : string)
    (restored : cb_args (option Deserialized))
    (done : list FSInfo.CheckSnapshotValid.completion) : option Pack :=
  match restored with
  | CbErr _ => Some (new_Pack version')
  | CbOk None => Some (new_Pack version')
  | CbOk (Some NotAPack) => Some (new_Pack version')
  | CbOk (Some (APack cacheEntry)) =>
      if negb (String.eqb (version cacheEntry) version') then Some (new_Pack version')
      else
        match buildSnapshot cacheEntry with
        | None => Some cacheEntry
        | Some snapshot =>
            match
              FSInfo.CheckSnapshotValid.called
                (FSInfo.CheckSnapshotValid.run fileSystemInfo snapshot done)
            with
            | [] => None
            | CbErr _ :: _ => Some (new_Pack version')
            | CbOk valid :: _ =>
                if valid then Some cacheEntry else Some (new_Pack version')
            end
        end
  end.

(** The last step of [storeBuildDependencies], run on the pack with the
    snapshot of the dependencies: [if (pack.buildSnapshot)
    pack.buildSnapshot = mergeSnapshots(pack.buildSnapshot, snapshot); else
    pack.buildSnapshot = snapshot]. *)
Definition storeBuildDependencies_merge (snapshot : FSInfo.Snapshot) (p : Pack)
    : JS.result Pack :=
  match buildSnapshot p with
  | Some old =>
      merged ← FSInfo.mergeSnapshots old snapshot;
      JS.Return
        (mkPack (version p) (etags p) (content p) (Some merged) (lastSizes p)
           (unserializable p) (used p) (invalid p) (logged p))
  | None =>
      JS.Return
        (mkPack (version p) (etags p) (content p) (Some snapshot) (lastSizes p)
           (unserializable p) (used p) (invalid p) (logged p))
  end.

(** [afterAllStored] up to the call of the serializer: a pack that is not
    [invalid] is left alone, otherwise the garbage older than two days is
    collected. *)
Definition afterAllStored (now1 now2 : Z) (a : Accessed) : Accessed :=
  if negb (invalid (pack a)) then a
  else collectGarbage (1000 * 60 * 60 * 24 * 2) now1 now2 a.

End Pack.

Arguments PackEntry : clear implicits.
Arguments Content : clear implicits.
Arguments Pack : clear implicits.
Arguments Stored : clear implicits.
Arguments Accessed : clear implicits.
Arguments Deserialized : clear implicits.

(** The call [storeBuildDependencies] makes once the dependencies are
    resolved into [files], [directories] and [missing]:
    [createSnapshot(undefined, files, directories, missing, { hash: true },
    ...)]. *)
Definition storeBuildDependencies_snapshot (fileSystemInfo : FSInfo.FileSystemInfo)
    (files directories missing : list string)
    (done : list FSInfo.CreateSnapshot.completion) : FSInfo.CreateSnapshot.Closure :=
  FSInfo.CreateSnapshot.run fileSystemInfo None (Some files) (Some directories)
    (Some missing) (Some {| FSInfo.hash := Some true |}) done.

End PackFile.

(* ===================================================================== *)
(** ** Concrete inputs *)
(* ===================================================================== *)

Module Inputs.

(** A file read at mtime 500 with accuracy 500. *)
Definition entry_a : FSInfo.FileSystemInfoEntry :=
  {| FSInfo.safeTime := JS.Num 1000; FSInfo.timestamp := Some 500 |}.

(** [{}] *)
Definition snapshot_empty : FSInfo.Snapshot :=
  FSInfo.mkSnapshot None None None None None None None.

(** [{ fileTimestamps: Map { "/a" => entry_a } }] *)
Definition snapshot_timestamps : FSInfo.Snapshot :=
  FSInfo.mkSnapshot None (Some {["/a" := FSInfo.Snap (Some entry_a)]})
    None None None None None.

(** [{ fileHashes: Map { "/a" => "0cc175b9" } }], as hash mode records a
    file. *)
Definition snapshot_hashes : FSInfo.Snapshot :=
  FSInfo.mkSnapshot None None (Some {["/a" := FSInfo.Snap (Some "0cc175b9")]})
    None None None None.

(** [{ fileHashes: Map { "/b" => "92eb5ffe" } }] *)
Definition snapshot_hashes_b : FSInfo.Snapshot :=
  FSInfo.mkSnapshot None None (Some {["/b" := FSInfo.Snap (Some "92eb5ffe")]})
    None None None None.

(** The managed fold scenario: [managedPaths = ["/node_modules"]] on a
    POSIX file system and two files of one scoped package. *)
Definition managed_info : FSInfo.FileSystemInfo :=
  FSInfo.new_FileSystemInfo FSInfo.join_posix ["/node_modules"%string].

Definition managed_files : list string :=
  ["/node_modules/@scope/pkg/lib/x.js"%string;
   "/node_modules/@scope/pkg/lib/y.js"%string].

(** An instance with empty caches and no managed paths. *)
Definition fresh_info : FSInfo.FileSystemInfo :=
  FSInfo.new_FileSystemInfo FSInfo.join_posix [].

(** The same instance after [addFileTimestamps(new Map([["/a", entry_a]]))]. *)
Definition seeded_info : FSInfo.FileSystemInfo :=
  FSInfo.addFileTimestamps {["/a" := Some entry_a]} fresh_info.

(** The snapshot of the file ["/a"] taken at 2000 with that cache. *)
Definition snapshot_at_2000 : FSInfo.Snapshot :=
  FSInfo.mkSnapshot (Some 2000) (Some {["/a" := FSInfo.Snap (Some entry_a)]})
    None None None None None.

(** The world before any read, and a file modified at 2500. *)
Definition initial_world : FSInfo.World :=
  FSInfo.mkWorld Accuracy.FS_ACCURACY_init fresh_info.

Definition stat_2500 : FSInfo.Stats :=
  {| FSInfo.mtime := 2500; FSInfo.isDirectory := false |}.

(** A read that failed with [EBUSY]. *)
Definition EBUSY : Error := {| code := "EBUSY" |}.

(** Directories of a timestamp-mode snapshot, one of them managed. *)
Definition some_directories : list string :=
  ["/src"%string; "/node_modules/pkg/lib"%string].

(** A pack entry whose data is [undefined]. *)
Definition entry_undefined : PackFile.PackEntry string :=
  {| PackFile.data := None; PackFile.size := Some 5 |}.

(** A pack entry of 50000 bytes. *)
Definition entry_large : PackFile.PackEntry string :=
  {| PackFile.data := Some "blob"%string; PackFile.size := Some 50000 |}.

End Inputs.

(* ===================================================================== *)
(** ** Invariants of the job counters *)
(* ===================================================================== *)

Module Invariants.

Import FSInfo.CheckSnapshotValid.

(** [invalid] has run: the counter is [NaN] and the one call made was
    [callback(null, false)]. *)
Definition rejected (c : Closure) : Prop :=
  jobs c = JS.NaN /\ called c = [CbOk false].

(** While the loops of [checkSnapshotValid] run: the counter is one more
    than the number of requests issued, and nothing was called. *)
Definition counting (acc : progress) : Prop :=
  rejected acc.1
  \/ (jobs acc.1 = JS.Count (1 + Z.of_nat (length acc.2)) /\ called acc.1 = []).

(** With [n] requests outstanding: the counter is [n], and
    [callback(null, true)] was called if and only if [n] is zero. *)
Definition waiting (n : nat) (c : Closure) : Prop :=
  rejected c
  \/ (jobs c = JS.Count (Z.of_nat n)
      /\ called c = match n with O => [CbOk true] | S _ => [] end).

(** Whatever calls back, and however often: nothing was called and the
    counter is positive, or one call was made. *)
Definition at_most_once (c : Closure) : Prop :=
  rejected c
  \/ (exists n, jobs c = JS.Count n /\ 1 <= n /\ called c = [])
  \/ (exists n, jobs c = JS.Count n /\ n <= 0 /\ called c = [CbOk true]).

(** As [counting], and [invalid] has not run. *)
Definition counting_valid (acc : progress) : Prop :=
  jobs acc.1 = JS.Count (1 + Z.of_nat (length acc.2)) /\ called acc.1 = [].

(** As [waiting], and [invalid] has not run. *)
Definition waiting_valid (n : nat) (c : Closure) : Prop :=
  jobs c = JS.Count (Z.of_nat n)
  /\ called c = match n with O => [CbOk true] | S _ => [] end.

End Invariants.

Module SnapshotInvariants.

Import FSInfo.CreateSnapshot.

(** While the loops of [createSnapshot] run: the counter is one more than
    the number of requests issued, and nothing was called. *)
Definition counting (acc : progress) : Prop :=
  jobs acc.1 = 1 + Z.of_nat (length acc.2) /\ called acc.1 = [].

(** With [n] requests outstanding: the counter is [n], and the callback
    was called, with the snapshot of the maps as they are, if and only if
    [n] is zero. *)
Definition waiting (startTime : option Z) (n : nat) (c : Closure) : Prop :=
  jobs c = Z.of_nat n
  /\ called c = match n with
                | O => [CbOk (snapshot_of startTime c)]
                | S _ => []
                end.

(** A setter of one of the maps: it leaves the counter, the calls made
    and [contextTimestamps] alone. *)
Definition map_setter {A} (set : string -> FSInfo.snap A -> Closure -> Closure)
    : Prop :=
  forall path v c,
    jobs (set path v c) = jobs c
    /\ called (set path v c) = called c
    /\ contextTimestamps (set path v c) = contextTimestamps c.

(** Neither file map has an entry for [path], and no read of [path] as a
    file has been requested. *)
Definition untouched (path : string) (acc : progress) : Prop :=
  fileTimestamps acc.1 !! path = None
  /\ fileHashes acc.1 !! path = None
  /\ ~ In (FileTimestamp path) acc.2
  /\ ~ In (FileHash path) acc.2.

(** Setting the map at [p] and requesting [p] does not concern [path] as a
    file. *)
Definition apart {A} (path : string)
    (set : string -> FSInfo.snap A -> Closure -> Closure)
    (req : string -> request) (p : string) : Prop :=
  (forall v c,
     fileTimestamps (set p v c) !! path = fileTimestamps c !! path
     /\ fileHashes (set p v c) !! path = fileHashes c !! path)
  /\ req p <> FileTimestamp path
  /\ req p <> FileHash path.

(** Every entry of a map of the call is the cached value of its path. *)
Definition mirrors {A} (cache : gmap string A) (m : gmap string (FSInfo.snap A))
    : Prop :=
  forall p v, m !! p = Some v -> exists c, cache !! p = Some c /\ v = FSInfo.Snap c.

(** The maps filled from the caches mirror them. *)
Definition mirrored (this : FSInfo.FileSystemInfo) (c : Closure) : Prop :=
  mirrors (FSInfo._fileTimestamps this) (fileTimestamps c)
  /\ mirrors (FSInfo._fileHashes this) (fileHashes c)
  /\ mirrors (FSInfo._contextHashes this) (contextHashes c)
  /\ mirrors (FSInfo._fileTimestamps this) (missingTimestamps c).

(** The map [k] of the call has an entry for [p]. *)
Definition present (k : FSInfo.kind) (c : Closure) (p : string) : Prop :=
  match k with
  | FSInfo.KFileTimestamps => is_Some (fileTimestamps c !! p)
  | FSInfo.KFileHashes => is_Some (fileHashes c !! p)
  | FSInfo.KContextTimestamps => is_Some (contextTimestamps c !! p)
  | FSInfo.KContextHashes => is_Some (contextHashes c !! p)
  | FSInfo.KMissingTimestamps => is_Some (missingTimestamps c !! p)
  | FSInfo.KManagedItemInfo => is_Some (managedItemInfo c !! p)
  end.

(** The request whose callback fills the map [k] at [p], if the map is
    filled by requests. *)
Definition request_for (k : FSInfo.kind) (p : string) : option request :=
  match k with
  | FSInfo.KFileTimestamps => Some (FileTimestamp p)
  | FSInfo.KFileHashes => Some (FileHash p)
  | FSInfo.KContextTimestamps => None
  | FSInfo.KContextHashes => Some (ContextHash p)
  | FSInfo.KMissingTimestamps => Some (MissingTimestamp p)
  | FSInfo.KManagedItemInfo => Some (ManagedItem p)
  end.

(** A read to fill the map [k] at [p] has been requested. *)
Definition asked (k : FSInfo.kind) (reqs : list request) (p : string) : Prop :=
  exists r, request_for k p = Some r /\ In r reqs.

(** The map [k] has, or will get, an entry for [p]. *)
Definition tracked (k : FSInfo.kind) (acc : progress) (p : string) : Prop :=
  present k acc.1 p \/ asked k acc.2 p.

(** The setter and the request of the map [k]. *)
Definition fills {A} (k : FSInfo.kind)
    (set : string -> FSInfo.snap A -> Closure -> Closure)
    (req : string -> request) : Prop :=
  (forall k' q v c p,
     present k' (set q v c) p <-> present k' c p \/ (k' = k /\ p = q))
  /\ (forall q v c, managedItems (set q v c) = managedItems c)
  /\ (forall k' q p, request_for k' p = Some (req q) <-> k' = k /\ p = q).

End SnapshotInvariants.

(* ===================================================================== *)
(** * Properties *)
(* ===================================================================== *)

(** ** The accuracy estimator *)

Section AccuracyFacts.

Import Accuracy.

Lemma rem_eqb_mod (m k : Z) : 0 < k -> (Z.rem m k =? 0) = (m mod k =? 0).
Proof.
  intros Hk.
  destruct (Z.eqb_spec (Z.rem m k) 0) as [Hr|Hr];
    destruct (Z.eqb_spec (m mod k) 0) as [Hm|Hm]; try reflexivity; exfalso.
  - apply Hm, Z.mod_divide; [lia|]. apply Z.rem_divide in Hr; [assumption|lia].
  - apply Hr, Z.rem_divide; [lia|]. apply Z.mod_divide in Hm; [assumption|lia].
Qed.

(** [applyMtime] lowers the value to the evidence of the mtime, whatever
    the value was. *)
Lemma applyMtime_tighten (a mtime : Z) :
  applyMtime a mtime = tighten a (evidence mtime).
Proof.
  unfold applyMtime, evidence, tighten.
  rewrite !rem_eqb_mod by lia.
  destruct (mtime mod 2 =? 0), (mtime mod 20 =? 0), (mtime mod 200 =? 0),
    (mtime mod 2000 =? 0); simpl;
    repeat match goal with
           | |- context [?x <? ?y] => destruct (Z.ltb_spec x y); simpl
           end; lia.
Qed.

(** A zero mtime leaves the value alone, so the guard [if (mtime)] of the
    caller changes nothing. *)
Lemma observe_applyMtime (a mtime : Z) : observe a mtime = applyMtime a mtime.
Proof.
  unfold observe. destruct (Z.eqb_spec mtime 0) as [->|]; [|reflexivity].
  rewrite applyMtime_tighten. reflexivity.
Qed.

Lemma applyMtime_stated_rule (a mtime : Z) : applyMtime a mtime = stated_rule a mtime.
Proof.
  unfold applyMtime, stated_rule. rewrite !rem_eqb_mod by lia.
  repeat match goal with
         | |- context [bool_decide ?P] => destruct (bool_decide_reflect P)
         end;
    repeat match goal with
           | |- context [?x <? ?y] => destruct (Z.ltb_spec x y)
           | |- context [?x =? ?y] => destruct (Z.eqb_spec x y)
           end; simpl; try reflexivity; lia.
Qed.

Lemma applyMtime_le (a mtime : Z) : applyMtime a mtime <= a.
Proof.
  rewrite applyMtime_tighten. unfold tighten.
  destruct (evidence mtime); lia.
Qed.

Lemma evidence_level (mtime k : Z) :
  evidence mtime = Some k -> k = 1 \/ k = 10 \/ k = 100 \/ k = 1000.
Proof.
  unfold evidence.
  repeat match goal with
         | |- context [negb ?b] => destruct b; simpl
         end; intros [= <-]; auto.
Qed.

Lemma applyMtime_level (a mtime : Z) : level a -> level (applyMtime a mtime).
Proof.
  intros Ha. rewrite applyMtime_tighten. unfold tighten.
  destruct (evidence mtime) as [k|] eqn:Hk; [|assumption].
  apply evidence_level in Hk. unfold level in *. lia.
Qed.

Lemma fold_applyMtime_level (mtimes : list Z) (a : Z) :
  level a -> level (fold_left applyMtime mtimes a).
Proof.
  revert a. induction mtimes as [|m ms IH]; intros a Ha; simpl.
  - assumption.
  - apply IH, applyMtime_level, Ha.
Qed.

Lemma fold_applyMtime_le (mtimes : list Z) (a : Z) :
  fold_left applyMtime mtimes a <= a.
Proof.
  revert a. induction mtimes as [|m ms IH]; intros a; simpl.
  - lia.
  - specialize (IH (applyMtime a m)). pose proof (applyMtime_le a m). lia.
Qed.

Lemma observe_all_applyMtime (mtimes : list Z) (a : Z) :
  observe_all a mtimes = fold_left applyMtime mtimes a.
Proof.
  unfold observe_all. revert a.
  induction mtimes as [|m ms IH]; intros a; simpl.
  - reflexivity.
  - rewrite observe_applyMtime. apply IH.
Qed.

End AccuracyFacts.

(** C5. [FS_ACCURACY] starts at 2000. After [applyMtime] has processed any
    sequence of mtimes, the value is one of 1, 10, 100, 1000 and 2000 and
    is not above the initial value; one more mtime leaves it in that set,
    does not raise it, and changes it exactly as the rule of the
    specification states, which is to lower it to the evidence of the mtime:
    1 if [mtime mod 2 <> 0], else 10 if [mtime mod 20 <> 0], else 100 if
    [mtime mod 200 <> 0], else 1000 if [mtime mod 2000 <> 0], and no
    change otherwise. The guarded reads of [_readFileTimestamp], which skip
    a zero mtime, compute the same value. *)
Theorem FS_ACCURACY_monotone_levels (mtimes : list Z) (mtime : Z) :
  let before := fold_left Accuracy.applyMtime mtimes Accuracy.FS_ACCURACY_init in
  let after := Accuracy.applyMtime before mtime in
  Accuracy.FS_ACCURACY_init = 2000
  /\ Accuracy.level before
  /\ before <= Accuracy.FS_ACCURACY_init
  /\ Accuracy.level after
  /\ after <= before
  /\ after = Accuracy.stated_rule before mtime
  /\ after = Accuracy.tighten before (Accuracy.evidence mtime)
  /\ Accuracy.observe_all Accuracy.FS_ACCURACY_init mtimes = before
  /\ Accuracy.observe before mtime = after.
Proof.
  intros before after.
  assert (Hinit : Accuracy.level Accuracy.FS_ACCURACY_init).
  { unfold Accuracy.level, Accuracy.FS_ACCURACY_init. lia. }
  assert (Hbefore : Accuracy.level before).
  { apply fold_applyMtime_level, Hinit. }
  repeat split.
  - exact Hbefore.
  - apply fold_applyMtime_le.
  - apply applyMtime_level, Hbefore.
  - apply applyMtime_le.
  - apply applyMtime_stated_rule.
  - apply applyMtime_tighten.
  - apply observe_all_applyMtime.
  - apply observe_applyMtime.
Qed.

(** ** The predicates of [checkSnapshotValid] *)

Section CheckFileFacts.

Import FSInfo FSInfo.CheckSnapshotValid.

(** The tests of [checkFile] once the snapshot's value is not ["error"] and
    the freshness test has not fired. *)
Lemma checkFile_not_fresh startTime current s :
  match current with
  | Some c => JS.gt_opt (safeTime c) startTime = false
  | None => True
  end ->
  checkFile startTime current (Snap s) =
    match current, s with
    | None, None => true
    | Some c, Some e =>
        negb (bool_decide (timestamp e <> None)
              && bool_decide (timestamp c <> timestamp e))
    | _, _ => false
    end.
Proof.
  intros Hfresh. unfold checkFile.
  destruct current as [c|]; [rewrite Hfresh|];
    destruct s as [e|]; reflexivity.
Qed.

End CheckFileFacts.

(** C1. [checkFile] judges an entry of [fileTimestamps] invalid exactly
    when the snapshot's value is ["error"], or the current entry exists and
    its [safeTime] is greater than the snapshot's [startTime], or exactly
    one of the current and the snapshot's value is [null], or both exist,
    the snapshot's [timestamp] is defined and it differs from the current
    [timestamp]; in every other case it judges it valid.
    [checkSnapshotValid] applies this predicate, with the [startTime] of
    the snapshot, to a cached current value and to the value a queued read
    calls back with. *)
Theorem checkFile_invalid_iff (this : FSInfo.FileSystemInfo)
    (snapshot : FSInfo.Snapshot)
    (current : option FSInfo.FileSystemInfoEntry)
    (snap : FSInfo.snap (option FSInfo.FileSystemInfoEntry))
    (path : string) (acc : FSInfo.CheckSnapshotValid.progress)
    (c : FSInfo.CheckSnapshotValid.Closure) :
  let startTime := FSInfo.startTime snapshot in
  let checkFile := FSInfo.CheckSnapshotValid.checkFile startTime in
  (checkFile current snap = false <->
     snap = FSInfo.SnapError
     \/ (exists cur, current = Some cur
                     /\ JS.gt_opt (FSInfo.safeTime cur) startTime = true)
     \/ (exists s, snap = FSInfo.Snap s
                   /\ ((current = None /\ s <> None)
                       \/ (current <> None /\ s = None)))
     \/ (exists cur s t, current = Some cur /\ snap = FSInfo.Snap (Some s)
                         /\ FSInfo.timestamp s = Some t
                         /\ FSInfo.timestamp cur <> Some t))
  /\ FSInfo.CheckSnapshotValid.visit (<[path := current]> (FSInfo._fileTimestamps this))
       checkFile FSInfo.CheckSnapshotValid.FileTimestamp acc (path, snap)
     = (if checkFile current snap then acc
        else (FSInfo.CheckSnapshotValid.invalid acc.1, acc.2))
  /\ FSInfo.CheckSnapshotValid.complete startTime c
       (FSInfo.CheckSnapshotValid.FileTimestampDone path snap (CbOk current))
     = (if checkFile current snap then FSInfo.CheckSnapshotValid.jobDone c
        else FSInfo.CheckSnapshotValid.invalid c).
Proof.
  intros startTime checkFile. split; [|split].
  - subst checkFile. unfold FSInfo.CheckSnapshotValid.checkFile.
    destruct snap as [|s].
    { split; [auto|reflexivity]. }
    destruct current as [cur|].
    + destruct (JS.gt_opt (FSInfo.safeTime cur) startTime) eqn:Hfresh.
      { split; [|reflexivity]. intros _. right. left. eauto. }
      destruct s as [e|]; simpl.
      * destruct (FSInfo.timestamp e) as [t|] eqn:Ht.
        -- rewrite bool_decide_eq_true_2 by discriminate. simpl.
           destruct (decide (FSInfo.timestamp cur = Some t)) as [Heq|Hne].
           ++ rewrite bool_decide_eq_false_2 by (intros H; apply H, Heq).
              split; [discriminate|].
              intros [H|[(cur' & [= <-] & H)|[(s & [= <-] & [[? _]|[_ ?]])|
                (cur' & s & t' & [= <-] & [= <-] & Ht' & H)]]];
                try congruence.
           ++ rewrite bool_decide_eq_true_2 by assumption.
              split; [|reflexivity]. intros _. right. right. right.
              exists cur, e, t. auto.
        -- rewrite bool_decide_eq_false_2 by (intros H; apply H; reflexivity).
           simpl. split; [discriminate|].
           intros [H|[(cur' & [= <-] & H)|[(s & [= <-] & [[? _]|[_ ?]])|
             (cur' & s & t' & [= <-] & [= <-] & Ht' & H)]]];
             try congruence.
      * split; [|reflexivity]. intros _. right. right. left.
        exists None. split; [reflexivity|]. right. split; [discriminate|reflexivity].
    + destruct s as [e|]; simpl.
      * split; [|reflexivity]. intros _. right. right. left.
        exists (Some e). split; [reflexivity|]. left. split; [reflexivity|discriminate].
      * split; [discriminate|].
        intros [H|[(cur' & H & _)|[(s & [= <-] & [[_ ?]|[? _]])|
          (cur' & s & t' & H & _)]]]; congruence.
  - unfold FSInfo.CheckSnapshotValid.visit. simpl.
    rewrite lookup_insert_eq. destruct (checkFile current snap); reflexivity.
  - subst checkFile. simpl. unfold FSInfo.CheckSnapshotValid.compare.
    destruct (FSInfo.CheckSnapshotValid.checkFile startTime current snap);
      reflexivity.
Qed.

(** ** [mergeMaps] and [mergeSnapshots] *)

Section MergeFacts.

Import FSInfo.

Context {V : Type}.

Implicit Types a b : gmap string V.

(** The loop of [mergeMaps] builds the union in which [b] wins. *)
Lemma mergeMaps_loop a b :
  map_fold (fun key value map => <[key := value]> map) a b = b ∪ a.
Proof.
  apply (map_fold_weak_ind (fun r m => r = m ∪ a)).
  - symmetry. apply (left_id_L ∅ (∪)).
  - intros i x m r _ ->. apply insert_union_l.
Qed.

Lemma mergeMaps_both a b : mergeMaps (Some a) (Some b) = JS.Return (Some (b ∪ a)).
Proof.
  unfold mergeMaps. case_bool_decide as Hsize.
  - apply map_size_empty_iff in Hsize. subst b.
    rewrite (left_id_L ∅ (∪)). reflexivity.
  - simpl. rewrite mergeMaps_loop. reflexivity.
Qed.

Lemma mergeMaps_right b :
  mergeMaps None (Some b) = JS.Return (if bool_decide (size b = 0%nat) then None else Some b).
Proof.
  unfold mergeMaps. case_bool_decide; [reflexivity|].
  simpl. rewrite mergeMaps_loop, (right_id_L ∅ (∪)). reflexivity.
Qed.

Lemma mergeMaps_left (a : option (gmap string V)) :
  mergeMaps a None = JS.Throw (JS.TypeError "Cannot read property 'size' of undefined").
Proof. reflexivity. Qed.

End MergeFacts.

(** C3. A snapshot that has [fileTimestamps] merged with a snapshot that
    does not: at least one side has the map, and [mergeSnapshots] throws a
    [TypeError] out of [mergeMaps] in place of returning a snapshot that
    has it. With the arguments in the other order the merged snapshot has
    the map. *)
Theorem mergeSnapshots_one_sided_throws :
  FSInfo.fileTimestamps Inputs.snapshot_timestamps
    = Some {["/a" := FSInfo.Snap (Some Inputs.entry_a)]}
  /\ FSInfo.fileTimestamps Inputs.snapshot_empty = None
  /\ FSInfo.mergeSnapshots Inputs.snapshot_timestamps Inputs.snapshot_empty
     = JS.Throw (JS.TypeError "Cannot read property 'size' of undefined")
  /\ FSInfo.mergeSnapshots Inputs.snapshot_empty Inputs.snapshot_timestamps
     = JS.Return Inputs.snapshot_timestamps.
Proof.
  split; [reflexivity|]. split; [reflexivity|]. split; [reflexivity|].
  vm_compute. reflexivity.
Qed.

(** C7. Two snapshots with disjoint key sets on which [mergeSnapshots] is
    not commutative: with the snapshot that has [fileHashes] first it
    throws, with it second it returns that snapshot. *)
Theorem mergeSnapshots_order_matters :
  FSInfo.mergeSnapshots Inputs.snapshot_hashes Inputs.snapshot_empty
    = JS.Throw (JS.TypeError "Cannot read property 'size' of undefined")
  /\ FSInfo.mergeSnapshots Inputs.snapshot_empty Inputs.snapshot_hashes
     = JS.Return Inputs.snapshot_hashes.
Proof.
  split; [reflexivity|]. vm_compute. reflexivity.
Qed.

(** *** What [mergeSnapshots] does when it returns *)

Section MergeLaws.

Import FSInfo.

Lemma mergeField_returns {V} (m1 m2 : option (gmap string V)) :
  (is_Some m1 -> is_Some m2) -> mergeField m1 m2 = JS.Return (union_field m1 m2).
Proof.
  intros H. unfold mergeField, union_field. destruct m1 as [a|], m2 as [b|].
  - rewrite bool_decide_eq_true_2 by eauto. simpl. apply mergeMaps_both.
  - destruct H as [? [=]]. eauto.
  - rewrite bool_decide_eq_false_2 by (intros [? [=]]).
    rewrite bool_decide_eq_true_2 by eauto. simpl. apply mergeMaps_right.
  - rewrite !bool_decide_eq_false_2 by (intros [? [=]]). reflexivity.
Qed.

Lemma mergeField_inv {V} (m1 m2 r : option (gmap string V)) :
  mergeField m1 m2 = JS.Return r ->
  r = union_field m1 m2 /\ (is_Some m1 -> is_Some m2).
Proof.
  destruct m2 as [b|].
  - intros H. rewrite mergeField_returns in H by eauto.
    injection H as <-. split; [reflexivity|eauto].
  - destruct m1 as [a|]; unfold mergeField.
    + rewrite bool_decide_eq_true_2 by eauto. simpl. discriminate.
    + rewrite !bool_decide_eq_false_2 by (intros [? [=]]). simpl.
      intros [= <-]. split; [reflexivity|auto].
Qed.

Lemma mergeSnapshots_returns a b :
  has_maps_of a b ->
  mergeSnapshots a b
  = JS.Return
      (mkSnapshot (mergeStartTime (startTime a) (startTime b))
         (union_field (fileTimestamps a) (fileTimestamps b))
         (union_field (fileHashes a) (fileHashes b))
         (union_field (contextTimestamps a) (contextTimestamps b))
         (union_field (contextHashes a) (contextHashes b))
         (union_field (missingTimestamps a) (missingTimestamps b))
         (union_field (managedItemInfo a) (managedItemInfo b))).
Proof.
  intros (H1 & H2 & H3 & H4 & H5 & H6). unfold mergeSnapshots.
  rewrite !mergeField_returns by assumption. reflexivity.
Qed.

Lemma mergeSnapshots_inv a b x :
  mergeSnapshots a b = JS.Return x ->
  has_maps_of a b
  /\ x = mkSnapshot (mergeStartTime (startTime a) (startTime b))
           (union_field (fileTimestamps a) (fileTimestamps b))
           (union_field (fileHashes a) (fileHashes b))
           (union_field (contextTimestamps a) (contextTimestamps b))
           (union_field (contextHashes a) (contextHashes b))
           (union_field (missingTimestamps a) (missingTimestamps b))
           (union_field (managedItemInfo a) (managedItemInfo b)).
Proof.
  unfold mergeSnapshots. intros H.
  destruct (mergeField (fileTimestamps a) _) as [r1|] eqn:E1; [|discriminate].
  destruct (mergeField (fileHashes a) _) as [r2|] eqn:E2; [|discriminate].
  destruct (mergeField (contextTimestamps a) _) as [r3|] eqn:E3; [|discriminate].
  destruct (mergeField (contextHashes a) _) as [r4|] eqn:E4; [|discriminate].
  destruct (mergeField (missingTimestamps a) _) as [r5|] eqn:E5; [|discriminate].
  destruct (mergeField (managedItemInfo a) _) as [r6|] eqn:E6; [|discriminate].
  simpl in H. injection H as <-.
  apply mergeField_inv in E1 as [-> ?], E2 as [-> ?], E3 as [-> ?],
    E4 as [-> ?], E5 as [-> ?], E6 as [-> ?].
  split; [repeat split; assumption|reflexivity].
Qed.

Lemma union_field_idemp {V} (m : option (gmap string V)) : union_field m m = m.
Proof.
  destruct m as [a|]; simpl; [|reflexivity]. f_equal. apply (idemp_L (∪)).
Qed.

Lemma union_field_comm {V} (m1 m2 : option (gmap string V)) :
  (is_Some m1 <-> is_Some m2) -> disjoint_field m1 m2 ->
  union_field m1 m2 = union_field m2 m1.
Proof.
  intros [H12 H21] Hdisj. destruct m1 as [a|], m2 as [b|]; simpl.
  - f_equal. apply map_union_comm. symmetry. apply Hdisj; reflexivity.
  - destruct H12 as [? [=]]. eauto.
  - destruct H21 as [? [=]]. eauto.
  - reflexivity.
Qed.

Lemma mergeStartTime_idemp t : t <> Some 0 -> mergeStartTime t t = t.
Proof.
  intros Ht. unfold mergeStartTime. destruct t as [z|]; simpl; [|reflexivity].
  destruct (Z.eqb_spec z 0) as [->|]; simpl; [congruence|].
  rewrite Z.min_id. reflexivity.
Qed.

Lemma mergeStartTime_comm t1 t2 : mergeStartTime t1 t2 = mergeStartTime t2 t1.
Proof.
  unfold mergeStartTime.
  destruct t1 as [z1|], t2 as [z2|]; simpl; try reflexivity;
    repeat match goal with
           | |- context [?z =? 0] => destruct (Z.eqb_spec z 0); simpl
           end; try reflexivity.
  rewrite Z.min_comm. reflexivity.
Qed.

End MergeLaws.

(** When the second snapshot has every map the first one has,
    [mergeSnapshots] returns, and each map of the merged snapshot is the
    union of the two sides' maps in which the second side's value wins. *)
Theorem mergeSnapshots_union (snapshot1 snapshot2 : FSInfo.Snapshot) :
  FSInfo.has_maps_of snapshot1 snapshot2 ->
  exists merged,
    FSInfo.mergeSnapshots snapshot1 snapshot2 = JS.Return merged
    /\ FSInfo.fileTimestamps merged
       = FSInfo.union_field (FSInfo.fileTimestamps snapshot1)
           (FSInfo.fileTimestamps snapshot2)
    /\ FSInfo.fileHashes merged
       = FSInfo.union_field (FSInfo.fileHashes snapshot1)
           (FSInfo.fileHashes snapshot2)
    /\ FSInfo.contextTimestamps merged
       = FSInfo.union_field (FSInfo.contextTimestamps snapshot1)
           (FSInfo.contextTimestamps snapshot2)
    /\ FSInfo.contextHashes merged
       = FSInfo.union_field (FSInfo.contextHashes snapshot1)
           (FSInfo.contextHashes snapshot2)
    /\ FSInfo.missingTimestamps merged
       = FSInfo.union_field (FSInfo.missingTimestamps snapshot1)
           (FSInfo.missingTimestamps snapshot2)
    /\ FSInfo.managedItemInfo merged
       = FSInfo.union_field (FSInfo.managedItemInfo snapshot1)
           (FSInfo.managedItemInfo snapshot2).
Proof.
  intros H. eexists. split; [apply mergeSnapshots_returns, H|].
  repeat split.
Qed.

Lemma mergeSnapshots_union_witness :
  exists merged,
    FSInfo.mergeSnapshots Inputs.snapshot_hashes Inputs.snapshot_hashes_b
    = JS.Return merged
    /\ FSInfo.fileHashes merged
       = Some ({["/b" := FSInfo.Snap (Some "92eb5ffe"%string)]}
               ∪ {["/a" := FSInfo.Snap (Some "0cc175b9"%string)]}).
Proof.
  destruct (mergeSnapshots_union Inputs.snapshot_hashes Inputs.snapshot_hashes_b)
    as (merged & Hm & _ & Hh & _).
  - unfold FSInfo.has_maps_of. simpl. repeat split; eauto.
  - exists merged. split; [exact Hm|exact Hh].
Defined.

(** [mergeSnapshots(s, s)] returns a snapshot equal to [s], for a snapshot
    whose [startTime] is not [0] (as [createSnapshot] and [mergeSnapshots]
    make them). *)
Theorem mergeSnapshots_idempotent (s : FSInfo.Snapshot) :
  FSInfo.startTime s <> Some 0 ->
  FSInfo.mergeSnapshots s s = JS.Return s.
Proof.
  intros Hs. rewrite mergeSnapshots_returns by (repeat split; auto).
  rewrite !union_field_idemp, mergeStartTime_idemp by exact Hs.
  destruct s. reflexivity.
Qed.

Lemma mergeSnapshots_idempotent_witness :
  FSInfo.mergeSnapshots Inputs.snapshot_timestamps Inputs.snapshot_timestamps
  = JS.Return Inputs.snapshot_timestamps.
Proof.
  apply (mergeSnapshots_idempotent Inputs.snapshot_timestamps). simpl. discriminate.
Defined.

(** When [mergeSnapshots] returns for both orders of two snapshots with
    disjoint key sets, the two merged snapshots are equal. *)
Theorem mergeSnapshots_commutes_when_it_returns
    (snapshot1 snapshot2 merged12 merged21 : FSInfo.Snapshot) :
  FSInfo.disjoint_keys snapshot1 snapshot2 ->
  FSInfo.mergeSnapshots snapshot1 snapshot2 = JS.Return merged12 ->
  FSInfo.mergeSnapshots snapshot2 snapshot1 = JS.Return merged21 ->
  merged12 = merged21.
Proof.
  intros (D1 & D2 & D3 & D4 & D5 & D6) H12 H21.
  apply mergeSnapshots_inv in H12 as [(A1 & A2 & A3 & A4 & A5 & A6) ->].
  apply mergeSnapshots_inv in H21 as [(B1 & B2 & B3 & B4 & B5 & B6) ->].
  rewrite (mergeStartTime_comm (FSInfo.startTime snapshot1)).
  f_equal; apply union_field_comm; try split; assumption.
Qed.

Lemma mergeSnapshots_commutes_when_it_returns_witness :
  exists merged,
    FSInfo.mergeSnapshots Inputs.snapshot_hashes Inputs.snapshot_hashes_b
    = JS.Return merged
    /\ FSInfo.mergeSnapshots Inputs.snapshot_hashes_b Inputs.snapshot_hashes
       = JS.Return merged.
Proof.
  assert (Hab : FSInfo.has_maps_of Inputs.snapshot_hashes Inputs.snapshot_hashes_b)
    by (repeat split; simpl; eauto).
  assert (Hba : FSInfo.has_maps_of Inputs.snapshot_hashes_b Inputs.snapshot_hashes)
    by (repeat split; simpl; eauto).
  assert (H12 := mergeSnapshots_returns _ _ Hab).
  assert (H21 := mergeSnapshots_returns _ _ Hba).
  eexists. split; [exact H12|].
  rewrite H21. apply (f_equal JS.Return). symmetry.
  apply (mergeSnapshots_commutes_when_it_returns
           Inputs.snapshot_hashes Inputs.snapshot_hashes_b _ _);
    [|exact H12|exact H21].
  unfold FSInfo.disjoint_keys, FSInfo.disjoint_field. simpl.
  repeat split; intros a b [= <-] [= <-].
  apply map_disjoint_singleton_l_2. apply lookup_singleton_ne. discriminate.
Defined.

(** The [startTime] of a merged snapshot: the minimum when both sides have
    a non-zero one, the one of the side that has a non-zero one when only one
    does, and none otherwise. *)
Theorem mergeSnapshots_startTime (snapshot1 snapshot2 merged : FSInfo.Snapshot) :
  FSInfo.mergeSnapshots snapshot1 snapshot2 = JS.Return merged ->
  FSInfo.startTime merged
  = match FSInfo.startTime snapshot1, FSInfo.startTime snapshot2 with
    | Some t1, Some t2 =>
        if negb (t1 =? 0) && negb (t2 =? 0) then Some (Z.min t1 t2)
        else if negb (t2 =? 0) then Some t2
        else if negb (t1 =? 0) then Some t1
        else None
    | None, Some t2 => if negb (t2 =? 0) then Some t2 else None
    | Some t1, None => if negb (t1 =? 0) then Some t1 else None
    | None, None => None
    end.
Proof.
  intros H. apply mergeSnapshots_inv in H as [_ ->]. simpl.
  unfold FSInfo.mergeStartTime.
  destruct (FSInfo.startTime snapshot1) as [t1|],
    (FSInfo.startTime snapshot2) as [t2|]; simpl; try reflexivity.
  destruct (t1 =? 0); reflexivity.
Qed.

Lemma mergeSnapshots_startTime_witness :
  FSInfo.startTime (FSInfo.mkSnapshot (Some 2000) None None None None None None)
  = Some (Z.min 3000 2000).
Proof.
  rewrite (mergeSnapshots_startTime
             (FSInfo.mkSnapshot (Some 3000) None None None None None None)
             (FSInfo.mkSnapshot (Some 2000) None None None None None None)
             (FSInfo.mkSnapshot (Some 2000) None None None None None None)
             eq_refl).
  reflexivity.
Defined.

(** ** Managed items *)

(** C2. On [managedPaths = ["/node_modules"]] and the files
    [/node_modules/@scope/pkg/lib/x.js] and
    [/node_modules/@scope/pkg/lib/y.js], [getManagedItem] stops at the
    separator after [lib]: [createSnapshot] asks the managed item queue for
    the one item [/node_modules/@scope/pkg/lib], and the snapshot it calls
    back with has no [fileTimestamps], no [fileHashes] and a
    [managedItemInfo] whose only key is [/node_modules/@scope/pkg/lib], not
    the package directory [/node_modules/@scope/pkg]. *)
Theorem createSnapshot_managed_item_one_level_deep (r : cb_args string) :
  let item := "/node_modules/@scope/pkg/lib"%string in
  let run hash :=
    FSInfo.CreateSnapshot.run Inputs.managed_info (Some 2000)
      (Some Inputs.managed_files) None None (Some {| FSInfo.hash := hash |})
      [FSInfo.CreateSnapshot.ManagedItemDone item r] in
  FSInfo.managedPathsWithSlash Inputs.managed_info = ["/node_modules/"%string]
  /\ List.map (FSInfo.getManagedItem "/node_modules/") Inputs.managed_files
     = [item; item]
  /\ (forall hash,
        (FSInfo.CreateSnapshot.createSnapshot Inputs.managed_info (Some 2000)
           (Some Inputs.managed_files) None None
           (Some {| FSInfo.hash := hash |})).2
        = [FSInfo.CreateSnapshot.ManagedItem item])
  /\ (forall hash,
        exists info,
          FSInfo.CreateSnapshot.called (run hash)
          = [CbOk (FSInfo.mkSnapshot (Some 2000) None None None None None
                     (Some {[item := info]}))]
          /\ ({[item := info]} : gmap string (FSInfo.snap string))
               !! "/node_modules/@scope/pkg"%string = None).
Proof.
  intros item run.
  split; [reflexivity|]. split; [reflexivity|]. split.
  - intros [[|]|]; vm_compute; reflexivity.
  - intros hash.
    exists (match r with CbErr _ => FSInfo.SnapError | CbOk i => FSInfo.Snap i end).
    split; [|reflexivity].
    destruct hash as [[|]|], r as [err|i]; vm_compute; reflexivity.
Qed.

(** ** [checkSnapshotValid] *)

Section ValidationFacts.

Import FSInfo FSInfo.CheckSnapshotValid Invariants.

Lemma invalid_NaN c : jobs c = JS.NaN -> invalid c = c.
Proof. intros H. unfold invalid. rewrite H. reflexivity. Qed.

Lemma jobDone_NaN c : jobs c = JS.NaN -> jobDone c = c.
Proof. destruct c as [j l]. simpl. intros ->. reflexivity. Qed.

Lemma complete_NaN startTime c d : jobs c = JS.NaN -> complete startTime c d = c.
Proof.
  intros H. destruct d as [? ? r|? ? r|? ? r|? ? r]; simpl; unfold compare;
    destruct r; try match goal with |- context [negb ?b] => destruct b end;
    simpl; auto using invalid_NaN, jobDone_NaN.
Qed.

Lemma foldl_complete_NaN startTime done c :
  jobs c = JS.NaN -> foldl (complete startTime) c done = c.
Proof.
  revert c. induction done as [|d done IH]; intros c H; simpl; [reflexivity|].
  rewrite complete_NaN by assumption. apply IH, H.
Qed.

Lemma invalid_rejected c :
  rejected c \/ (exists n, jobs c = JS.Count n /\ 1 <= n /\ called c = []) ->
  rejected (invalid c).
Proof.
  intros [[Hj Hc]|(n & Hj & Hn & Hc)].
  - rewrite invalid_NaN by assumption. split; assumption.
  - unfold invalid. rewrite Hj. simpl.
    destruct (Z.ltb_spec 0 n); [|lia]. rewrite Hc. split; reflexivity.
Qed.

Section Loop.

Context {C S : Type} (cache : gmap string C) (check : C -> S -> bool)
  (req : string -> S -> request).

Lemma visit_counting acc entry :
  counting acc -> counting (visit cache check req acc entry).
Proof.
  intros Hacc. unfold visit.
  destruct (cache !! entry.1) as [cached|].
  - destruct (negb (check cached entry.2)); [|assumption].
    left. apply invalid_rejected.
    destruct Hacc as [H|[Hj Hc]]; [left; exact H|right].
    exists (1 + Z.of_nat (length acc.2)). split; [exact Hj|]. split; [lia|exact Hc].
  - destruct Hacc as [[Hj Hc]|[Hj Hc]].
    + left. split; simpl; [rewrite Hj; reflexivity|exact Hc].
    + right. simpl. rewrite Hj. simpl. split; [|exact Hc].
      rewrite length_app. simpl. f_equal. lia.
Qed.

Lemma each_counting map acc :
  counting acc -> counting (each map cache check req acc).
Proof.
  unfold each. destruct map as [m|]; [|auto].
  generalize (map_to_list m). intros l. revert acc.
  induction l as [|e l IH]; intros acc Hacc; simpl; [assumption|].
  apply IH, visit_counting, Hacc.
Qed.

Lemma visit_rejected acc entry :
  rejected acc.1 -> (visit cache check req acc entry).1 = acc.1.
Proof.
  intros [Hj Hc]. unfold visit.
  destruct (cache !! entry.1) as [cached|].
  - destruct (negb (check cached entry.2)); [|reflexivity].
    simpl. apply invalid_NaN, Hj.
  - simpl. rewrite Hj. simpl. rewrite <- Hj. destruct acc.1; reflexivity.
Qed.

Lemma each_rejected map acc :
  rejected acc.1 -> (each map cache check req acc).1 = acc.1.
Proof.
  unfold each. destruct map as [m|]; [|auto].
  generalize (map_to_list m). intros l. revert acc.
  induction l as [|e l IH]; intros acc Hacc; simpl; [reflexivity|].
  rewrite IH; rewrite visit_rejected by assumption; [reflexivity|assumption].
Qed.

End Loop.

Lemma jobDone_counting acc :
  counting acc -> waiting (length acc.2) (jobDone acc.1).
Proof.
  intros [[Hj Hc]|[Hj Hc]].
  - left. rewrite jobDone_NaN by assumption. split; assumption.
  - right. unfold jobDone. rewrite Hj. simpl.
    replace (1 + Z.of_nat (length acc.2) - 1) with (Z.of_nat (length acc.2)) by lia.
    destruct (length acc.2) as [|n]; simpl; rewrite Hc; split; reflexivity.
Qed.

(** After the synchronous part the counter is the number of requests. *)
Lemma checkSnapshotValid_waiting this snapshot :
  waiting (length (checkSnapshotValid this snapshot).2)
          (checkSnapshotValid this snapshot).1.
Proof.
  unfold checkSnapshotValid.
  set (acc0 := (mkClosure (JS.Count 1) [], [])).
  assert (H0 : counting acc0) by (right; split; reflexivity).
  set (acc1 := each (fileTimestamps snapshot) _ _ _ acc0).
  assert (H1 : counting acc1) by apply each_counting, H0.
  set (acc2 := each (fileHashes snapshot) _ _ _ acc1).
  assert (H2 : counting acc2) by apply each_counting, H1.
  set (acc3 := match contextTimestamps snapshot with
               | Some m => if bool_decide (0 < size m)%nat
                           then (invalid acc2.1, acc2.2) else acc2
               | None => acc2 end).
  assert (H3 : counting acc3).
  { subst acc3. destruct (contextTimestamps snapshot) as [m|]; [|exact H2].
    case_bool_decide as Hsz; [|exact H2]. left. apply invalid_rejected.
    destruct H2 as [Hr|[Hj Hc]]; [left; exact Hr|right].
    exists (1 + Z.of_nat (length acc2.2)). split; [exact Hj|]. split; [lia|exact Hc]. }
  set (acc4 := each (contextHashes snapshot) _ _ _ acc3).
  assert (H4 : counting acc4) by apply each_counting, H3.
  set (acc5 := each (missingTimestamps snapshot) _ _ _ acc4).
  assert (H5 : counting acc5) by apply each_counting, H4.
  simpl. apply jobDone_counting, H5.
Qed.

Lemma compare_waiting {C V} (check : C -> V -> bool) snap r n c :
  waiting (S n) c -> waiting n (compare check snap r c).
Proof.
  intros Hc.
  assert (Hinv : rejected (invalid c)).
  { apply invalid_rejected. destruct Hc as [H|[Hj Hcalled]]; [left; exact H|right].
    exists (Z.of_nat (S n)). split; [exact Hj|]. split; [lia|exact Hcalled]. }
  unfold compare. destruct r as [err|entry]; [left; exact Hinv|].
  destruct (negb (check entry snap)); [left; exact Hinv|].
  destruct Hc as [[Hj Hcalled]|[Hj Hcalled]].
  - left. rewrite jobDone_NaN by assumption. split; assumption.
  - right. unfold jobDone. rewrite Hj. simpl.
    replace (Z.of_nat (S n) - 1) with (Z.of_nat n) by lia.
    destruct n as [|n]; simpl; rewrite Hcalled; split; reflexivity.
Qed.

Lemma complete_waiting startTime d n c :
  waiting (S n) c -> waiting n (complete startTime c d).
Proof. destruct d; simpl; apply compare_waiting. Qed.

Lemma foldl_complete_waiting startTime done n c :
  waiting (length done + n) c -> waiting n (foldl (complete startTime) c done).
Proof.
  revert c. induction done as [|d done IH]; intros c Hc; simpl in *; [exact Hc|].
  apply IH, complete_waiting, Hc.
Qed.

Lemma complete_failed startTime d n c :
  failed d = true -> waiting (S n) c -> rejected (complete startTime c d).
Proof.
  intros Hd Hc.
  assert (Hinv : rejected (invalid c)).
  { apply invalid_rejected. destruct Hc as [H|[Hj Hcalled]]; [left; exact H|right].
    exists (Z.of_nat (S n)). split; [exact Hj|]. split; [lia|exact Hcalled]. }
  destruct d as [? ? r|? ? r|? ? r|? ? r]; destruct r; try discriminate Hd;
    exact Hinv.
Qed.

Lemma waiting_at_most_once n c : waiting n c -> at_most_once c.
Proof.
  intros [H|[Hj Hc]]; [left; exact H|].
  destruct n as [|n].
  - right. right. exists 0. split; [exact Hj|]. split; [lia|exact Hc].
  - right. left. exists (Z.of_nat (S n)). split; [exact Hj|]. split; [lia|exact Hc].
Qed.

Lemma compare_at_most_once {C V} (check : C -> V -> bool) snap r c :
  at_most_once c -> at_most_once (compare check snap r c).
Proof.
  intros Hc.
  assert (Hinv : at_most_once (invalid c)).
  { destruct Hc as [H|[H|(n & Hj & Hn & Hcalled)]].
    - left. apply invalid_rejected. left. exact H.
    - left. apply invalid_rejected. right. exact H.
    - unfold invalid. rewrite Hj. simpl. destruct (Z.ltb_spec 0 n); [lia|].
      right. right. eauto. }
  unfold compare. destruct r as [err|entry]; [exact Hinv|].
  destruct (negb (check entry snap)); [exact Hinv|].
  destruct Hc as [[Hj Hcalled]|[(n & Hj & Hn & Hcalled)|(n & Hj & Hn & Hcalled)]].
  - left. rewrite jobDone_NaN by assumption. split; assumption.
  - unfold jobDone. rewrite Hj. simpl.
    destruct (Z.eqb_spec (n - 1) 0) as [H0|H0]; rewrite Hcalled; simpl.
    + right. right. exists (n - 1). split; [reflexivity|]. split; [lia|reflexivity].
    + right. left. exists (n - 1). split; [reflexivity|]. split; [lia|reflexivity].
  - unfold jobDone. rewrite Hj. simpl.
    destruct (Z.eqb_spec (n - 1) 0) as [H0|H0]; [lia|].
    right. right. exists (n - 1). split; [reflexivity|]. split; [lia|exact Hcalled].
Qed.

Lemma foldl_complete_at_most_once startTime done c :
  at_most_once c -> at_most_once (foldl (complete startTime) c done).
Proof.
  revert c. induction done as [|d done IH]; intros c Hc; simpl; [exact Hc|].
  apply IH. destruct d; simpl; apply compare_at_most_once, Hc.
Qed.

(** Whatever the queues call back with, the callback has been called at
    most once, and never with an error. *)
Lemma run_at_most_once this snapshot done :
  at_most_once (run this snapshot done).
Proof.
  unfold run. apply foldl_complete_at_most_once.
  eapply waiting_at_most_once, checkSnapshotValid_waiting.
Qed.

(** Once every request is answered the callback has been called exactly
    once. *)
Lemma run_answers this snapshot done :
  answers this snapshot done -> waiting 0 (run this snapshot done).
Proof.
  intros Hdone. unfold run. apply foldl_complete_waiting.
  assert (Hlen : length done = length (checkSnapshotValid this snapshot).2).
  { rewrite <- (Permutation_length Hdone). symmetry. apply length_map. }
  rewrite Nat.add_0_r, Hlen. apply checkSnapshotValid_waiting.
Qed.

Lemma waiting_0_called c :
  waiting 0 c -> called c = [CbOk false] \/ called c = [CbOk true].
Proof. intros [[_ H]|[_ H]]; auto. Qed.

(** A request that fails settles the call as invalid. *)
Lemma run_failed this snapshot done d :
  answers this snapshot done -> In d done -> failed d = true ->
  called (run this snapshot done) = [CbOk false].
Proof.
  intros Hdone Hin Hd.
  apply in_split in Hin as (l1 & l2 & ->).
  assert (Hlen : length (checkSnapshotValid this snapshot).2
                 = (length l1 + S (length l2))%nat).
  { rewrite <- (Permutation_length Hdone), length_map, length_app. reflexivity. }
  unfold run. rewrite foldl_app. simpl.
  pose proof (checkSnapshotValid_waiting this snapshot) as Hw.
  rewrite Hlen in Hw.
  apply (foldl_complete_waiting (startTime snapshot) l1) in Hw.
  apply (complete_failed (startTime snapshot) d) in Hw; [|exact Hd].
  destruct Hw as [Hj Hc]. rewrite foldl_complete_NaN by exact Hj. exact Hc.
Qed.

(** A snapshot with a non-empty [contextTimestamps] is rejected in the
    synchronous part. *)
Lemma checkSnapshotValid_contextTimestamps this snapshot m :
  contextTimestamps snapshot = Some m -> size m <> 0%nat ->
  rejected (checkSnapshotValid this snapshot).1.
Proof.
  intros Hm Hsize. unfold checkSnapshotValid. rewrite Hm.
  rewrite bool_decide_eq_true_2 by lia.
  set (acc2 := each (fileHashes snapshot) _ _ _ _).
  assert (H2 : counting acc2).
  { subst acc2. apply each_counting, each_counting. right. split; reflexivity. }
  assert (H3 : rejected (invalid acc2.1)).
  { apply invalid_rejected. destruct H2 as [Hr|[Hj Hc]]; [left; exact Hr|right].
    exists (1 + Z.of_nat (length acc2.2)). split; [exact Hj|]. split; [lia|exact Hc]. }
  simpl. rewrite !each_rejected; simpl; try rewrite !each_rejected; simpl;
    try exact H3.
  rewrite jobDone_NaN by apply H3. exact H3.
Qed.

Lemma run_contextTimestamps this snapshot m done :
  contextTimestamps snapshot = Some m -> size m <> 0%nat ->
  called (run this snapshot done) = [CbOk false].
Proof.
  intros Hm Hsize.
  destruct (checkSnapshotValid_contextTimestamps this snapshot m Hm Hsize)
    as [Hj Hc].
  unfold run. rewrite foldl_complete_NaN by exact Hj. exact Hc.
Qed.

End ValidationFacts.

(** *** The verdict *)

Section VerdictFacts.

Import FSInfo FSInfo.CheckSnapshotValid Invariants.

Lemma foldl_invariant_in {A B} (P : A -> Prop) (f : A -> B -> A) (l : list B) (a : A) :
  (forall a b, In b l -> P a -> P (f a b)) -> P a -> P (foldl f a l).
Proof.
  revert a. induction l as [|b l IH]; intros a Hf Ha; simpl; [exact Ha|].
  apply IH.
  - intros a' b' Hin. apply Hf. right. exact Hin.
  - apply Hf; [left; reflexivity|exact Ha].
Qed.

Section Stage.

Context {C V : Type} (cache : gmap string C) (check : C -> V -> bool)
  (req : string -> V -> request).

Lemma each_counting_valid map acc :
  holds cache check map -> counting_valid acc ->
  counting_valid (each map cache check req acc).
Proof.
  intros Hholds Hacc. unfold each. destruct map as [m|]; [|exact Hacc].
  apply foldl_invariant_in; [|exact Hacc].
  intros a [path snap] Hin [Hj Hc]. unfold visit. simpl.
  destruct (cache !! path) as [cached|] eqn:Hcache.
  - rewrite (Hholds m path snap cached); auto.
    + simpl. split; assumption.
    + apply elem_of_map_to_list, list_elem_of_In, Hin.
  - unfold counting_valid. simpl. rewrite Hj. simpl. rewrite length_app. simpl.
    split; [f_equal; lia|exact Hc].
Qed.

Lemma foldl_visit_rejected l acc :
  rejected acc.1 -> rejected (foldl (visit cache check req) acc l).1.
Proof.
  revert acc. induction l as [|e l IH]; intros acc Hacc; simpl; [exact Hacc|].
  apply IH. rewrite visit_rejected by exact Hacc. exact Hacc.
Qed.

(** A cached entry that the predicate refuses makes the loop run
    [invalid]. *)
Lemma each_refused m path snap cached acc :
  counting acc ->
  m !! path = Some snap -> cache !! path = Some cached ->
  check cached snap = false ->
  rejected (each (Some m) cache check req acc).1.
Proof.
  intros Hacc Hm Hcache Hcheck. simpl.
  assert (Hin : In (path, snap) (map_to_list m)).
  { apply list_elem_of_In, elem_of_map_to_list, Hm. }
  apply in_split in Hin as (l1 & l2 & ->).
  rewrite foldl_app. simpl. apply foldl_visit_rejected.
  assert (H1 : counting (foldl (visit cache check req) acc l1)).
  { apply foldl_invariant_in; [|exact Hacc].
    intros. apply visit_counting. assumption. }
  unfold visit at 1. simpl. rewrite Hcache, Hcheck. simpl.
  apply invalid_rejected.
  destruct H1 as [Hr|[Hj Hc]]; [left; exact Hr|right].
  eexists. split; [exact Hj|]. split; [lia|exact Hc].
Qed.

Lemma each_keeps_rejected map acc :
  rejected acc.1 -> rejected (each map cache check req acc).1.
Proof. intros H. rewrite each_rejected by exact H. exact H. Qed.

End Stage.

Lemma jobDone_keeps_rejected c : rejected c -> rejected (jobDone c).
Proof. intros H. rewrite jobDone_NaN by apply H. exact H. Qed.

Lemma invalid_keeps_rejected c : rejected c -> rejected (invalid c).
Proof. intros H. rewrite invalid_NaN by apply H. exact H. Qed.

Lemma rejected_not_true c : rejected c -> called c <> [CbOk true].
Proof. intros [_ ->]. discriminate. Qed.

(** The synchronous part accepts when the cached facts hold. *)
Lemma checkSnapshotValid_accepts this snapshot :
  cached_facts_hold this snapshot ->
  waiting_valid (length (checkSnapshotValid this snapshot).2)
                (checkSnapshotValid this snapshot).1.
Proof.
  intros (H1 & H2 & H3 & H4 & H5). unfold checkSnapshotValid.
  set (acc0 := (mkClosure (JS.Count 1) [], [])).
  assert (A0 : counting_valid acc0) by (split; reflexivity).
  set (acc1 := each (fileTimestamps snapshot) _ _ _ acc0).
  assert (A1 : counting_valid acc1) by (apply each_counting_valid; assumption).
  set (acc2 := each (fileHashes snapshot) _ _ _ acc1).
  assert (A2 : counting_valid acc2) by (apply each_counting_valid; assumption).
  set (acc3 := match contextTimestamps snapshot with
               | Some m => if bool_decide (0 < size m)%nat
                           then (invalid acc2.1, acc2.2) else acc2
               | None => acc2 end).
  assert (A3 : counting_valid acc3).
  { subst acc3. destruct (contextTimestamps snapshot) as [m|]; [|exact A2].
    rewrite bool_decide_eq_false_2; [exact A2|].
    rewrite (H3 m eq_refl). lia. }
  set (acc4 := each (contextHashes snapshot) _ _ _ acc3).
  assert (A4 : counting_valid acc4) by (apply each_counting_valid; assumption).
  set (acc5 := each (missingTimestamps snapshot) _ _ _ acc4).
  assert (A5 : counting_valid acc5) by (apply each_counting_valid; assumption).
  destruct A5 as [Hj Hc]. simpl. unfold jobDone, waiting_valid. rewrite Hj. simpl.
  replace (1 + Z.of_nat (length acc5.2) - 1) with (Z.of_nat (length acc5.2)) by lia.
  destruct (length acc5.2) as [|n]; simpl; rewrite Hc; split; reflexivity.
Qed.

(** The synchronous part rejects when a cached fact does not hold. *)
Lemma checkSnapshotValid_rejects this snapshot :
  (exists m path snap cached,
     fileTimestamps snapshot = Some m /\ m !! path = Some snap
     /\ _fileTimestamps this !! path = Some cached
     /\ checkFile (startTime snapshot) cached snap = false)
  \/ (exists m path snap cached,
        fileHashes snapshot = Some m /\ m !! path = Some snap
        /\ _fileHashes this !! path = Some cached
        /\ checkHash cached snap = false)
  \/ (exists m path snap cached,
        contextHashes snapshot = Some m /\ m !! path = Some snap
        /\ _contextHashes this !! path = Some cached
        /\ checkHash cached snap = false)
  \/ (exists m path snap cached,
        missingTimestamps snapshot = Some m /\ m !! path = Some snap
        /\ _fileTimestamps this !! path = Some cached
        /\ checkExistance cached snap = false) ->
  rejected (checkSnapshotValid this snapshot).1.
Proof.
  intros Hfail. unfold checkSnapshotValid.
  set (acc0 := (mkClosure (JS.Count 1) [], [])).
  assert (A0 : counting acc0) by (right; split; reflexivity).
  set (acc1 := each (fileTimestamps snapshot) _ _ _ acc0).
  assert (A1 : counting acc1) by apply each_counting, A0.
  set (acc2 := each (fileHashes snapshot) _ _ _ acc1).
  assert (A2 : counting acc2) by apply each_counting, A1.
  set (acc3 := match contextTimestamps snapshot with
               | Some m => if bool_decide (0 < size m)%nat
                           then (invalid acc2.1, acc2.2) else acc2
               | None => acc2 end).
  assert (A3 : counting acc3).
  { subst acc3. destruct (contextTimestamps snapshot) as [m|]; [|exact A2].
    case_bool_decide as Hsz; [|exact A2]. left. apply invalid_rejected.
    destruct A2 as [Hr|[Hj Hc]]; [left; exact Hr|right].
    eexists. split; [exact Hj|]. split; [lia|exact Hc]. }
  assert (R23 : rejected acc2.1 -> rejected acc3.1).
  { intros Hr. subst acc3. destruct (contextTimestamps snapshot) as [m|]; [|exact Hr].
    case_bool_decide; [|exact Hr]. simpl. apply invalid_keeps_rejected, Hr. }
  set (acc4 := each (contextHashes snapshot) _ _ _ acc3).
  assert (A4 : counting acc4) by apply each_counting, A3.
  set (acc5 := each (missingTimestamps snapshot) _ _ _ acc4).
  simpl. apply jobDone_keeps_rejected.
  destruct Hfail as [(m & path & snap & cached & Hm & Hp & Hc & Hf)
                    |[(m & path & snap & cached & Hm & Hp & Hc & Hf)
                    |[(m & path & snap & cached & Hm & Hp & Hc & Hf)
                    |(m & path & snap & cached & Hm & Hp & Hc & Hf)]]].
  - subst acc5 acc4. do 2 apply each_keeps_rejected. apply R23.
    subst acc2. apply each_keeps_rejected.
    subst acc1. rewrite Hm. eapply each_refused; eauto.
  - subst acc5 acc4. do 2 apply each_keeps_rejected. apply R23.
    subst acc2. rewrite Hm. eapply each_refused; eauto.
  - subst acc5. apply each_keeps_rejected.
    subst acc4. rewrite Hm. eapply each_refused; eauto.
  - subst acc5. rewrite Hm. eapply each_refused; eauto.
Qed.

Lemma compare_waiting_valid {C V} (check : C -> V -> bool) snap entry n c :
  check entry snap = true -> waiting_valid (S n) c ->
  waiting_valid n (compare check snap (CbOk entry) c).
Proof.
  intros Hcheck [Hj Hc]. unfold compare. rewrite Hcheck. simpl.
  unfold jobDone, waiting_valid. rewrite Hj. simpl.
  replace (Z.of_nat (S n) - 1) with (Z.of_nat n) by lia.
  destruct n as [|n]; simpl; rewrite Hc; split; reflexivity.
Qed.

Lemma complete_waiting_valid startTime d n c :
  passed startTime d = true -> waiting_valid (S n) c ->
  waiting_valid n (complete startTime c d).
Proof.
  destruct d as [? ? r|? ? r|? ? r|? ? r]; destruct r; simpl; try discriminate;
    apply compare_waiting_valid.
Qed.

Lemma foldl_complete_waiting_valid startTime done n c :
  Forall (fun d => passed startTime d = true) done ->
  waiting_valid (length done + n) c ->
  waiting_valid n (foldl (complete startTime) c done).
Proof.
  revert c. induction done as [|d done IH]; intros c Hall Hc; simpl in *; [exact Hc|].
  inversion Hall as [|? ? Hd Hrest]; subst.
  apply IH; [exact Hrest|]. apply complete_waiting_valid; assumption.
Qed.

Lemma complete_not_passed startTime d n c :
  passed startTime d = false -> waiting (S n) c -> rejected (complete startTime c d).
Proof.
  intros Hd Hc.
  assert (Hinv : rejected (invalid c)).
  { apply invalid_rejected. destruct Hc as [H|[Hj Hcalled]]; [left; exact H|right].
    exists (Z.of_nat (S n)). split; [exact Hj|]. split; [lia|exact Hcalled]. }
  destruct d as [? ? r|? ? r|? ? r|? ? r]; destruct r; simpl in *;
    try exact Hinv; unfold compare; rewrite Hd; exact Hinv.
Qed.

Lemma run_not_passed this snapshot done d :
  answers this snapshot done -> In d done ->
  passed (startTime snapshot) d = false ->
  called (run this snapshot done) = [CbOk false].
Proof.
  intros Hdone Hin Hd.
  apply in_split in Hin as (l1 & l2 & ->).
  assert (Hlen : length (checkSnapshotValid this snapshot).2
                 = (length l1 + S (length l2))%nat).
  { rewrite <- (Permutation_length Hdone), length_map, length_app. reflexivity. }
  unfold run. rewrite foldl_app. simpl.
  pose proof (checkSnapshotValid_waiting this snapshot) as Hw.
  rewrite Hlen in Hw.
  apply (foldl_complete_waiting (startTime snapshot) l1) in Hw.
  apply (complete_not_passed (startTime snapshot) d) in Hw; [|exact Hd].
  destruct Hw as [Hj Hc]. rewrite foldl_complete_NaN by exact Hj. exact Hc.
Qed.

End VerdictFacts.

(** The verdict of a run in which every queued read has answered. *)
Lemma run_verdict (this : FSInfo.FileSystemInfo)
    (snapshot : FSInfo.Snapshot)
    (done : list FSInfo.CheckSnapshotValid.completion) :
  FSInfo.CheckSnapshotValid.answers this snapshot done ->
  let called :=
    FSInfo.CheckSnapshotValid.called
      (FSInfo.CheckSnapshotValid.run this snapshot done) in
  (called = [CbOk true] \/ called = [CbOk false])
  /\ (called = [CbOk true] <->
      FSInfo.CheckSnapshotValid.cached_facts_hold this snapshot
      /\ Forall (fun d => FSInfo.CheckSnapshotValid.passed
                            (FSInfo.startTime snapshot) d = true) done).
Proof.
  intros Hdone called. subst called. split.
  - destruct (waiting_0_called _ (run_answers this snapshot done Hdone)); auto.
  - split.
    + intros Htrue.
      assert (Hsync : ~ Invariants.rejected
                        (FSInfo.CheckSnapshotValid.checkSnapshotValid this snapshot).1).
      { intros [Hj Hc]. unfold FSInfo.CheckSnapshotValid.run in Htrue.
        rewrite foldl_complete_NaN in Htrue by exact Hj. congruence. }
      split.
      * unfold FSInfo.CheckSnapshotValid.cached_facts_hold,
          FSInfo.CheckSnapshotValid.holds.
        repeat split.
        -- intros m path snap cached Hm Hp Hc.
           destruct (FSInfo.CheckSnapshotValid.checkFile _ cached snap) eqn:E;
             [reflexivity|exfalso].
           apply Hsync, checkSnapshotValid_rejects. left. eauto 10.
        -- intros m path snap cached Hm Hp Hc.
           destruct (FSInfo.CheckSnapshotValid.checkHash cached snap) eqn:E;
             [reflexivity|exfalso].
           apply Hsync, checkSnapshotValid_rejects. right. left. eauto 10.
        -- intros m Hm. destruct (decide (size m = 0%nat)) as [|Hne]; [assumption|].
           exfalso. eapply Hsync, checkSnapshotValid_contextTimestamps; eauto.
        -- intros m path snap cached Hm Hp Hc.
           destruct (FSInfo.CheckSnapshotValid.checkHash cached snap) eqn:E;
             [reflexivity|exfalso].
           apply Hsync, checkSnapshotValid_rejects. right. right. left. eauto 10.
        -- intros m path snap cached Hm Hp Hc.
           destruct (FSInfo.CheckSnapshotValid.checkExistance cached snap) eqn:E;
             [reflexivity|exfalso].
           apply Hsync, checkSnapshotValid_rejects. right. right. right. eauto 10.
      * apply Forall_forall. intros d Hd.
        destruct (FSInfo.CheckSnapshotValid.passed _ d) eqn:E; [reflexivity|].
        rewrite (run_not_passed this snapshot done d Hdone) in Htrue by
          (try apply list_elem_of_In; assumption).
        discriminate.
    + intros [Hsync Hall].
      pose proof (checkSnapshotValid_accepts this snapshot Hsync) as Hw.
      assert (Hlen : length (FSInfo.CheckSnapshotValid.checkSnapshotValid
                               this snapshot).2 = (length done + 0)%nat).
      { rewrite <- (Permutation_length Hdone), length_map. lia. }
      rewrite Hlen in Hw.
      apply (foldl_complete_waiting_valid (FSInfo.startTime snapshot) done 0) in Hw;
        [|exact Hall].
      destruct Hw as [_ Hc]. exact Hc.
Qed.

(** [checkSnapshotValid] calls back with [true] exactly when the cached
    facts of the snapshot hold, it has no entry in [contextTimestamps], and
    every queued read called back with a value its predicate accepts; in
    every other case it calls back with [false]. *)
Theorem checkSnapshotValid_true_iff (this : FSInfo.FileSystemInfo)
    (snapshot : FSInfo.Snapshot)
    (done : list FSInfo.CheckSnapshotValid.completion) :
  FSInfo.CheckSnapshotValid.answers this snapshot done ->
  let called :=
    FSInfo.CheckSnapshotValid.called
      (FSInfo.CheckSnapshotValid.run this snapshot done) in
  (called = [CbOk true] \/ called = [CbOk false])
  /\ (called = [CbOk true] <->
      FSInfo.CheckSnapshotValid.cached_facts_hold this snapshot
      /\ Forall (fun d => FSInfo.CheckSnapshotValid.passed
                            (FSInfo.startTime snapshot) d = true) done).
Proof. exact (run_verdict this snapshot done). Qed.

(** The file [/a] of [Inputs.snapshot_timestamps] is not cached and its
    read calls back with the entry the snapshot holds. *)
Lemma checkSnapshotValid_true_iff_witness :
  FSInfo.CheckSnapshotValid.called
    (FSInfo.CheckSnapshotValid.run Inputs.fresh_info Inputs.snapshot_timestamps
       [FSInfo.CheckSnapshotValid.FileTimestampDone "/a"
          (FSInfo.Snap (Some Inputs.entry_a)) (CbOk (Some Inputs.entry_a))])
  = [CbOk true].
Proof.
  assert (Hdone : FSInfo.CheckSnapshotValid.answers Inputs.fresh_info
                    Inputs.snapshot_timestamps
                    [FSInfo.CheckSnapshotValid.FileTimestampDone "/a"
                       (FSInfo.Snap (Some Inputs.entry_a))
                       (CbOk (Some Inputs.entry_a))]).
  { unfold FSInfo.CheckSnapshotValid.answers. vm_compute. apply Permutation_refl. }
  apply (checkSnapshotValid_true_iff _ _ _ Hdone). split.
  - repeat split; try (intros m path snap cached _ _ Hc; vm_compute in Hc;
                       discriminate).
    intros m [=].
  - repeat constructor.
Defined.

(** ** [createSnapshot] *)

Section SnapshotFacts.

Import FSInfo FSInfo.CreateSnapshot SnapshotInvariants.

Lemma foldl_invariant {A B} (P : A -> Prop) (f : A -> B -> A) (l : list B) (a : A) :
  (forall a b, P a -> P (f a b)) -> P a -> P (foldl f a l).
Proof.
  intros Hf. revert a. induction l as [|b l IH]; intros a Ha; simpl; auto.
Qed.

Lemma set_fileTimestamps_setter : map_setter set_fileTimestamps.
Proof. intros path v c. repeat split. Qed.

Lemma set_fileHashes_setter : map_setter set_fileHashes.
Proof. intros path v c. repeat split. Qed.

Lemma set_contextHashes_setter : map_setter set_contextHashes.
Proof. intros path v c. repeat split. Qed.

Lemma set_missingTimestamps_setter : map_setter set_missingTimestamps.
Proof. intros path v c. repeat split. Qed.

Lemma set_managedItemInfo_setter : map_setter set_managedItemInfo.
Proof. intros path v c. repeat split. Qed.

Create HintDb setters.

#[local] Hint Resolve set_fileTimestamps_setter set_fileHashes_setter
  set_contextHashes_setter set_missingTimestamps_setter
  set_managedItemInfo_setter : setters.

(** *** The counter *)

Lemma from_cache_counting {A} (cache : gmap string A) set req path acc :
  map_setter set -> counting acc -> counting (from_cache cache set req path acc).
Proof.
  intros Hset [Hj Hc]. unfold from_cache, counting.
  destruct (cache !! path) as [cached|]; simpl.
  - destruct (Hset path (Snap cached) acc.1) as (-> & -> & _). auto.
  - rewrite length_app. simpl. split; [lia|exact Hc].
Qed.

Lemma unless_managed_counting this otherwise acc path :
  (forall path acc, counting acc -> counting (otherwise path acc)) ->
  counting acc -> counting (unless_managed this otherwise acc path).
Proof.
  intros Hother Hacc. unfold unless_managed.
  destruct (managedItemOf _ path); [exact Hacc|auto].
Qed.

Lemma createSnapshot_counting this startTime files directories missing options :
  let acc := createSnapshot this startTime files directories missing options in
  jobs acc.1 = Z.of_nat (length acc.2)
  /\ (length acc.2 <> 0%nat -> called acc.1 = [])
  /\ (length acc.2 = 0%nat -> called acc.1 = [CbOk (snapshot_of startTime acc.1)]).
Proof.
  unfold createSnapshot.
  set (acc0 := (init, []) : progress).
  assert (H0 : counting acc0) by (split; reflexivity).
  set (acc1 := match files with Some _ => _ | None => _ end).
  assert (H1 : counting acc1).
  { subst acc1. destruct files as [l|]; [|exact H0].
    destruct (hash_mode options); apply foldl_invariant; auto;
      intros; apply unless_managed_counting; auto;
      intros; apply from_cache_counting; auto with setters. }
  set (acc2 := match directories with Some _ => _ | None => _ end).
  assert (H2 : counting acc2).
  { subst acc2. destruct directories as [l|]; [|exact H1].
    destruct (hash_mode options); apply foldl_invariant; auto;
      intros; apply unless_managed_counting; auto.
    intros; apply from_cache_counting; auto with setters. }
  set (acc3 := match missing with Some _ => _ | None => _ end).
  assert (H3 : counting acc3).
  { subst acc3. destruct missing as [l|]; [|exact H2].
    apply foldl_invariant; auto;
      intros; apply unless_managed_counting; auto;
      intros; apply from_cache_counting; auto with setters. }
  set (acc4 := foldl _ acc3 _).
  assert (H4 : counting acc4).
  { subst acc4. apply foldl_invariant; auto.
    intros; apply from_cache_counting; auto with setters. }
  destruct H4 as [Hj Hc]. simpl. unfold jobDone. simpl. rewrite Hj.
  replace (1 + Z.of_nat (length acc4.2) - 1) with (Z.of_nat (length acc4.2)) by lia.
  destruct (Z.eqb_spec (Z.of_nat (length acc4.2)) 0) as [Hz|Hz]; simpl.
  - split; [reflexivity|]. split; intros Hlen; [lia|]. rewrite Hc. reflexivity.
  - split; [reflexivity|]. split; intros Hlen; [exact Hc|lia].
Qed.

Lemma createSnapshot_waiting this startTime files directories missing options :
  let acc := createSnapshot this startTime files directories missing options in
  waiting startTime (length acc.2) acc.1.
Proof.
  intros acc.
  destruct (createSnapshot_counting this startTime files directories missing options)
    as (Hj & Hpos & Hzero).
  fold acc in Hj, Hpos, Hzero. split; [exact Hj|].
  destruct (length acc.2); [apply Hzero; reflexivity|apply Hpos; discriminate].
Qed.

Lemma createSnapshot_jobDone_waiting startTime n c :
  jobs c = Z.of_nat (S n) -> called c = [] -> waiting startTime n (jobDone startTime c).
Proof.
  intros Hj Hc. unfold jobDone. simpl. rewrite Hj.
  replace (Z.of_nat (S n) - 1) with (Z.of_nat n) by lia.
  destruct n as [|n]; simpl; split; try reflexivity; try exact Hc.
  unfold call, set_jobs. simpl. rewrite Hc. reflexivity.
Qed.

Lemma store_waiting {A} startTime (set : string -> snap A -> Closure -> Closure)
    path r n c :
  map_setter set -> waiting startTime (S n) c ->
  waiting startTime n (store startTime set path r c).
Proof.
  intros Hset [Hj Hc]. unfold store.
  destruct r as [err|entry]; apply createSnapshot_jobDone_waiting;
    match goal with |- context [set ?p ?v ?c] =>
      destruct (Hset p v c) as (Hj' & Hc' & _) end; congruence.
Qed.

Lemma createSnapshot_complete_waiting startTime d n c :
  waiting startTime (S n) c -> waiting startTime n (complete startTime c d).
Proof.
  destruct d; simpl; apply store_waiting; auto with setters.
Qed.

Lemma createSnapshot_foldl_waiting startTime done n c :
  waiting startTime (length done + n) c ->
  waiting startTime n (foldl (complete startTime) c done).
Proof.
  revert c. induction done as [|d done IH]; intros c Hc; simpl in *; [exact Hc|].
  apply IH, createSnapshot_complete_waiting, Hc.
Qed.

(** Once every request is answered, the callback has been called exactly
    once, with the snapshot of the maps. *)
Lemma createSnapshot_run_answers this startTime files directories missing options done :
  answers this startTime files directories missing options done ->
  called (run this startTime files directories missing options done)
  = [CbOk (snapshot_of startTime
             (run this startTime files directories missing options done))].
Proof.
  intros Hdone. unfold run.
  pose proof (createSnapshot_waiting this startTime files directories missing options)
    as Hw. cbv zeta in Hw.
  assert (Hlen : length (createSnapshot this startTime files directories missing
                           options).2 = (length done + 0)%nat).
  { rewrite <- (Permutation_length Hdone), length_map. lia. }
  rewrite Hlen in Hw.
  apply createSnapshot_foldl_waiting in Hw. destruct Hw as [_ Hc]. exact Hc.
Qed.

(** *** [contextTimestamps] *)

Lemma jobDone_contextTimestamps startTime c :
  contextTimestamps (jobDone startTime c) = contextTimestamps c.
Proof.
  unfold jobDone. simpl. destruct (jobs c - 1 =? 0); reflexivity.
Qed.

Lemma complete_contextTimestamps startTime c d :
  contextTimestamps (complete startTime c d) = contextTimestamps c.
Proof.
  destruct d as [? r|? r|? r|? r|? r]; simpl; unfold store; destruct r;
    rewrite jobDone_contextTimestamps; reflexivity.
Qed.

Lemma foldl_complete_contextTimestamps startTime done c :
  contextTimestamps (foldl (complete startTime) c done) = contextTimestamps c.
Proof.
  revert c. induction done as [|d done IH]; intros c; simpl; [reflexivity|].
  rewrite IH. apply complete_contextTimestamps.
Qed.

Lemma from_cache_contextTimestamps {A} (cache : gmap string A) set req path acc :
  map_setter set ->
  contextTimestamps (from_cache cache set req path acc).1 = contextTimestamps acc.1.
Proof.
  intros Hset. unfold from_cache. destruct (cache !! path) as [cached|]; simpl.
  - apply Hset.
  - reflexivity.
Qed.

Lemma unless_managed_contextTimestamps this otherwise acc path :
  (forall path acc, contextTimestamps (otherwise path acc).1 = contextTimestamps acc.1) ->
  contextTimestamps (unless_managed this otherwise acc path).1 = contextTimestamps acc.1.
Proof.
  intros Hother. unfold unless_managed.
  destruct (managedItemOf _ path); [reflexivity|apply Hother].
Qed.

(** The loop over the directories in timestamp mode. *)
Lemma directories_loop this directories acc dir :
  managedItemOf (managedPathsWithSlash this) dir = None ->
  In dir directories \/ contextTimestamps acc.1 !! dir = Some SnapError ->
  contextTimestamps
    (foldl (unless_managed this
              (fun path acc => (set_contextTimestamps path SnapError acc.1, acc.2)))
           acc directories).1 !! dir = Some SnapError.
Proof.
  intros Hdir. revert acc.
  induction directories as [|d directories IH]; intros acc Hin; simpl.
  - destruct Hin as [[]|H]. exact H.
  - apply IH. destruct Hin as [[->|Hin]|Hacc].
    + right. unfold unless_managed. rewrite Hdir. simpl. apply lookup_insert_eq.
    + left. exact Hin.
    + right. unfold unless_managed.
      destruct (managedItemOf _ d); simpl; [exact Hacc|].
      destruct (decide (d = dir)) as [->|Hne].
      * apply lookup_insert_eq.
      * rewrite lookup_insert_ne by exact Hne. exact Hacc.
Qed.

(** In timestamp mode a directory that is not beneath a managed path is in
    [contextTimestamps] as ["error"] after the synchronous part. *)
Lemma createSnapshot_contextTimestamps this startTime files directories missing
    options dir :
  hash_mode options = false ->
  In dir directories ->
  managedItemOf (managedPathsWithSlash this) dir = None ->
  contextTimestamps
    (createSnapshot this startTime files (Some directories) missing options).1
    !! dir = Some SnapError.
Proof.
  intros Hmode Hin Hdir. unfold createSnapshot. rewrite Hmode.
  set (acc1 := match files with Some _ => _ | None => _ end).
  set (acc2 := foldl _ acc1 directories).
  assert (H2 : contextTimestamps acc2.1 !! dir = Some SnapError).
  { subst acc2. apply directories_loop; auto. }
  set (acc3 := match missing with Some _ => _ | None => _ end).
  assert (H3 : contextTimestamps acc3.1 = contextTimestamps acc2.1).
  { subst acc3. destruct missing as [l|]; [|reflexivity].
    apply (foldl_invariant (fun acc => contextTimestamps acc.1 = _)); [|reflexivity].
    intros a b <-. apply unless_managed_contextTimestamps.
    intros. apply from_cache_contextTimestamps. auto with setters. }
  set (acc4 := foldl _ acc3 _).
  assert (H4 : contextTimestamps acc4.1 = contextTimestamps acc3.1).
  { subst acc4.
    apply (foldl_invariant (fun acc => contextTimestamps acc.1 = _)); [|reflexivity].
    intros a b <-. apply from_cache_contextTimestamps. auto with setters. }
  simpl. rewrite jobDone_contextTimestamps, H4, H3. exact H2.
Qed.

Lemma unless_empty_lookup {V} (m : gmap string V) k v :
  m !! k = Some v -> unless_empty m = Some m.
Proof.
  intros Hk. unfold unless_empty. case_bool_decide as Hsize; [|reflexivity].
  apply map_size_empty_iff in Hsize. subst m. rewrite lookup_empty in Hk.
  discriminate.
Qed.

End SnapshotFacts.

(** *** Paths beneath a managed path *)

Section ManagedFacts.

Import FSInfo FSInfo.CreateSnapshot SnapshotInvariants.

Variable path : string.

Lemma managedItemOf_Some managedPathsWithSlash managedPath :
  In managedPath managedPathsWithSlash ->
  JS.startsWith path managedPath = true ->
  is_Some (managedItemOf managedPathsWithSlash path).
Proof.
  induction managedPathsWithSlash as [|mp mps IH]; intros Hin Hstarts; [destruct Hin|].
  simpl. destruct (JS.startsWith path mp) eqn:Hmp; [eauto|].
  destruct Hin as [->|Hin]; [congruence|auto].
Qed.

Lemma apart_fileTimestamps p : p <> path -> apart path set_fileTimestamps FileTimestamp p.
Proof.
  intros Hp. split; [|split; congruence].
  intros v c. simpl. rewrite lookup_insert_ne by exact Hp. split; reflexivity.
Qed.

Lemma apart_fileHashes p : p <> path -> apart path set_fileHashes FileHash p.
Proof.
  intros Hp. split; [|split; congruence].
  intros v c. simpl. rewrite lookup_insert_ne by exact Hp. split; reflexivity.
Qed.

Lemma apart_contextHashes p : apart path set_contextHashes ContextHash p.
Proof. split; [|split; discriminate]. intros v c. split; reflexivity. Qed.

Lemma apart_missingTimestamps p : apart path set_missingTimestamps MissingTimestamp p.
Proof. split; [|split; discriminate]. intros v c. split; reflexivity. Qed.

Lemma apart_managedItemInfo p : apart path set_managedItemInfo ManagedItem p.
Proof. split; [|split; discriminate]. intros v c. split; reflexivity. Qed.

Lemma from_cache_untouched {A} (cache : gmap string A) set req p acc :
  apart path set req p -> untouched path acc ->
  untouched path (from_cache cache set req p acc).
Proof.
  intros (Hset & Hr1 & Hr2) (H1 & H2 & H3 & H4). unfold from_cache, untouched.
  destruct (cache !! p) as [cached|]; simpl.
  - destruct (Hset (Snap cached) acc.1) as [-> ->]. auto.
  - repeat split; try assumption; rewrite in_app_iff; simpl; intuition congruence.
Qed.

Lemma unless_managed_untouched this otherwise acc p :
  is_Some (managedItemOf (managedPathsWithSlash this) path) ->
  (forall p acc, p <> path -> untouched path acc -> untouched path (otherwise p acc)) ->
  untouched path acc -> untouched path (unless_managed this otherwise acc p).
Proof.
  intros Hmanaged Hother Hacc. unfold unless_managed.
  destruct (managedItemOf _ p) eqn:Hp; [exact Hacc|].
  apply Hother; [|exact Hacc]. intros ->. rewrite Hp in Hmanaged.
  destruct Hmanaged as [? [=]].
Qed.

Lemma createSnapshot_untouched this startTime files directories missing options :
  is_Some (managedItemOf (managedPathsWithSlash this) path) ->
  let acc := createSnapshot this startTime files directories missing options in
  fileTimestamps acc.1 !! path = None
  /\ fileHashes acc.1 !! path = None
  /\ ~ In (FileTimestamp path) acc.2
  /\ ~ In (FileHash path) acc.2.
Proof.
  intros Hmanaged. unfold createSnapshot.
  set (acc0 := (init, []) : progress).
  assert (H0 : untouched path acc0).
  { repeat split; try apply lookup_empty; intros []. }
  set (acc1 := match files with Some _ => _ | None => _ end).
  assert (H1 : untouched path acc1).
  { subst acc1. destruct files as [l|]; [|exact H0].
    destruct (hash_mode options); apply foldl_invariant; auto;
      intros; apply unless_managed_untouched; auto;
      intros; apply from_cache_untouched;
      auto using apart_fileHashes, apart_fileTimestamps. }
  set (acc2 := match directories with Some _ => _ | None => _ end).
  assert (H2 : untouched path acc2).
  { subst acc2. destruct directories as [l|]; [|exact H1].
    destruct (hash_mode options); apply foldl_invariant; auto;
      intros; apply unless_managed_untouched; auto.
    intros; apply from_cache_untouched; auto using apart_contextHashes. }
  set (acc3 := match missing with Some _ => _ | None => _ end).
  assert (H3 : untouched path acc3).
  { subst acc3. destruct missing as [l|]; [|exact H2].
    apply foldl_invariant; auto;
      intros; apply unless_managed_untouched; auto;
      intros; apply from_cache_untouched; auto using apart_missingTimestamps. }
  set (acc4 := foldl _ acc3 _).
  assert (H4 : untouched path acc4).
  { subst acc4. apply foldl_invariant; auto.
    intros; apply from_cache_untouched; auto using apart_managedItemInfo. }
  destruct H4 as (Ht & Hh & Hrt & Hrh). simpl.
  unfold jobDone. simpl. destruct (jobs acc4.1 - 1 =? 0); simpl; auto.
Qed.

Lemma jobDone_file_maps startTime c :
  fileTimestamps (jobDone startTime c) = fileTimestamps c
  /\ fileHashes (jobDone startTime c) = fileHashes c.
Proof.
  unfold jobDone. simpl. destruct (jobs c - 1 =? 0); split; reflexivity.
Qed.

Lemma complete_untouched startTime c d :
  request_of d <> FileTimestamp path -> request_of d <> FileHash path ->
  fileTimestamps c !! path = None /\ fileHashes c !! path = None ->
  fileTimestamps (complete startTime c d) !! path = None
  /\ fileHashes (complete startTime c d) !! path = None.
Proof.
  intros Hrt Hrh [Ht Hh].
  destruct d as [p r|p r|p r|p r|p r]; simpl in *; unfold store; destruct r;
    match goal with
    | |- context [jobDone ?st ?x] =>
        destruct (jobDone_file_maps st x) as [-> ->]
    end; simpl;
    rewrite ?lookup_insert_ne by congruence; auto.
Qed.

Lemma foldl_complete_untouched startTime done c :
  (forall d, In d done ->
             request_of d <> FileTimestamp path /\ request_of d <> FileHash path) ->
  fileTimestamps c !! path = None /\ fileHashes c !! path = None ->
  fileTimestamps (foldl (complete startTime) c done) !! path = None
  /\ fileHashes (foldl (complete startTime) c done) !! path = None.
Proof.
  revert c. induction done as [|d done IH]; intros c Hdone Hc; simpl; [exact Hc|].
  apply IH; [intros d' Hd'; apply Hdone; right; exact Hd'|].
  destruct (Hdone d) as [Hrt Hrh]; [left; reflexivity|].
  apply complete_untouched; assumption.
Qed.

Lemma unless_empty_inv {V} (m m' : gmap string V) :
  unless_empty m = Some m' -> m' = m.
Proof.
  unfold unless_empty. case_bool_decide; [discriminate|]. intros [= <-]. reflexivity.
Qed.

End ManagedFacts.

(** A path beneath a managed path gets no entry in [fileTimestamps] and no
    entry in [fileHashes] of the snapshot [createSnapshot] calls back with,
    whether it was given as a file, a directory or a missing path. *)
Theorem createSnapshot_skips_managed_paths (this : FSInfo.FileSystemInfo)
    (startTime : option Z) (files directories missing : option (list string))
    (options : option FSInfo.Options)
    (done : list FSInfo.CreateSnapshot.completion)
    (path managedPath : string) :
  In managedPath (FSInfo.managedPathsWithSlash this) ->
  JS.startsWith path managedPath = true ->
  FSInfo.CreateSnapshot.answers this startTime files directories missing options
    done ->
  exists snapshot,
    FSInfo.CreateSnapshot.called
      (FSInfo.CreateSnapshot.run this startTime files directories missing options
         done) = [CbOk snapshot]
    /\ (forall m, FSInfo.fileTimestamps snapshot = Some m -> m !! path = None)
    /\ (forall m, FSInfo.fileHashes snapshot = Some m -> m !! path = None).
Proof.
  intros Hin Hstarts Hdone.
  eexists. split; [apply createSnapshot_run_answers, Hdone|].
  pose proof (managedItemOf_Some path _ _ Hin Hstarts) as Hmanaged.
  destruct (createSnapshot_untouched path this startTime files directories missing
              options Hmanaged) as (Ht & Hh & Hrt & Hrh).
  assert (Hfinal :
    FSInfo.CreateSnapshot.fileTimestamps
      (FSInfo.CreateSnapshot.run this startTime files directories missing options
         done) !! path = None
    /\ FSInfo.CreateSnapshot.fileHashes
         (FSInfo.CreateSnapshot.run this startTime files directories missing
            options done) !! path = None).
  { unfold FSInfo.CreateSnapshot.run. apply foldl_complete_untouched; [|auto].
    intros d Hd.
    assert (Hreq : In (FSInfo.CreateSnapshot.request_of d)
                     (FSInfo.CreateSnapshot.createSnapshot this startTime files
                        directories missing options).2).
    { eapply Permutation_in; [exact Hdone|]. apply in_map, Hd. }
    split; intros Heq; rewrite Heq in Hreq; auto. }
  destruct Hfinal as [Hft Hfh]. simpl.
  split; intros m Hm; apply unless_empty_inv in Hm; subst m; assumption.
Qed.

Lemma createSnapshot_skips_managed_paths_witness :
  exists snapshot,
    FSInfo.CreateSnapshot.called
      (FSInfo.CreateSnapshot.run Inputs.managed_info (Some 2000)
         (Some ("/src/index.js"%string :: Inputs.managed_files)) None None None
         [FSInfo.CreateSnapshot.ManagedItemDone "/node_modules/@scope/pkg/lib"
            (CbErr ENOENT);
          FSInfo.CreateSnapshot.FileTimestampDone "/src/index.js"
            (CbOk (Some Inputs.entry_a))]) = [CbOk snapshot]
    /\ (forall m, FSInfo.fileTimestamps snapshot = Some m ->
                  m !! "/node_modules/@scope/pkg/lib/x.js"%string = None)
    /\ (forall m, FSInfo.fileHashes snapshot = Some m ->
                  m !! "/node_modules/@scope/pkg/lib/x.js"%string = None).
Proof.
  apply (createSnapshot_skips_managed_paths Inputs.managed_info (Some 2000)
           (Some ("/src/index.js"%string :: Inputs.managed_files)) None None None
           _ "/node_modules/@scope/pkg/lib/x.js" "/node_modules/").
  - simpl. left. reflexivity.
  - reflexivity.
  - unfold FSInfo.CreateSnapshot.answers. vm_compute.
    apply perm_swap.
Defined.

(** ** The processors *)

Section ProcessorFacts.

Import FSInfo.

Section Reads.

Variables (md4 : list string -> string) (normalizeNFC : string -> string)
  (sort : list string -> list string) (join : string -> string -> string)
  (unchecked : list string -> list (cb_args (option string)) -> JS.result string).

Lemma _readContextHash_failed path err children w :
  is_ENOENT err = false ->
  _readContextHash md4 normalizeNFC sort join unchecked path (CbErr err) children w
  = JS.Return (w, CbErr err).
Proof.
  intros H. unfold _readContextHash, readdir_callback. rewrite H. reflexivity.
Qed.

(** Once [fs.readdir] has listed the directory, a run that ends in a call
    of the callback has memoized a digest and called back with it. *)
Lemma _readContextHash_listed path files children w result :
  _readContextHash md4 normalizeNFC sort join unchecked path (CbOk files) children w
  = JS.Return result ->
  exists w' results digest,
    readChildren
      (fun file => iterator md4 normalizeNFC sort join unchecked path file
                     (children file))
      (sort (List.filter not_hidden (List.map normalizeNFC files))) w
    = JS.Return (w', results)
    /\ digest_of md4 unchecked
         (sort (List.filter not_hidden (List.map normalizeNFC files))) results
       = JS.Return digest
    /\ result = (cache_contextHash path (Some digest) w', CbOk (Some digest)).
Proof.
  unfold _readContextHash, readdir_callback. intros H.
  destruct (readChildren _ _ w) as [[w' results]|] eqn:Hr; [|discriminate].
  simpl in H.
  destruct (digest_of md4 unchecked _ results) as [digest|] eqn:Hd; [|discriminate].
  simpl in H. injection H as <-. eauto 8.
Qed.

End Reads.

(** The results kept by [asyncLib.map] hold the error of a read that
    fails. *)
Lemma readChildren_error read files w w' results file err :
  (forall w0, read file w0 = JS.Return (w0, CbErr err)) ->
  In file files ->
  readChildren read files w = JS.Return (w', results) ->
  In (CbErr err) results.
Proof.
  intros Hread. revert w w' results.
  induction files as [|f files IH]; intros w w' results Hin H; [destruct Hin|].
  simpl in H. destruct Hin as [->|Hin].
  - rewrite Hread in H. simpl in H.
    destruct (readChildren read files w) as [[w1 rs]|]; [|discriminate].
    simpl in H. injection H as <- <-. left. reflexivity.
  - destruct (read f w) as [[w1 r]|]; [|discriminate]. simpl in H.
    destruct (readChildren read files w1) as [[w2 rs]|] eqn:E; [|discriminate].
    simpl in H. injection H as <- <-. right. eapply IH; eauto.
Qed.

Lemma all_text_error results err : In (CbErr err) results -> all_text results = None.
Proof.
  induction results as [|r results IH]; intros Hin; [destruct Hin|].
  destruct Hin as [->|Hin]; [reflexivity|].
  destruct r as [e|[h|]]; try reflexivity. simpl. rewrite IH by exact Hin. reflexivity.
Qed.

(** The check of a snapshot that holds one context hash, for a directory
    that is not cached, when the read calls back with the same hash. *)
Lemma checkSnapshotValid_one_contextHash this path digest :
  _contextHashes this !! path = None ->
  CheckSnapshotValid.called
    (CheckSnapshotValid.run this
       (mkSnapshot None None None None (Some {[path := Snap (Some digest)]}) None None)
       [CheckSnapshotValid.ContextHashDone path (Snap (Some digest))
          (CbOk (Some digest))])
  = [CbOk true].
Proof.
  intros Hcache.
  unfold CheckSnapshotValid.run, CheckSnapshotValid.checkSnapshotValid. simpl.
  rewrite map_to_list_singleton. simpl.
  unfold CheckSnapshotValid.visit. simpl. rewrite Hcache. simpl.
  unfold CheckSnapshotValid.compare, CheckSnapshotValid.checkHash.
  rewrite bool_decide_eq_true_2 by reflexivity. reflexivity.
Qed.

Lemma managedItemOf_None managedPathsWithSlash path :
  (forall managedPath, In managedPath managedPathsWithSlash ->
                       JS.startsWith path managedPath = false) ->
  managedItemOf managedPathsWithSlash path = None.
Proof.
  induction managedPathsWithSlash as [|mp mps IH]; intros H; simpl; [reflexivity|].
  rewrite (H mp) by (left; reflexivity). apply IH.
  intros mp' Hin. apply H. right. exact Hin.
Qed.

End ProcessorFacts.

(** C6. On a successful [stat], [_readFileTimestamp] caches under the
    path, and calls back with, the entry whose [safeTime] is the mtime plus
    the value [FS_ACCURACY] has when the entry is built (the value after
    this mtime has been applied to it, which is at most the value before
    the read) for a non-zero mtime and [Infinity] for a zero one, and whose
    [timestamp] is the mtime for a non-directory and [undefined] for a
    directory. *)
Theorem _readFileTimestamp_entry (path : string) (stat : FSInfo.Stats)
    (w : FSInfo.World) :
  let after := FSInfo._readFileTimestamp path (CbOk stat) w in
  let accuracy := FSInfo.FS_ACCURACY after.1 in
  let ts :=
    {| FSInfo.safeTime :=
         if FSInfo.mtime stat =? 0 then JS.Infinity
         else JS.Num (FSInfo.mtime stat + accuracy);
       FSInfo.timestamp :=
         if FSInfo.isDirectory stat then None else Some (FSInfo.mtime stat) |} in
  after.2 = CbOk (Some ts)
  /\ FSInfo._fileTimestamps (FSInfo.this after.1) !! path = Some (Some ts)
  /\ accuracy = Accuracy.observe (FSInfo.FS_ACCURACY w) (FSInfo.mtime stat)
  /\ accuracy = (if FSInfo.mtime stat =? 0 then FSInfo.FS_ACCURACY w
                 else Accuracy.applyMtime (FSInfo.FS_ACCURACY w) (FSInfo.mtime stat))
  /\ accuracy <= FSInfo.FS_ACCURACY w.
Proof.
  intros after accuracy ts. subst after accuracy ts. simpl.
  destruct (FSInfo.mtime stat =? 0) eqn:Hm; simpl.
  - split; [reflexivity|]. split; [apply lookup_insert_eq|].
    unfold Accuracy.observe. rewrite Hm. split; [reflexivity|].
    split; [reflexivity|lia].
  - split; [reflexivity|]. split; [apply lookup_insert_eq|].
    unfold Accuracy.observe. rewrite Hm. split; [reflexivity|].
    split; [reflexivity|apply applyMtime_le].
Qed.

(** C4. In timestamp mode, once the reads it queued are answered,
    [createSnapshot] calls back with a snapshot whose [contextTimestamps]
    holds ["error"] for every directory of the input that starts with none
    of the managed paths; and [checkSnapshotValid] calls back with [false],
    and with nothing else, on every snapshot whose [contextTimestamps] is
    not empty, whatever its queued reads answer. *)
Theorem contextTimestamps_recorded_as_error_and_invalid
    (this : FSInfo.FileSystemInfo) (startTime : option Z)
    (files missing : option (list string)) (directories : list string)
    (options : option FSInfo.Options)
    (done : list FSInfo.CreateSnapshot.completion) (dir : string) :
  FSInfo.hash_mode options = false ->
  In dir directories ->
  (forall managedPath, In managedPath (FSInfo.managedPathsWithSlash this) ->
                       JS.startsWith dir managedPath = false) ->
  FSInfo.CreateSnapshot.answers this startTime files (Some directories) missing
    options done ->
  (exists snapshot m,
     FSInfo.CreateSnapshot.called
       (FSInfo.CreateSnapshot.run this startTime files (Some directories) missing
          options done) = [CbOk snapshot]
     /\ FSInfo.contextTimestamps snapshot = Some m
     /\ m !! dir = Some FSInfo.SnapError)
  /\ (forall (that : FSInfo.FileSystemInfo) (snapshot : FSInfo.Snapshot)
        (m : gmap string (FSInfo.snap (option FSInfo.FileSystemInfoEntry)))
        (answered : list FSInfo.CheckSnapshotValid.completion),
        FSInfo.contextTimestamps snapshot = Some m ->
        size m <> 0%nat ->
        FSInfo.CheckSnapshotValid.called
          (FSInfo.CheckSnapshotValid.run that snapshot answered) = [CbOk false]).
Proof.
  intros Hmode Hin Hdir Hdone. split.
  - eexists _, _. split; [apply createSnapshot_run_answers, Hdone|].
    assert (Hm : FSInfo.CreateSnapshot.contextTimestamps
                   (FSInfo.CreateSnapshot.run this startTime files
                      (Some directories) missing options done) !! dir
                 = Some FSInfo.SnapError).
    { unfold FSInfo.CreateSnapshot.run.
      rewrite foldl_complete_contextTimestamps.
      apply createSnapshot_contextTimestamps; auto.
      apply managedItemOf_None, Hdir. }
    simpl. split; [|exact Hm].
    eapply unless_empty_lookup, Hm.
  - intros that snapshot m answered Hm Hsize.
    eapply run_contextTimestamps; eauto.
Qed.

(** The directory [/src] of a timestamp-mode snapshot taken with
    [/node_modules] managed. *)
Lemma contextTimestamps_recorded_as_error_and_invalid_witness :
  exists snapshot m,
    FSInfo.CreateSnapshot.called
      (FSInfo.CreateSnapshot.run Inputs.managed_info (Some 2000) None
         (Some Inputs.some_directories) None None
         [FSInfo.CreateSnapshot.ManagedItemDone "/node_modules/pkg/lib"
            (CbOk "pkg@1.0.0"%string)]) = [CbOk snapshot]
    /\ FSInfo.contextTimestamps snapshot = Some m
    /\ m !! "/src"%string = Some FSInfo.SnapError.
Proof.
  apply (contextTimestamps_recorded_as_error_and_invalid
           Inputs.managed_info (Some 2000) None None Inputs.some_directories None
           [FSInfo.CreateSnapshot.ManagedItemDone "/node_modules/pkg/lib"
              (CbOk "pkg@1.0.0"%string)] "/src").
  - reflexivity.
  - simpl. left. reflexivity.
  - intros managedPath [<-|[]]. reflexivity.
  - unfold FSInfo.CreateSnapshot.answers. vm_compute. apply Permutation_refl.
Defined.

(** [checkSnapshotValid] never calls back with an error. Whatever the
    queued reads answer and however many have answered, [callback] has been
    called at most once, and with [(null, false)] or [(null, true)]; once
    every queued read has answered it has been called exactly once; if one
    of them answered with an error the call was [(null, false)]. A read of
    the path itself that fails with an error other than [ENOENT], be it
    [fs.stat] in the file timestamp queue, [fs.readFile] in the file hash
    queue or [fs.readdir] in the context hash queue, makes the processor
    call back with that error and leave the caches and [FS_ACCURACY] as
    they were. *)
Theorem checkSnapshotValid_never_errors (this : FSInfo.FileSystemInfo)
    (snapshot : FSInfo.Snapshot)
    (done : list FSInfo.CheckSnapshotValid.completion) :
  FSInfo.CheckSnapshotValid.answers this snapshot done ->
  (exists valid : bool,
     FSInfo.CheckSnapshotValid.called
       (FSInfo.CheckSnapshotValid.run this snapshot done) = [CbOk valid])
  /\ (forall d, In d done -> FSInfo.CheckSnapshotValid.failed d = true ->
        FSInfo.CheckSnapshotValid.called
          (FSInfo.CheckSnapshotValid.run this snapshot done) = [CbOk false])
  /\ (forall answered : list FSInfo.CheckSnapshotValid.completion,
        let called :=
          FSInfo.CheckSnapshotValid.called
            (FSInfo.CheckSnapshotValid.run this snapshot answered) in
        called = [] \/ called = [CbOk false] \/ called = [CbOk true])
  /\ (forall path w err,
        is_ENOENT err = false ->
        FSInfo._readFileTimestamp path (CbErr err) w = (w, CbErr err)
        /\ (forall md4, FSInfo._readFileHash md4 path (CbErr err) w = (w, CbErr err))
        /\ (forall md4 normalizeNFC sort join unchecked children,
              FSInfo._readContextHash md4 normalizeNFC sort join unchecked path
                (CbErr err) children w
              = JS.Return (w, CbErr err))).
Proof.
  intros Hdone. split; [|split; [|split]].
  - destruct (waiting_0_called _ (run_answers this snapshot done Hdone)) as [H|H];
      eauto.
  - intros d Hin Hd. eapply run_failed; eauto.
  - intros answered called. subst called.
    destruct (run_at_most_once this snapshot answered)
      as [[_ H]|[(n & _ & _ & H)|(n & _ & _ & H)]]; auto.
  - intros path w err Herr. split; [|split].
    + simpl. rewrite Herr. reflexivity.
    + intros md4. simpl. rewrite Herr. reflexivity.
    + intros md4 normalizeNFC sort join unchecked children.
      apply _readContextHash_failed, Herr.
Qed.

(** The file [/a] of [Inputs.snapshot_timestamps] is not cached and its
    read fails with [EBUSY]. *)
Lemma checkSnapshotValid_never_errors_witness :
  FSInfo.CheckSnapshotValid.called
    (FSInfo.CheckSnapshotValid.run Inputs.fresh_info Inputs.snapshot_timestamps
       [FSInfo.CheckSnapshotValid.FileTimestampDone "/a"
          (FSInfo.Snap (Some Inputs.entry_a)) (CbErr Inputs.EBUSY)])
  = [CbOk false].
Proof.
  assert (Hdone : FSInfo.CheckSnapshotValid.answers Inputs.fresh_info
                    Inputs.snapshot_timestamps
                    [FSInfo.CheckSnapshotValid.FileTimestampDone "/a"
                       (FSInfo.Snap (Some Inputs.entry_a)) (CbErr Inputs.EBUSY)]).
  { unfold FSInfo.CheckSnapshotValid.answers. vm_compute. apply Permutation_refl. }
  destruct (checkSnapshotValid_never_errors _ _ _ Hdone) as (_ & Hfailed & _).
  apply (Hfailed (FSInfo.CheckSnapshotValid.FileTimestampDone "/a"
                    (FSInfo.Snap (Some Inputs.entry_a)) (CbErr Inputs.EBUSY))).
  - left. reflexivity.
  - reflexivity.
Defined.

(** C8 does not hold of the read of a directory in the context hash
    queue. When [fs.stat] fails with [err] for an entry of the directory,
    the iterator passes [err] on, and the final callback of [asyncLib.map],
    which does not read its [err], goes on to a digest. If that ends in a
    call of the callback at all, the processor has called back with [(null,
    digest)] and has memoized [digest] for the directory in
    [_contextHashes]; no error reaches [checkSnapshotValid], which calls
    back with [(null, true)] for a snapshot that holds [digest] for the
    directory. *)
Theorem _readContextHash_hides_the_error_of_a_child (md4 : list string -> string)
    (normalizeNFC : string -> string) (sort : list string -> list string)
    (join : string -> string -> string)
    (unchecked : list string -> list (cb_args (option string)) -> JS.result string)
    (path file : string) (err : Error) (files : list string)
    (children : string -> FSInfo.Child) (w : FSInfo.World)
    (result : FSInfo.World * cb_args (option string)) :
  In file (sort (List.filter FSInfo.not_hidden (List.map normalizeNFC files))) ->
  children file = FSInfo.StatError err ->
  FSInfo._contextHashes (FSInfo.this w) !! path = None ->
  FSInfo._readContextHash md4 normalizeNFC sort join unchecked path (CbOk files)
    children w = JS.Return result ->
  exists digest results,
    In (CbErr err) results
    /\ unchecked (sort (List.filter FSInfo.not_hidden (List.map normalizeNFC files)))
         results = JS.Return digest
    /\ result.2 = CbOk (Some digest)
    /\ FSInfo._contextHashes (FSInfo.this result.1) !! path = Some (Some digest)
    /\ FSInfo.CheckSnapshotValid.called
         (FSInfo.CheckSnapshotValid.run (FSInfo.this w)
            (FSInfo.mkSnapshot None None None None
               (Some {[path := FSInfo.Snap (Some digest)]}) None None)
            [FSInfo.CheckSnapshotValid.ContextHashDone path
               (FSInfo.Snap (Some digest)) result.2])
       = [CbOk true].
Proof.
  intros Hin Hchild Hcache Hrun.
  apply _readContextHash_listed in Hrun as (w' & results & digest & Hr & Hd & ->).
  assert (Herr : In (CbErr err) results).
  { eapply (readChildren_error
              (fun file => FSInfo.iterator md4 normalizeNFC sort join unchecked path
                             file (children file))
              _ w w' results file err); [|exact Hin|exact Hr].
    intros w0. cbv beta. rewrite Hchild. reflexivity. }
  exists digest, results. split; [exact Herr|].
  split.
  { unfold FSInfo.digest_of in Hd. rewrite (all_text_error _ _ Herr) in Hd. exact Hd. }
  split; [reflexivity|]. split; [simpl; apply lookup_insert_eq|].
  simpl. apply checkSnapshotValid_one_contextHash, Hcache.
Qed.

(** The directory [/d] lists [a.txt], whose [fs.stat] fails with [EBUSY];
    the hasher is one that takes what it is given for a partial list. *)
Lemma _readContextHash_hides_the_error_of_a_child_witness :
  exists (digest : string) (results : list (cb_args (option string))),
    In (CbErr Inputs.EBUSY) results
    /\ JS.Return "31d6cfe0"%string = JS.Return digest
    /\ CbOk (Some "31d6cfe0"%string) = CbOk (Some digest)
    /\ FSInfo._contextHashes
         (FSInfo.this
            (FSInfo.cache_contextHash "/d" (Some "31d6cfe0"%string)
               Inputs.initial_world))
       !! "/d"%string = Some (Some digest)
    /\ FSInfo.CheckSnapshotValid.called
         (FSInfo.CheckSnapshotValid.run (FSInfo.this Inputs.initial_world)
            (FSInfo.mkSnapshot None None None None
               (Some {["/d"%string := FSInfo.Snap (Some digest)]}) None None)
            [FSInfo.CheckSnapshotValid.ContextHashDone "/d"
               (FSInfo.Snap (Some digest)) (CbOk (Some "31d6cfe0"%string))])
       = [CbOk true].
Proof.
  apply (_readContextHash_hides_the_error_of_a_child
           (fun _ => "00000000"%string) (fun file => file) (fun files => files)
           FSInfo.join_posix (fun _ _ => JS.Return "31d6cfe0"%string)
           "/d" "a.txt" Inputs.EBUSY ["a.txt"%string]
           (fun _ => FSInfo.StatError Inputs.EBUSY) Inputs.initial_world
           (FSInfo.cache_contextHash "/d" (Some "31d6cfe0"%string)
              Inputs.initial_world,
            CbOk (Some "31d6cfe0"%string))).
  - left. reflexivity.
  - reflexivity.
  - reflexivity.
  - reflexivity.
Defined.

(** C10. [storeBuildDependencies] calls [createSnapshot] with an
    [undefined] [startTime], and the snapshot called back with has no
    [startTime]. For a snapshot without [startTime] the comparison
    [current.safeTime > startTime] of [checkFile] is false for every
    current entry, and [checkFile] is the test on the snapshot's value not
    being ["error"], on existence, and on the timestamps being equal (when
    the snapshot's is defined). *)
Theorem checkFile_without_startTime (fileSystemInfo : FSInfo.FileSystemInfo)
    (files directories missing : list string)
    (done : list FSInfo.CreateSnapshot.completion)
    (snapshot : FSInfo.Snapshot)
    (current : option FSInfo.FileSystemInfoEntry)
    (snap : FSInfo.snap (option FSInfo.FileSystemInfoEntry)) :
  FSInfo.CreateSnapshot.answers fileSystemInfo None (Some files)
    (Some directories) (Some missing) (Some {| FSInfo.hash := Some true |}) done ->
  FSInfo.startTime snapshot = None ->
  (exists built,
     FSInfo.CreateSnapshot.called
       (PackFile.storeBuildDependencies_snapshot fileSystemInfo files directories
          missing done) = [CbOk built]
     /\ FSInfo.startTime built = None)
  /\ (forall safeTime, JS.gt_opt safeTime (FSInfo.startTime snapshot) = false)
  /\ FSInfo.CheckSnapshotValid.checkFile (FSInfo.startTime snapshot) current snap
     = match snap with
       | FSInfo.SnapError => false
       | FSInfo.Snap s =>
           match current, s with
           | None, None => true
           | Some c, Some e =>
               negb (bool_decide (FSInfo.timestamp e <> None)
                     && bool_decide (FSInfo.timestamp c <> FSInfo.timestamp e))
           | _, _ => false
           end
       end.
Proof.
  intros Hdone Hstart. split; [|split].
  - eexists. split.
    + unfold PackFile.storeBuildDependencies_snapshot.
      apply createSnapshot_run_answers, Hdone.
    + reflexivity.
  - intros safeTime. rewrite Hstart. reflexivity.
  - rewrite Hstart. destruct snap as [|s]; [reflexivity|].
    apply checkFile_not_fresh. destruct current; [reflexivity|exact I].
Qed.

(** Build dependencies resolved to the one file [/a], and the snapshot
    [Inputs.snapshot_timestamps], which has no [startTime], checked against
    an entry whose [safeTime] is [Infinity]. *)
Lemma checkFile_without_startTime_witness :
  FSInfo.CheckSnapshotValid.checkFile
    (FSInfo.startTime Inputs.snapshot_timestamps)
    (Some {| FSInfo.safeTime := JS.Infinity; FSInfo.timestamp := Some 500 |})
    (FSInfo.Snap (Some Inputs.entry_a)) = true.
Proof.
  assert (Hdone : FSInfo.CreateSnapshot.answers Inputs.fresh_info None
                    (Some ["/a"%string]) (Some []) (Some [])
                    (Some {| FSInfo.hash := Some true |})
                    [FSInfo.CreateSnapshot.FileHashDone "/a"
                       (CbOk (Some "0cc175b9"%string))]).
  { unfold FSInfo.CreateSnapshot.answers. vm_compute. apply Permutation_refl. }
  destruct (checkFile_without_startTime Inputs.fresh_info ["/a"%string] [] []
              _ Inputs.snapshot_timestamps
              (Some {| FSInfo.safeTime := JS.Infinity; FSInfo.timestamp := Some 500 |})
              (FSInfo.Snap (Some Inputs.entry_a)) Hdone eq_refl)
    as (_ & _ & ->).
  reflexivity.
Defined.

(** ** The pack *)

Section PackFacts.

Import PackFile.

Context {Data : Type}.

Implicit Types (p : Pack Data) (entry : PackEntry Data).

Lemma _unpack_invalid_mono identifier entry currentlyInline p :
  invalid p = true -> invalid (_unpack identifier entry currentlyInline p).1 = true.
Proof.
  intros Hp. unfold _unpack. destruct (data entry) as [d|]; simpl; [|exact Hp].
  destruct currentlyInline.
  - destruct (gt_num (size entry) MAX_INLINE_SIZE); simpl; [reflexivity|exact Hp].
  - destruct (le_num (size entry) MAX_INLINE_SIZE); simpl; [reflexivity|exact Hp].
Qed.

Lemma deserialize_entry_invalid_mono p item :
  invalid p = true -> invalid (deserialize_entry p item) = true.
Proof.
  intros Hp. unfold deserialize_entry. destruct item.2 as [load|entry]; simpl.
  - exact Hp.
  - pose proof (_unpack_invalid_mono item.1 entry true p Hp) as H.
    destruct (_unpack item.1 entry true p). exact H.
Qed.

Lemma foldl_deserialize_entry_invalid p entries :
  invalid p = true -> invalid (foldl deserialize_entry p entries) = true.
Proof.
  revert p. induction entries as [|item entries IH]; intros p Hp; simpl;
    [exact Hp|]. apply IH, deserialize_entry_invalid_mono, Hp.
Qed.

Lemma _unpack_inline_large identifier entry d n p :
  data entry = Some d -> size entry = Some n -> MAX_INLINE_SIZE < n ->
  invalid (_unpack identifier entry true p).1 = true.
Proof.
  intros Hd Hs Hn. unfold _unpack. rewrite Hd, Hs. simpl.
  destruct (Z.ltb_spec MAX_INLINE_SIZE n); [reflexivity|lia].
Qed.

Lemma _unpack_lazy_small identifier entry d n p :
  data entry = Some d -> size entry = Some n -> n <= MAX_INLINE_SIZE ->
  invalid (_unpack identifier entry false p).1 = true
  /\ content (_unpack identifier entry false p).1 !! identifier
     = Some (Inline (Some d)).
Proof.
  intros Hd Hs Hn. unfold _unpack. rewrite Hd, Hs. simpl.
  destruct (Z.leb_spec n MAX_INLINE_SIZE); [|lia]. simpl.
  split; [reflexivity|apply lookup_insert_eq].
Qed.

End PackFacts.

(** C9. An entry that carries data and arrived inline with [size >
    MAX_INLINE_SIZE], or arrived lazy with [size <= MAX_INLINE_SIZE], leaves
    [invalid = true] on the pack when [_unpack] has run on it; in the lazy
    case the data is then the value of the content map under the
    identifier. So a pack that [deserialize] has read such an inline entry
    into is invalid, and [get] on such a lazy entry leaves the pack invalid
    with the data in place of the loader. An entry without data does not
    come to the policy: [_unpack] records its identifier as unserializable,
    forgets its size, leaves [invalid] and the content map as they are and
    returns [undefined]. *)
Theorem _unpack_migration_sets_invalid {Data : Type} (identifier : string)
    (entry : PackFile.PackEntry Data) (p : PackFile.Pack Data) :
  (forall (d : Data) (n : Z),
     PackFile.data entry = Some d ->
     PackFile.size entry = Some n ->
     (PackFile.MAX_INLINE_SIZE < n ->
        PackFile.invalid (PackFile._unpack identifier entry true p).1 = true
        /\ forall version etags unserializable buildSnapshot entries,
             In (identifier, PackFile.StoredInline entry) entries ->
             PackFile.invalid
               (PackFile.deserialize version etags unserializable buildSnapshot
                  entries) = true)
     /\ (n <= PackFile.MAX_INLINE_SIZE ->
         (PackFile.invalid (PackFile._unpack identifier entry false p).1 = true
          /\ PackFile.content (PackFile._unpack identifier entry false p).1
               !! identifier = Some (PackFile.Inline (Some d)))
         /\ forall etag,
              PackFile.etags p !! identifier = Some etag ->
              PackFile.content p !! identifier = Some (PackFile.Lazy entry) ->
              PackFile.invalid (PackFile.get identifier etag p).1 = true
              /\ PackFile.content (PackFile.get identifier etag p).1 !! identifier
                 = Some (PackFile.Inline (Some d))))
  /\ (PackFile.data entry = None ->
      forall currentlyInline,
        (PackFile._unpack identifier entry currentlyInline p).2 = None
        /\ identifier
             ∈ PackFile.unserializable
                 (PackFile._unpack identifier entry currentlyInline p).1
        /\ PackFile.lastSizes (PackFile._unpack identifier entry currentlyInline p).1
             !! identifier = None
        /\ PackFile.invalid (PackFile._unpack identifier entry currentlyInline p).1
           = PackFile.invalid p
        /\ PackFile.content (PackFile._unpack identifier entry currentlyInline p).1
           = PackFile.content p).
Proof.
  split.
  - intros d n Hd Hs. split.
    + intros Hn. split; [eapply _unpack_inline_large; eauto|].
      intros version etags unserializable buildSnapshot entries Hin.
      apply in_split in Hin as (l1 & l2 & ->).
      unfold PackFile.deserialize. rewrite foldl_app. simpl.
      apply foldl_deserialize_entry_invalid.
      unfold PackFile.deserialize_entry. simpl.
      match goal with |- context [PackFile._unpack identifier entry true ?q] =>
        pose proof (_unpack_inline_large identifier entry d n q Hd Hs Hn) as H;
        destruct (PackFile._unpack identifier entry true q) end.
      exact H.
    + intros Hn. split; [eapply _unpack_lazy_small; eauto|].
      intros etag Hetag Hcontent. unfold PackFile.get.
      rewrite Hetag, String.eqb_refl. simpl. rewrite Hcontent.
      eapply _unpack_lazy_small; eauto.
  - intros Hd currentlyInline. unfold PackFile._unpack. rewrite Hd. simpl.
    split; [reflexivity|].
    split; [apply elem_of_union_l, elem_of_singleton; reflexivity|].
    split; [apply lookup_delete_eq|]. split; reflexivity.
Qed.

(** An entry of 50000 bytes that arrived inline in a new pack. *)
Lemma _unpack_migration_sets_invalid_witness :
  PackFile.invalid
    (PackFile._unpack "k" Inputs.entry_large true (PackFile.new_Pack "v1")).1
  = true.
Proof.
  apply (proj1 (_unpack_migration_sets_invalid "k" Inputs.entry_large
                  (PackFile.new_Pack "v1"))
           "blob"%string 50000 eq_refl eq_refl).
  unfold PackFile.MAX_INLINE_SIZE. lia.
Defined.

(** ** Scenarios *)

(** A file whose entry is cached as [{ safeTime: 1000, timestamp: 500 }]:
    [createSnapshot] at [startTime] 2000 queues no read and calls back with
    the snapshot of that entry, and [checkSnapshotValid] on it, with the
    cache unchanged, queues no read and calls back with [true]. *)
Theorem cached_unchanged_file_is_valid :
  let taken :=
    FSInfo.CreateSnapshot.createSnapshot Inputs.seeded_info (Some 2000)
      (Some ["/a"%string]) None None None in
  let checked :=
    FSInfo.CheckSnapshotValid.checkSnapshotValid Inputs.seeded_info
      Inputs.snapshot_at_2000 in
  taken.2 = []
  /\ FSInfo.CreateSnapshot.called taken.1 = [CbOk Inputs.snapshot_at_2000]
  /\ checked.2 = []
  /\ FSInfo.CheckSnapshotValid.called checked.1 = [CbOk true].
Proof.
  intros taken checked. subst taken checked.
  repeat split; vm_compute; reflexivity.
Qed.

(** The first read of a process, of a file modified at 2500. The
    accuracy in effect before the read is 2000, which would make the
    [safeTime] 4500; the read lowers [FS_ACCURACY] to 100 before it builds
    the entry, so the entry's [safeTime] is 2600. A snapshot started at 2000
    that holds this entry is judged invalid against it. *)
Theorem first_read_at_2500 :
  FSInfo.FS_ACCURACY Inputs.initial_world = 2000
  /\ JS.Num (FSInfo.mtime Inputs.stat_2500 + FSInfo.FS_ACCURACY Inputs.initial_world)
     = JS.Num 4500
  /\ (FSInfo._readFileTimestamp "/a" (CbOk Inputs.stat_2500) Inputs.initial_world).2
     = CbOk (Some {| FSInfo.safeTime := JS.Num 2600; FSInfo.timestamp := Some 2500 |})
  /\ FSInfo.FS_ACCURACY
       (FSInfo._readFileTimestamp "/a" (CbOk Inputs.stat_2500)
          Inputs.initial_world).1 = 100
  /\ (2600 =? 4500) = false
  /\ FSInfo.CheckSnapshotValid.checkFile (Some 2000)
       (Some {| FSInfo.safeTime := JS.Num 2600; FSInfo.timestamp := Some 2500 |})
       (FSInfo.Snap
          (Some {| FSInfo.safeTime := JS.Num 2600; FSInfo.timestamp := Some 2500 |}))
     = false.
Proof. repeat split. Qed.

(** ** A snapshot taken from the caches and checked against them *)

Section RoundTripFacts.

Import FSInfo FSInfo.CreateSnapshot SnapshotInvariants.

Lemma mirrors_insert {A} (cache : gmap string A) m p c :
  cache !! p = Some c -> mirrors cache m -> mirrors cache (<[p := Snap c]> m).
Proof.
  intros Hc Hm q v. destruct (decide (p = q)) as [<-|Hne].
  - rewrite lookup_insert_eq. intros [= <-]. eauto.
  - rewrite lookup_insert_ne by exact Hne. apply Hm.
Qed.

Ltac a_setter :=
  first [ apply set_fileTimestamps_setter | apply set_fileHashes_setter
        | apply set_contextHashes_setter | apply set_missingTimestamps_setter
        | apply set_managedItemInfo_setter ].

Ltac mirror_step :=
  match goal with
  | |- mirrored _ (from_cache ?cache _ _ ?p ?acc).1 =>
      unfold from_cache; destruct (cache !! p) eqn:?; simpl; [|assumption];
      match goal with
      | H : mirrored _ _ |- _ => destruct H as (? & ? & ? & ?)
      end;
      repeat split; simpl; try assumption; apply mirrors_insert; assumption
  end.

Lemma unless_managed_mirrored this otherwise acc path :
  (forall p a, mirrored this a.1 -> mirrored this (otherwise p a).1) ->
  mirrored this acc.1 -> mirrored this (unless_managed this otherwise acc path).1.
Proof.
  intros Hother Hacc. unfold unless_managed.
  destruct (managedItemOf _ path); [exact Hacc|auto].
Qed.

Lemma createSnapshot_mirrored this startTime files directories missing options :
  mirrored this (createSnapshot this startTime files directories missing options).1.
Proof.
  unfold createSnapshot.
  set (acc0 := (init, []) : progress).
  assert (H0 : mirrored this acc0.1).
  { repeat split; intros p v; simpl; rewrite lookup_empty; discriminate. }
  set (acc1 := match files with Some _ => _ | None => _ end).
  assert (H1 : mirrored this acc1.1).
  { subst acc1. destruct files as [l|]; [|exact H0].
    destruct (hash_mode options);
      apply (foldl_invariant (fun a => mirrored this a.1)); auto;
      intros; apply unless_managed_mirrored; auto; intros; mirror_step. }
  set (acc2 := match directories with Some _ => _ | None => _ end).
  assert (H2 : mirrored this acc2.1).
  { subst acc2. destruct directories as [l|]; [|exact H1].
    destruct (hash_mode options);
      apply (foldl_invariant (fun a => mirrored this a.1)); auto;
      intros; apply unless_managed_mirrored; auto; intros; try mirror_step. }
  set (acc3 := match missing with Some _ => _ | None => _ end).
  assert (H3 : mirrored this acc3.1).
  { subst acc3. destruct missing as [l|]; [|exact H2].
    apply (foldl_invariant (fun a => mirrored this a.1)); auto;
      intros; apply unless_managed_mirrored; auto; intros; mirror_step. }
  set (acc4 := foldl _ acc3 _).
  assert (H4 : mirrored this acc4.1).
  { subst acc4. apply (foldl_invariant (fun a => mirrored this a.1)); auto.
    intros; mirror_step. }
  simpl. unfold jobDone. simpl. destruct (jobs acc4.1 - 1 =? 0); exact H4.
Qed.

(** Without directories, or in hash mode, [contextTimestamps] stays
    empty. *)
Lemma createSnapshot_no_contextTimestamps this startTime files directories missing
    options :
  hash_mode options = true \/ directories = None ->
  contextTimestamps
    (createSnapshot this startTime files directories missing options).1 = ∅.
Proof.
  intros Hmode. unfold createSnapshot.
  set (acc0 := (init, []) : progress).
  set (acc1 := match files with Some _ => _ | None => _ end).
  assert (H1 : contextTimestamps acc1.1 = ∅).
  { subst acc1. destruct files as [l|]; [|reflexivity].
    destruct (hash_mode options);
      apply (foldl_invariant (fun a => contextTimestamps a.1 = ∅)); auto;
      intros a b <-; apply unless_managed_contextTimestamps;
      intros; apply from_cache_contextTimestamps; a_setter. }
  set (acc2 := match directories with Some _ => _ | None => _ end).
  assert (H2 : contextTimestamps acc2.1 = ∅).
  { subst acc2. destruct directories as [l|]; [|exact H1].
    destruct Hmode as [->|[=]].
    apply (foldl_invariant (fun a => contextTimestamps a.1 = ∅)); auto.
    intros a b <-. apply unless_managed_contextTimestamps.
    intros. apply from_cache_contextTimestamps. a_setter. }
  set (acc3 := match missing with Some _ => _ | None => _ end).
  assert (H3 : contextTimestamps acc3.1 = ∅).
  { subst acc3. destruct missing as [l|]; [|exact H2].
    apply (foldl_invariant (fun a => contextTimestamps a.1 = ∅)); auto.
    intros a b <-. apply unless_managed_contextTimestamps.
    intros. apply from_cache_contextTimestamps. a_setter. }
  set (acc4 := foldl _ acc3 _).
  assert (H4 : contextTimestamps acc4.1 = ∅).
  { subst acc4. apply (foldl_invariant (fun a => contextTimestamps a.1 = ∅)); auto.
    intros a b <-. apply from_cache_contextTimestamps. a_setter. }
  simpl. rewrite jobDone_contextTimestamps. exact H4.
Qed.

Lemma holds_mirrors {A} (cache : gmap string A) check m :
  mirrors cache m ->
  (forall c, is_Some (cache !! c.1) -> cache !! c.1 = Some c.2 ->
             check c.2 (Snap c.2) = true) ->
  CheckSnapshotValid.holds cache check (unless_empty m).
Proof.
  intros Hm Hcheck m' path snap cached Hm' Hp Hc.
  apply unless_empty_inv in Hm'. subst m'.
  destruct (Hm path snap Hp) as (c & Hc' & ->).
  assert (c = cached) by congruence. subst c.
  apply (Hcheck (path, cached)); simpl; eauto.
Qed.

Lemma each_all_cached {C V : Type} (cache : gmap string C) (check : C -> V -> bool)
    req map acc :
  (forall m p v, map = Some m -> m !! p = Some v -> is_Some (cache !! p)) ->
  (CheckSnapshotValid.each map cache check req acc).2 = acc.2.
Proof.
  intros Hcached. unfold CheckSnapshotValid.each. destruct map as [m|]; [|reflexivity].
  apply (foldl_invariant_in (fun a => a.2 = acc.2)); [|reflexivity].
  intros a [p v] Hin Ha. unfold CheckSnapshotValid.visit. simpl.
  destruct (Hcached m p v eq_refl) as [c ->].
  { apply elem_of_map_to_list, list_elem_of_In, Hin. }
  destruct (negb (check c v)); exact Ha.
Qed.

Lemma mirrors_cached {A} (cache : gmap string A) m m' p v :
  mirrors cache m -> unless_empty m = Some m' -> m' !! p = Some v ->
  is_Some (cache !! p).
Proof.
  intros Hm Hm' Hp. apply unless_empty_inv in Hm'. subst m'.
  destruct (Hm p v Hp) as (c & Hc & _). eauto.
Qed.

Lemma unless_empty_empty {V} : unless_empty (∅ : gmap string V) = None.
Proof.
  unfold unless_empty. rewrite bool_decide_eq_true_2 by apply map_size_empty.
  reflexivity.
Qed.

Lemma checkFile_same startTime current :
  match current with
  | Some e => JS.gt_opt (safeTime e) startTime = false
  | None => True
  end ->
  CheckSnapshotValid.checkFile startTime current (Snap current) = true.
Proof.
  intros Hfresh. rewrite checkFile_not_fresh by exact Hfresh.
  destruct current as [e|]; [|reflexivity].
  rewrite (bool_decide_eq_false_2 (timestamp e <> timestamp e)) by auto.
  rewrite andb_false_r. reflexivity.
Qed.

End RoundTripFacts.



(** ** The paths a snapshot has entries for *)

Section KeyFacts.

Import FSInfo FSInfo.CreateSnapshot SnapshotInvariants.

#[local] Set Warnings "-clear-no-such-hyp".

Ltac solve_fills :=
  split; [|split];
  [ intros k' q v c p; destruct k'; simpl; rewrite ?lookup_insert_is_Some;
    destruct (decide (q = p)); intuition (try congruence; try discriminate)
  | reflexivity
  | intros k' q p; destruct k'; simpl;
    intuition (try congruence; try discriminate) ].

Lemma fills_fileTimestamps : fills KFileTimestamps set_fileTimestamps FileTimestamp.
Proof. solve_fills. Qed.

Lemma fills_fileHashes : fills KFileHashes set_fileHashes FileHash.
Proof. solve_fills. Qed.

Lemma fills_contextHashes : fills KContextHashes set_contextHashes ContextHash.
Proof. solve_fills. Qed.

Lemma fills_missingTimestamps :
  fills KMissingTimestamps set_missingTimestamps MissingTimestamp.
Proof. solve_fills. Qed.

Lemma fills_managedItemInfo : fills KManagedItemInfo set_managedItemInfo ManagedItem.
Proof. solve_fills. Qed.

Lemma asked_app k l l' p : asked k (l ++ l') p <-> asked k l p \/ asked k l' p.
Proof.
  unfold asked. split.
  - intros (r & Hr & Hin). apply in_app_iff in Hin as [Hin|Hin]; eauto.
  - intros [(r & Hr & Hin)|(r & Hr & Hin)]; exists r; rewrite in_app_iff; auto.
Qed.

Lemma present_set_jobs k n c p : present k (set_jobs n c) p <-> present k c p.
Proof. destruct k; reflexivity. Qed.

Lemma present_jobDone k startTime c p :
  present k (jobDone startTime c) p <-> present k c p.
Proof.
  unfold jobDone. simpl. destruct (jobs c - 1 =? 0); destruct k; reflexivity.
Qed.

Lemma present_add_managedItem k i c p :
  present k (add_managedItem i c) p <-> present k c p.
Proof. destruct k; reflexivity. Qed.

Lemma from_cache_tracked {A} (cache : gmap string A) set req k q acc :
  fills k set req ->
  forall k' p,
    tracked k' (from_cache cache set req q acc) p
    <-> tracked k' acc p \/ (k' = k /\ p = q).
Proof.
  intros (Hp & _ & Hr) k' p. unfold from_cache, tracked.
  destruct (cache !! q) as [cached|]; simpl.
  - rewrite Hp. tauto.
  - rewrite present_set_jobs, asked_app.
    assert (Hone : asked k' [req q] p <-> k' = k /\ p = q).
    { unfold asked. split.
      - intros (r & Hreq & [<-|[]]). apply Hr, Hreq.
      - intros H. exists (req q). split; [apply Hr, H|left; reflexivity]. }
    rewrite Hone. tauto.
Qed.

Lemma from_cache_managedItems {A} (cache : gmap string A) set req k q acc :
  fills k set req ->
  managedItems (from_cache cache set req q acc).1 = managedItems acc.1.
Proof.
  intros (_ & Hm & _). unfold from_cache.
  destruct (cache !! q); simpl; [apply Hm|reflexivity].
Qed.

(** A loop over input paths with its test for managed paths. *)
Lemma loop_tracked this k (step : string -> progress -> progress) l acc :
  (forall q a k' p, tracked k' (step q a) p <-> tracked k' a p \/ (k' = k /\ p = q)) ->
  forall k' p,
    tracked k' (foldl (unless_managed this step) acc l) p
    <-> tracked k' acc p
        \/ (k' = k /\ In p l /\ managedItemOf (managedPathsWithSlash this) p = None).
Proof.
  intros Hstep k' p. revert acc.
  induction l as [|q l IH]; intros acc; simpl; [tauto|].
  rewrite IH. unfold unless_managed.
  destruct (managedItemOf (managedPathsWithSlash this) q) as [item|] eqn:Hq.
  - unfold tracked at 1. simpl. rewrite present_add_managedItem.
    fold (tracked k' acc p).
    split; [tauto|]. intros [H|(Hk & [->|Hin] & Hun)]; [tauto|congruence|tauto].
  - rewrite Hstep.
    split; [intros [[H|[Hk ->]]|H]; tauto|].
    intros [H|(Hk & [->|Hin] & Hun)]; tauto.
Qed.

Lemma loop_managedItems this (step : string -> progress -> progress) l acc :
  (forall q a, managedItems (step q a).1 = managedItems a.1) ->
  forall i,
    i ∈ managedItems (foldl (unless_managed this step) acc l).1
    <-> i ∈ managedItems acc.1
        \/ exists q, In q l /\ managedItemOf (managedPathsWithSlash this) q = Some i.
Proof.
  intros Hstep i. revert acc.
  induction l as [|q l IH]; intros acc; simpl; [naive_solver|].
  rewrite IH. unfold unless_managed.
  destruct (managedItemOf (managedPathsWithSlash this) q) as [item|] eqn:Hq.
  - simpl. rewrite elem_of_union, elem_of_singleton.
    split.
    + intros [[->|H]|(q' & Hin & Hq')]; eauto 6.
    + intros [H|(q' & [->|Hin] & Hq')]; eauto 6.
      left. left. congruence.
  - rewrite Hstep.
    split.
    + intros [H|(q' & Hin & Hq')]; eauto 6.
    + intros [H|(q' & [->|Hin] & Hq')]; eauto 6. congruence.
Qed.

(** The loop over the managed items. *)
Lemma plain_loop_tracked k (step : string -> progress -> progress) l acc :
  (forall q a k' p, tracked k' (step q a) p <-> tracked k' a p \/ (k' = k /\ p = q)) ->
  forall k' p,
    tracked k' (foldl (fun a q => step q a) acc l) p
    <-> tracked k' acc p \/ (k' = k /\ In p l).
Proof.
  intros Hstep k' p. revert acc.
  induction l as [|q l IH]; intros acc; simpl; [tauto|].
  rewrite IH, Hstep. split; [intros [[H|[Hk ->]]|H]; tauto|].
  intros [H|(Hk & [->|Hin])]; tauto.
Qed.

(** After the synchronous part, the entries made and the reads requested
    are the expected ones. *)
Lemma createSnapshot_tracked this startTime files directories missing options k p :
  tracked k (createSnapshot this startTime files directories missing options) p
  <-> expected this files directories missing options k p.
Proof.
  unfold createSnapshot.
  set (un := fun p => managedItemOf (managedPathsWithSlash this) p = None).
  set (acc0 := (init, []) : progress).
  assert (T0 : forall k p, tracked k acc0 p <-> False).
  { intros k' p'. unfold tracked, asked. simpl. split; [|tauto].
    intros [H|(r & _ & [])]. destruct k'; simpl in H;
      rewrite lookup_empty in H; destruct H as [? [=]]. }
  assert (M0 : forall i, i ∈ managedItems acc0.1 <-> False).
  { intros i. simpl. set_solver. }
  set (acc1 := match files with Some _ => _ | None => _ end).
  assert (T1 : forall k p, tracked k acc1 p
                           <-> k = mode_files options /\ in_input files p /\ un p).
  { intros k' p'. subst acc1. unfold mode_files, in_input.
    destruct files as [l|]; [|rewrite T0; naive_solver].
    destruct (hash_mode options);
      rewrite loop_tracked, T0
        by (intros; apply from_cache_tracked;
            first [apply fills_fileHashes|apply fills_fileTimestamps]);
      naive_solver. }
  assert (M1 : forall i, i ∈ managedItems acc1.1
                         <-> exists q, in_input files q
                                       /\ managedItemOf (managedPathsWithSlash this) q
                                          = Some i).
  { intros i. subst acc1. unfold in_input.
    destruct files as [l|]; [|rewrite M0; naive_solver].
    destruct (hash_mode options);
      rewrite loop_managedItems, M0
        by (intros; eapply from_cache_managedItems;
            first [apply fills_fileHashes|apply fills_fileTimestamps]);
      naive_solver. }
  set (acc2 := match directories with Some _ => _ | None => _ end).
  assert (T2 : forall k p, tracked k acc2 p
                           <-> tracked k acc1 p
                               \/ (k = mode_directories options
                                   /\ in_input directories p /\ un p)).
  { intros k' p'. subst acc2. unfold mode_directories, in_input.
    destruct directories as [l|]; [|naive_solver].
    destruct (hash_mode options).
    - rewrite loop_tracked
        by (intros; apply from_cache_tracked, fills_contextHashes).
      naive_solver.
    - rewrite (loop_tracked this KContextTimestamps).
      + naive_solver.
      + intros q a k'' p''. unfold tracked. simpl.
        assert (present k'' (set_contextTimestamps q SnapError a.1) p''
                <-> present k'' a.1 p'' \/ (k'' = KContextTimestamps /\ p'' = q)).
        { destruct k''; simpl; rewrite ?lookup_insert_is_Some;
            destruct (decide (q = p'')); naive_solver. }
        tauto. }
  assert (M2 : forall i, i ∈ managedItems acc2.1
                         <-> i ∈ managedItems acc1.1
                             \/ exists q, in_input directories q
                                          /\ managedItemOf (managedPathsWithSlash this) q
                                             = Some i).
  { intros i. subst acc2. unfold in_input.
    destruct directories as [l|]; [|naive_solver].
    destruct (hash_mode options).
    - rewrite loop_managedItems
        by (intros; eapply from_cache_managedItems, fills_contextHashes).
      naive_solver.
    - rewrite loop_managedItems by reflexivity. naive_solver. }
  set (acc3 := match missing with Some _ => _ | None => _ end).
  assert (T3 : forall k p, tracked k acc3 p
                           <-> tracked k acc2 p
                               \/ (k = KMissingTimestamps
                                   /\ in_input missing p /\ un p)).
  { intros k' p'. subst acc3. unfold in_input.
    destruct missing as [l|]; [|naive_solver].
    rewrite loop_tracked
      by (intros; apply from_cache_tracked, fills_missingTimestamps).
    naive_solver. }
  assert (M3 : forall i, i ∈ managedItems acc3.1
                         <-> i ∈ managedItems acc2.1
                             \/ exists q, in_input missing q
                                          /\ managedItemOf (managedPathsWithSlash this) q
                                             = Some i).
  { intros i. subst acc3. unfold in_input.
    destruct missing as [l|]; [|naive_solver].
    rewrite loop_managedItems
      by (intros; eapply from_cache_managedItems, fills_missingTimestamps).
    naive_solver. }
  set (acc4 := foldl _ acc3 _).
  assert (T4 : forall k p, tracked k acc4 p
                           <-> tracked k acc3 p
                               \/ (k = KManagedItemInfo /\ p ∈ managedItems acc3.1)).
  { intros k' p'. subst acc4.
    rewrite (plain_loop_tracked KManagedItemInfo
               (from_cache (_managedItems this) set_managedItemInfo ManagedItem))
      by (intros; apply from_cache_tracked, fills_managedItemInfo).
    rewrite <- list_elem_of_In, elem_of_elements. reflexivity. }
  unfold tracked. simpl. rewrite present_jobDone. fold (tracked k acc4 p).
  rewrite T4, T3, T2, T1, M3, M2, M1.
  unfold expected, mode_files, mode_directories. fold (un p).
  destruct k, (hash_mode options); naive_solver.
Qed.

Lemma complete_present startTime c d k p :
  present k (complete startTime c d) p
  <-> present k c p \/ request_for k p = Some (request_of d).
Proof.
  destruct d as [q r|q r|q r|q r|q r]; simpl; unfold store; destruct r;
    rewrite present_jobDone;
    match goal with
    | |- context [set_fileHashes] => destruct fills_fileHashes as (Hp & _ & Hr)
    | |- context [set_fileTimestamps] => destruct fills_fileTimestamps as (Hp & _ & Hr)
    | |- context [set_contextHashes] => destruct fills_contextHashes as (Hp & _ & Hr)
    | |- context [set_missingTimestamps] =>
        destruct fills_missingTimestamps as (Hp & _ & Hr)
    | |- context [set_managedItemInfo] =>
        destruct fills_managedItemInfo as (Hp & _ & Hr)
    end; rewrite Hp, Hr; reflexivity.
Qed.

Lemma foldl_complete_present startTime done c k p :
  present k (foldl (complete startTime) c done) p
  <-> present k c p
      \/ exists d, In d done /\ request_for k p = Some (request_of d).
Proof.
  revert c. induction done as [|d done IH]; intros c; simpl; [naive_solver|].
  rewrite IH, complete_present. naive_solver.
Qed.

(** Once every request is answered, the entries are the ones the
    synchronous part made or requested. *)
Lemma run_present this startTime files directories missing options done k p :
  answers this startTime files directories missing options done ->
  present k (run this startTime files directories missing options done) p
  <-> tracked k (createSnapshot this startTime files directories missing options) p.
Proof.
  intros Hdone. unfold run, tracked, asked. rewrite foldl_complete_present.
  split; (intros [H|H]; [left; exact H|right]).
  - destruct H as (d & Hin & Hr). exists (request_of d). split; [exact Hr|].
    eapply Permutation_in; [exact Hdone|]. apply in_map, Hin.
  - destruct H as (r & Hr & Hin).
    apply (Permutation_in _ (Permutation_sym Hdone)) in Hin.
    apply in_map_iff in Hin as (d & <- & Hin). eauto.
Qed.

Lemma has_key_unless_empty {V} (m : gmap string V) p :
  has_key (unless_empty m) p <-> is_Some (m !! p).
Proof.
  unfold has_key, unless_empty. split.
  - intros (m' & Hm' & Hp). case_bool_decide; [discriminate|].
    injection Hm' as <-. exact Hp.
  - intros Hp. exists m. split; [|exact Hp].
    case_bool_decide as Hsize; [|reflexivity].
    apply map_size_empty_iff in Hsize. subst m. rewrite lookup_empty in Hp.
    destruct Hp as [? [=]].
Qed.

Lemma keys_snapshot_of k startTime c p :
  keys k (snapshot_of startTime c) p <-> present k c p.
Proof. destruct k; simpl; apply has_key_unless_empty. Qed.

Lemma is_Some_unless_empty {V} (m : gmap string V) :
  is_Some (unless_empty m) <-> exists p, has_key (unless_empty m) p.
Proof.
  split.
  - intros [m' Hm']. pose proof Hm' as Heq. unfold unless_empty in Heq.
    case_bool_decide as Hsize; [discriminate|]. injection Heq as <-.
    assert (Hne : m <> ∅) by (intros ->; apply Hsize, map_size_empty).
    apply map_choose in Hne as (p & x & Hp).
    exists p, m. split; [exact Hm'|]. rewrite Hp. eauto.
  - intros (p & m' & Hm' & _). eauto.
Qed.

(** A map without keys is left out of the snapshot object. *)
Lemma has_map_snapshot_of k startTime c :
  has_map k (snapshot_of startTime c) <-> exists p, keys k (snapshot_of startTime c) p.
Proof. destruct k; simpl; apply is_Some_unless_empty. Qed.

End KeyFacts.

(** The snapshot [createSnapshot] calls back with, once its queued reads
    are answered, has entries for exactly these paths: in timestamp mode
    [fileTimestamps] for the files and [contextTimestamps] for the
    directories that are beneath no managed path, in hash mode [fileHashes]
    and [contextHashes] for them; [missingTimestamps] for the missing paths
    beneath no managed path; and [managedItemInfo] for the managed item of
    every input path beneath a managed path. A map that would have no entry
    is left out of the snapshot: the snapshot has the property of a map
    exactly when the map has an entry. *)
Theorem createSnapshot_keys (this : FSInfo.FileSystemInfo) (startTime : option Z)
    (files directories missing : option (list string))
    (options : option FSInfo.Options)
    (done : list FSInfo.CreateSnapshot.completion) :
  FSInfo.CreateSnapshot.answers this startTime files directories missing options
    done ->
  exists snapshot,
    FSInfo.CreateSnapshot.called
      (FSInfo.CreateSnapshot.run this startTime files directories missing options
         done) = [CbOk snapshot]
    /\ (forall k p,
          FSInfo.keys k snapshot p
          <-> FSInfo.expected this files directories missing options k p)
    /\ (forall k,
          FSInfo.has_map k snapshot
          <-> exists p, FSInfo.expected this files directories missing options k p).
Proof.
  intros Hdone. eexists. split; [apply createSnapshot_run_answers, Hdone|].
  assert (Hkeys : forall k p,
             FSInfo.keys k
               (FSInfo.CreateSnapshot.snapshot_of startTime
                  (FSInfo.CreateSnapshot.run this startTime files directories
                     missing options done)) p
             <-> FSInfo.expected this files directories missing options k p).
  { intros k p. rewrite keys_snapshot_of, run_present by exact Hdone.
    apply createSnapshot_tracked. }
  split; [exact Hkeys|].
  intros k. rewrite has_map_snapshot_of. split.
  - intros [p Hp]. exists p. apply Hkeys, Hp.
  - intros [p Hp]. exists p. apply Hkeys, Hp.
Qed.

Lemma createSnapshot_keys_witness :
  exists snapshot,
    FSInfo.CreateSnapshot.called
      (FSInfo.CreateSnapshot.run Inputs.managed_info (Some 2000)
         (Some ("/src/index.js"%string :: Inputs.managed_files)) None None None
         [FSInfo.CreateSnapshot.ManagedItemDone "/node_modules/@scope/pkg/lib"
            (CbErr ENOENT);
          FSInfo.CreateSnapshot.FileTimestampDone "/src/index.js"
            (CbOk (Some Inputs.entry_a))]) = [CbOk snapshot]
    /\ (forall k p,
          FSInfo.keys k snapshot p
          <-> FSInfo.expected Inputs.managed_info
                (Some ("/src/index.js"%string :: Inputs.managed_files)) None None
                None k p)
    /\ (forall k,
          FSInfo.has_map k snapshot
          <-> exists p,
                FSInfo.expected Inputs.managed_info
                  (Some ("/src/index.js"%string :: Inputs.managed_files)) None None
                  None k p).
Proof.
  apply (createSnapshot_keys Inputs.managed_info (Some 2000)
           (Some ("/src/index.js"%string :: Inputs.managed_files)) None None None).
  unfold FSInfo.CreateSnapshot.answers. vm_compute.
  apply perm_swap.
Defined.

(** ** [getManagedItem] on package paths *)

Section ManagedItemFacts.

Import FSInfo.

Local Open Scope string_scope.

Lemma substring_all s : String.substring 0 (String.length s) s = s.
Proof. induction s as [|c s IH]; simpl; [reflexivity|]. rewrite IH. reflexivity. Qed.

Lemma slice_from_app mp r : JS.slice_from (String.length mp) (mp ++ r) = r.
Proof.
  unfold JS.slice_from. induction mp as [|c mp IH]; simpl.
  - rewrite Nat.sub_0_r. apply substring_all.
  - exact IH.
Qed.

Lemma slice_to_app mp r i :
  JS.slice_to (String.length mp + i) (mp ++ r) = mp ++ JS.slice_to i r.
Proof.
  unfold JS.slice_to. induction mp as [|c mp IH]; simpl; [reflexivity|].
  rewrite IH. reflexivity.
Qed.

Lemma slice_to_app_all s r : JS.slice_to (String.length s) (s ++ r) = s.
Proof.
  unfold JS.slice_to. induction s as [|c s IH]; simpl.
  - destruct r; reflexivity.
  - rewrite IH. reflexivity.
Qed.

Lemma getManagedItem_app mp r :
  getManagedItem mp (mp ++ r) = mp ++ JS.slice_to (getManagedItem_loop r 0 2) r.
Proof. unfold getManagedItem. rewrite slice_from_app, slice_to_app. reflexivity. Qed.

Lemma loop_plain_char c rest i slashes :
  plain_char c = true ->
  getManagedItem_loop (String c rest) i slashes
  = getManagedItem_loop rest (S i) slashes.
Proof.
  destruct c as [[] [] [] [] [] [] [] []]; intros H; try discriminate H; reflexivity.
Qed.

Lemma loop_plain seg rest i slashes :
  plain seg = true ->
  getManagedItem_loop (seg ++ rest) i slashes
  = getManagedItem_loop rest (i + String.length seg) slashes.
Proof.
  revert i. induction seg as [|c seg IH]; intros i H.
  - simpl. rewrite Nat.add_0_r. reflexivity.
  - simpl in H. apply andb_prop in H as [Hc Hseg].
    change (String c seg ++ rest) with (String c (seg ++ rest)).
    rewrite loop_plain_char by exact Hc. rewrite IH by exact Hseg.
    simpl. f_equal. lia.
Qed.

Lemma loop_slash rest i slashes :
  getManagedItem_loop ("/" ++ rest) i slashes
  = if (slashes - 1 =? 0)%Z then i
    else getManagedItem_loop rest (S i) (slashes - 1).
Proof. reflexivity. Qed.

Lemma loop_at rest i slashes :
  getManagedItem_loop ("@" ++ rest) i slashes
  = getManagedItem_loop rest (S i) (slashes + 1).
Proof. reflexivity. Qed.

Lemma length_app s r : String.length (s ++ r) = (String.length s + String.length r)%nat.
Proof.
  induction s as [|c s IH]; [reflexivity|].
  change (S (String.length (s ++ r)) = S (String.length s + String.length r)).
  f_equal. exact IH.
Qed.

Lemma app_assoc s r t : (s ++ r) ++ t = s ++ r ++ t.
Proof.
  induction s as [|c s IH]; [reflexivity|].
  change (String c ((s ++ r) ++ t) = String c (s ++ r ++ t)).
  f_equal. exact IH.
Qed.

Lemma slice_to_prefix s r i :
  i = String.length s -> JS.slice_to i (s ++ r) = s.
Proof. intros ->. apply slice_to_app_all. Qed.

Lemma package_dir pkg rest :
  plain pkg = true ->
  JS.slice_to (getManagedItem_loop ("/" ++ pkg ++ "/" ++ rest) 0 2)
    ("/" ++ pkg ++ "/" ++ rest)
  = "/" ++ pkg.
Proof.
  intros Hpkg. rewrite loop_slash. simpl (2 - 1 =? 0)%Z.
  cbv iota. rewrite loop_plain by exact Hpkg. rewrite loop_slash.
  simpl (2 - 1 - 1 =? 0)%Z. cbv iota.
  replace ("/" ++ pkg ++ "/" ++ rest) with (("/" ++ pkg) ++ "/" ++ rest)
    by (rewrite !app_assoc; reflexivity).
  apply slice_to_prefix. rewrite length_app. reflexivity.
Qed.

Lemma scoped_package_dir scope pkg rest :
  plain scope = true -> plain pkg = true ->
  JS.slice_to
    (getManagedItem_loop ("/" ++ "@" ++ scope ++ "/" ++ pkg ++ "/" ++ rest) 0 2)
    ("/" ++ "@" ++ scope ++ "/" ++ pkg ++ "/" ++ rest)
  = "/" ++ "@" ++ scope ++ "/" ++ pkg.
Proof.
  intros Hscope Hpkg. rewrite loop_slash. simpl (2 - 1 =? 0)%Z. cbv iota.
  rewrite loop_at, loop_plain by exact Hscope. rewrite loop_slash.
  simpl (2 - 1 + 1 - 1 =? 0)%Z. cbv iota.
  rewrite loop_plain by exact Hpkg. rewrite loop_slash.
  simpl (2 - 1 + 1 - 1 - 1 =? 0)%Z. cbv iota.
  replace ("/" ++ "@" ++ scope ++ "/" ++ pkg ++ "/" ++ rest)
    with (("/" ++ "@" ++ scope ++ "/" ++ pkg) ++ "/" ++ rest)
    by (rewrite !app_assoc; reflexivity).
  apply slice_to_prefix. rewrite !length_app. simpl. lia.
Qed.

Lemma subdirectory pkg dir rest :
  plain pkg = true -> plain dir = true ->
  JS.slice_to (getManagedItem_loop (pkg ++ "/" ++ dir ++ "/" ++ rest) 0 2)
    (pkg ++ "/" ++ dir ++ "/" ++ rest)
  = pkg ++ "/" ++ dir.
Proof.
  intros Hpkg Hdir. rewrite loop_plain by exact Hpkg. rewrite loop_slash.
  simpl (2 - 1 =? 0)%Z. cbv iota.
  rewrite loop_plain by exact Hdir. rewrite loop_slash.
  simpl (2 - 1 - 1 =? 0)%Z. cbv iota.
  replace (pkg ++ "/" ++ dir ++ "/" ++ rest) with ((pkg ++ "/" ++ dir) ++ "/" ++ rest)
    by (rewrite !app_assoc; reflexivity).
  apply slice_to_prefix. rewrite !length_app. simpl. lia.
Qed.

Lemma drop_last_app s : JS.drop_last (s ++ "_") = s.
Proof.
  unfold JS.drop_last. rewrite length_app. simpl.
  replace (String.length s + 1 - 1)%nat with (String.length s) by lia.
  apply slice_to_app_all.
Qed.

Lemma startsWith_app s r : JS.startsWith (s ++ r) s = true.
Proof. apply String.prefix_correct, slice_to_app_all. Qed.

Lemma startsWith_inv path mp :
  JS.startsWith path mp = true -> exists r, path = mp ++ r.
Proof.
  unfold JS.startsWith. revert path.
  induction mp as [|c mp IH]; intros path H.
  - exists path. reflexivity.
  - destruct path as [|c' path]; [discriminate|]. simpl in H.
    destruct (Ascii.ascii_dec c c') as [->|]; [|discriminate].
    destruct (IH path H) as [r ->]. exists r. reflexivity.
Qed.

Lemma prefix_slice_to i r : String.prefix (JS.slice_to i r) r = true.
Proof.
  unfold JS.slice_to. revert i.
  induction r as [|c r IH]; intros [|i]; simpl; try reflexivity.
  destruct (Ascii.ascii_dec c c); [apply IH|contradiction].
Qed.

Lemma prefix_app s x y : String.prefix x y = true -> String.prefix (s ++ x) (s ++ y) = true.
Proof.
  intros H. induction s as [|c s IH]; [exact H|].
  change (String.prefix (String c (s ++ x)) (String c (s ++ y)) = true). simpl.
  destruct (Ascii.ascii_dec c c); [exact IH|contradiction].
Qed.

End ManagedItemFacts.

(** Called with a managed path that has no trailing separator,
    [getManagedItem] returns the directory of the package a path lies in:
    [managedPath/pkg] for [managedPath/pkg/...] and [managedPath/@scope/pkg]
    for [managedPath/@scope/pkg/...]. *)
Theorem getManagedItem_package_directory (managedPath pkg scope rest : string) :
  FSInfo.plain pkg = true -> FSInfo.plain scope = true ->
  FSInfo.getManagedItem managedPath (managedPath ++ "/" ++ pkg ++ "/" ++ rest)%string
  = (managedPath ++ "/" ++ pkg)%string
  /\ FSInfo.getManagedItem managedPath
       (managedPath ++ "/" ++ "@" ++ scope ++ "/" ++ pkg ++ "/" ++ rest)%string
     = (managedPath ++ "/" ++ "@" ++ scope ++ "/" ++ pkg)%string.
Proof.
  intros Hpkg Hscope. rewrite !getManagedItem_app.
  rewrite package_dir by exact Hpkg.
  rewrite scoped_package_dir by assumption. split; reflexivity.
Qed.

Lemma getManagedItem_package_directory_witness :
  FSInfo.getManagedItem "/node_modules" "/node_modules/pkg/lib/x.js"
  = "/node_modules/pkg"%string
  /\ FSInfo.getManagedItem "/node_modules" "/node_modules/@scope/pkg/lib/x.js"
     = "/node_modules/@scope/pkg"%string.
Proof.
  apply (getManagedItem_package_directory "/node_modules" "pkg" "scope" "lib/x.js");
    reflexivity.
Defined.

(** Where [join] puts one slash between the managed path and a name, as
    it does for a managed path without trailing separator on a POSIX file
    system, the constructor keeps [managedPath/] in [managedPathsWithSlash],
    and the managed item that [createSnapshot] finds for a path inside a
    directory of a package is that directory, [managedPath/pkg/dir], for
    every package and directory name. *)
Theorem managedItemOf_directory_of_package (join : string -> string -> string)
    (managedPath pkg dir rest : string) :
  join managedPath "_"%string = (managedPath ++ "/" ++ "_")%string ->
  FSInfo.plain pkg = true -> FSInfo.plain dir = true ->
  FSInfo.managedPathsWithSlash (FSInfo.new_FileSystemInfo join [managedPath])
  = [(managedPath ++ "/")%string]
  /\ FSInfo.managedItemOf
       (FSInfo.managedPathsWithSlash (FSInfo.new_FileSystemInfo join [managedPath]))
       (managedPath ++ "/" ++ pkg ++ "/" ++ dir ++ "/" ++ rest)%string
     = Some (managedPath ++ "/" ++ pkg ++ "/" ++ dir)%string.
Proof.
  intros Hjoin Hpkg Hdir. simpl. rewrite Hjoin.
  replace (managedPath ++ "/" ++ "_")%string with ((managedPath ++ "/") ++ "_")%string
    by apply app_assoc.
  rewrite drop_last_app. split; [reflexivity|].
  replace (managedPath ++ "/" ++ pkg ++ "/" ++ dir ++ "/" ++ rest)%string
    with ((managedPath ++ "/") ++ pkg ++ "/" ++ dir ++ "/" ++ rest)%string
    by apply app_assoc.
  rewrite startsWith_app, getManagedItem_app.
  rewrite subdirectory by assumption.
  rewrite app_assoc. reflexivity.
Qed.

Lemma managedItemOf_directory_of_package_witness :
  FSInfo.managedPathsWithSlash
    (FSInfo.new_FileSystemInfo FSInfo.join_posix ["/node_modules"%string])
  = ["/node_modules/"%string]
  /\ FSInfo.managedItemOf
       (FSInfo.managedPathsWithSlash
          (FSInfo.new_FileSystemInfo FSInfo.join_posix ["/node_modules"%string]))
       "/node_modules/pkg/lib/x.js"
     = Some "/node_modules/pkg/lib"%string.
Proof.
  apply (managedItemOf_directory_of_package FSInfo.join_posix "/node_modules" "pkg"
           "lib" "x.js"); reflexivity.
Defined.

(** The managed item of a path that starts with the managed path lies
    between the two: it starts with the managed path and the path starts
    with it. *)
Theorem getManagedItem_between (managedPath path : string) :
  JS.startsWith path managedPath = true ->
  JS.startsWith (FSInfo.getManagedItem managedPath path) managedPath = true
  /\ JS.startsWith path (FSInfo.getManagedItem managedPath path) = true.
Proof.
  intros H. apply startsWith_inv in H as [r ->].
  rewrite getManagedItem_app. split.
  - apply startsWith_app.
  - apply prefix_app, prefix_slice_to.
Qed.

Lemma getManagedItem_between_witness :
  JS.startsWith (FSInfo.getManagedItem "/node_modules/" "/node_modules/pkg/lib/x.js")
    "/node_modules/" = true
  /\ JS.startsWith "/node_modules/pkg/lib/x.js"
       (FSInfo.getManagedItem "/node_modules/" "/node_modules/pkg/lib/x.js") = true.
Proof.
  apply (getManagedItem_between "/node_modules/" "/node_modules/pkg/lib/x.js").
  reflexivity.
Defined.

(** ** The caches and their getters *)

Section CacheFacts.

Import FSInfo.

Lemma add_loop {V} (cache map : gmap string V) path :
  map_fold (fun path ts cache => <[path := ts]> cache) cache map !! path
  = match map !! path with
    | Some ts => Some ts
    | None => cache !! path
    end.
Proof.
  rewrite mergeMaps_loop, lookup_union.
  destruct (map !! path), (cache !! path); reflexivity.
Qed.

Lemma deprecated_lookup cache path :
  deprecated cache !! path
  = match cache !! path with
    | Some (Some info) => Some (safeTime info)
    | _ => None
    end.
Proof.
  unfold deprecated.
  apply (map_fold_weak_ind
           (fun (r : gmap string JS.number) m =>
              r !! path = match m !! path with
                          | Some (Some info) => Some (safeTime info)
                          | _ => None
                          end)).
  - rewrite !lookup_empty. reflexivity.
  - intros i x m r Hi IH. destruct (decide (i = path)) as [->|Hne].
    + rewrite lookup_insert_eq. rewrite Hi in IH.
      destruct x as [info|]; [apply lookup_insert_eq|exact IH].
    + rewrite (lookup_insert_ne m) by exact Hne.
      destruct x as [info|]; [|exact IH].
      rewrite lookup_insert_ne by exact Hne. exact IH.
Qed.

Lemma filter_hidden (normalize : string -> string) files :
  List.filter not_hidden
    (List.map normalize
       (List.filter (fun file => not_hidden (normalize file)) files))
  = List.filter not_hidden (List.map normalize files).
Proof.
  induction files as [|file files IH]; simpl; [reflexivity|].
  destruct (not_hidden (normalize file)) eqn:H; simpl; rewrite ?H, IH; reflexivity.
Qed.

End CacheFacts.

(** Timestamps added with [addFileTimestamps] are served from the cache:
    [getFileTimestamp] calls back at once with the value added for a path
    of the map, [null] included, and does for every other path what it did
    before. *)
Theorem addFileTimestamps_then_getFileTimestamp
    (map : gmap string (option FSInfo.FileSystemInfoEntry))
    (this : FSInfo.FileSystemInfo) (path : string) :
  FSInfo.getFileTimestamp path (FSInfo.addFileTimestamps map this)
  = match map !! path with
    | Some ts => FSInfo.Called (CbOk ts)
    | None => FSInfo.getFileTimestamp path this
    end.
Proof.
  unfold FSInfo.getFileTimestamp, FSInfo.addFileTimestamps. simpl.
  rewrite add_loop. destruct (map !! path); reflexivity.
Qed.

(** [getDeprecatedFileTimestamps] has for a path the [safeTime] of its
    cached entry, and no entry for a path that is not cached or cached as
    [null]; [getDeprecatedContextTimestamps] likewise. *)
Theorem getDeprecatedFileTimestamps_lookup (this : FSInfo.FileSystemInfo)
    (path : string) :
  FSInfo.getDeprecatedFileTimestamps this !! path
  = match FSInfo.getFileTimestamp path this with
    | FSInfo.Called (CbOk (Some info)) => Some (FSInfo.safeTime info)
    | _ => None
    end
  /\ FSInfo.getDeprecatedContextTimestamps this !! path
     = match FSInfo.getContextTimestamp path this with
       | FSInfo.Called (CbOk (Some info)) => Some (FSInfo.safeTime info)
       | _ => None
       end.
Proof.
  unfold FSInfo.getDeprecatedFileTimestamps, FSInfo.getDeprecatedContextTimestamps,
    FSInfo.getFileTimestamp, FSInfo.getContextTimestamp.
  rewrite !deprecated_lookup.
  split.
  - destruct (FSInfo._fileTimestamps this !! path) as [[?|]|]; reflexivity.
  - destruct (FSInfo._contextTimestamps this !! path) as [[?|]|]; reflexivity.
Qed.

(** A read that called back without an error is remembered: the getter of
    the same path then calls back at once with the same value, for each of
    the four processors. A read that called back with an error leaves the
    answer of every getter as it was. *)
Theorem processors_fill_the_caches (md4 : list string -> string)
    (normalizeNFC : string -> string) (sort : list string -> list string)
    (join : string -> string -> string)
    (unchecked : list string -> list (cb_args (option string)) -> JS.result string)
    (path : string) (w : FSInfo.World) :
  (forall reply,
     let r := FSInfo._readFileTimestamp path reply w in
     match r.2 with
     | CbOk v => FSInfo.getFileTimestamp path (FSInfo.this r.1) = FSInfo.Called (CbOk v)
     | CbErr _ => r.1 = w
     end)
  /\ (forall reply,
        let r := FSInfo._readFileHash md4 path reply w in
        match r.2 with
        | CbOk v => FSInfo.getFileHash path (FSInfo.this r.1) = FSInfo.Called (CbOk v)
        | CbErr _ => r.1 = w
        end)
  /\ (let r := FSInfo._readContextTimestamp path w in
      r.2 = CbOk None
      /\ FSInfo.getContextTimestamp path (FSInfo.this r.1) = FSInfo.Called (CbOk None))
  /\ (forall reply children r,
        FSInfo._readContextHash md4 normalizeNFC sort join unchecked path reply
          children w = JS.Return r ->
        match r.2 with
        | CbOk v => FSInfo.getContextHash path (FSInfo.this r.1) = FSInfo.Called (CbOk v)
        | CbErr _ => r.1 = w
        end).
Proof.
  split; [|split; [|split]].
  - intros [err|stat]; simpl.
    + destruct (is_ENOENT err); simpl; [|reflexivity].
      unfold FSInfo.getFileTimestamp. simpl. rewrite lookup_insert_eq. reflexivity.
    + unfold FSInfo.getFileTimestamp. simpl. rewrite lookup_insert_eq. reflexivity.
  - intros [err|content]; simpl.
    + destruct (is_ENOENT err); simpl; [|reflexivity].
      unfold FSInfo.getFileHash. simpl. rewrite lookup_insert_eq. reflexivity.
    + unfold FSInfo.getFileHash. simpl. rewrite lookup_insert_eq. reflexivity.
  - simpl. split; [reflexivity|].
    unfold FSInfo.getContextTimestamp. simpl. rewrite lookup_insert_eq. reflexivity.
  - intros [err|files] children r H.
    + unfold FSInfo._readContextHash, FSInfo.readdir_callback in H.
      destruct (is_ENOENT err); injection H as <-; simpl; [|reflexivity].
      unfold FSInfo.getContextHash. simpl. rewrite lookup_insert_eq. reflexivity.
    + apply _readContextHash_listed in H as (w' & results & digest & _ & _ & ->).
      simpl. unfold FSInfo.getContextHash. simpl. rewrite lookup_insert_eq.
      reflexivity.
Qed.

(** The entries of a directory whose normalized name starts with a dot
    have no part in its hash: [_readContextHash] does the same with and
    without them in what [fs.readdir] lists. *)
Theorem _readContextHash_ignores_hidden_entries (md4 : list string -> string)
    (normalizeNFC : string -> string) (sort : list string -> list string)
    (join : string -> string -> string)
    (unchecked : list string -> list (cb_args (option string)) -> JS.result string)
    (path : string) (files : list string) (children : string -> FSInfo.Child)
    (w : FSInfo.World) :
  FSInfo._readContextHash md4 normalizeNFC sort join unchecked path
    (CbOk (List.filter (fun file => FSInfo.not_hidden (normalizeNFC file)) files))
    children w
  = FSInfo._readContextHash md4 normalizeNFC sort join unchecked path (CbOk files)
      children w.
Proof.
  unfold FSInfo._readContextHash, FSInfo.readdir_callback.
  rewrite filter_hidden. reflexivity.
Qed.

(** ** [Pack]: storing and restoring *)

Section PackLaws.

Context {Data : Type}.

Import PackFile.

Implicit Types p : Pack Data.

Lemma used_again (identifier : string) (X : gset string) :
  {[identifier]} ∪ ({[identifier]} ∪ X) = {[identifier]} ∪ X.
Proof. rewrite (assoc_L (∪)), (idemp_L (∪)). reflexivity. Qed.

Lemma set_fresh identifier etag (d : option Data) p :
  identifier ∉ unserializable p ->
  set identifier etag d p
  = mkPack (version p) (<[identifier := etag]> (etags p))
      (<[identifier := Inline d]> (content p)) (buildSnapshot p) (lastSizes p)
      (unserializable p) ({[identifier]} ∪ used p) true (logged p).
Proof. intros H. unfold set. rewrite bool_decide_eq_false_2 by exact H. reflexivity. Qed.

Lemma get_set_same identifier etag (d : option Data) p :
  identifier ∉ unserializable p ->
  get identifier etag (set identifier etag d p) = (set identifier etag d p, d).
Proof.
  intros H. rewrite set_fresh by exact H. unfold get. simpl.
  rewrite !lookup_insert_eq, String.eqb_refl. simpl.
  rewrite used_again. reflexivity.
Qed.

Lemma get_set_other_etag identifier etag etag' (d : option Data) p :
  identifier ∉ unserializable p -> etag' <> etag ->
  get identifier etag' (set identifier etag d p) = (set identifier etag d p, None).
Proof.
  intros H Hne. rewrite set_fresh by exact H. unfold get. simpl.
  rewrite lookup_insert_eq.
  destruct (String.eqb_spec etag etag') as [->|_]; [contradiction|]. reflexivity.
Qed.

(** The value [_unpack] returns is the data of the entry. *)
Lemma _unpack_value identifier (entry : PackEntry Data) currentlyInline p :
  (_unpack identifier entry currentlyInline p).2 = data entry.
Proof.
  unfold _unpack. destruct (data entry); reflexivity.
Qed.

(** The value [get] returns depends on the two maps only. *)
Lemma get_value identifier etag p p' :
  etags p !! identifier = etags p' !! identifier ->
  content p !! identifier = content p' !! identifier ->
  (get identifier etag p).2 = (get identifier etag p').2.
Proof.
  intros He Hc. unfold get. rewrite He. destruct (etags p' !! identifier); [|reflexivity].
  destruct (negb _); [reflexivity|]. simpl. rewrite Hc.
  destruct (content p' !! identifier) as [[?|?]|]; try reflexivity.
  rewrite !_unpack_value. reflexivity.
Qed.

Lemma get_set_other identifier identifier' etag etag' (d : option Data) p :
  identifier' <> identifier ->
  (get identifier' etag' (set identifier etag d p)).2 = (get identifier' etag' p).2.
Proof.
  intros Hne. apply get_value; unfold set; case_bool_decide; try reflexivity; simpl;
    apply lookup_insert_ne; congruence.
Qed.

End PackLaws.

Section DeserializeFacts.

Context {Data : Type}.

Import PackFile.

Implicit Types p : Pack Data.

Lemma deserialize_entry_invalid p item :
  invalid (deserialize_entry p item) = true
  <-> invalid p = true
      \/ exists entry d, item.2 = StoredInline entry /\ data entry = Some d
                         /\ gt_num (size entry) MAX_INLINE_SIZE = true.
Proof.
  unfold deserialize_entry. destruct item as [identifier [load|entry]]; simpl.
  - split; [auto|]. intros [H|(e & d & [=] & _)]. exact H.
  - unfold _unpack. destruct (data entry) as [d|] eqn:Hd; simpl.
    + destruct (gt_num (size entry) MAX_INLINE_SIZE) eqn:Hgt; simpl.
      * split; [|reflexivity]. intros _. right. exists entry, d. auto.
      * split; [auto|]. intros [H|(e & d' & [= <-] & _ & Hgt')]; congruence.
    + split; [auto|]. intros [H|(e & d' & [= <-] & Hd' & _)]; congruence.
Qed.

Lemma foldl_deserialize_invalid entries p :
  invalid (foldl deserialize_entry p entries) = true
  <-> invalid p = true
      \/ exists identifier entry d,
           In (identifier, StoredInline entry) entries
           /\ data entry = Some d /\ gt_num (size entry) MAX_INLINE_SIZE = true.
Proof.
  revert p. induction entries as [|item entries IH]; intros p; simpl.
  - split; [auto|]. intros [H|(? & ? & ? & [] & _)]. exact H.
  - rewrite IH, deserialize_entry_invalid. split.
    + intros [[H|(entry & d & Hitem & Hd & Hgt)]|(i & entry & d & Hin & Hd & Hgt)].
      * left. exact H.
      * right. exists item.1, entry, d. split; [left|auto].
        destruct item; simpl in *; congruence.
      * right. exists i, entry, d. auto.
    + intros [H|(i & entry & d & [Hin|Hin] & Hd & Hgt)].
      * auto.
      * left. right. exists entry, d. subst item. auto.
      * right. exists i, entry, d. auto.
Qed.

Lemma deserialize_entry_unserializable p item identifier :
  identifier ∈ unserializable (deserialize_entry p item)
  <-> identifier ∈ unserializable p
      \/ exists entry, item = (identifier, StoredInline entry) /\ data entry = None.
Proof.
  unfold deserialize_entry. destruct item as [i [load|entry]]; simpl.
  - split; [auto|]. intros [H|(e & [=] & _)]. exact H.
  - unfold _unpack. destruct (data entry) as [d|] eqn:Hd; simpl.
    + destruct (gt_num (size entry) MAX_INLINE_SIZE); simpl;
        (split; [auto|]; intros [H|(e & [= _ <-] & Hd')]; [exact H|congruence]).
    + rewrite elem_of_union, elem_of_singleton. split.
      * intros [->|H]; [right; exists entry; auto|auto].
      * intros [H|(e & [= -> <-] & _)]; auto.
Qed.

Lemma foldl_deserialize_unserializable entries p identifier :
  identifier ∈ unserializable (foldl deserialize_entry p entries)
  <-> identifier ∈ unserializable p
      \/ exists entry, In (identifier, StoredInline entry) entries
                       /\ data entry = None.
Proof.
  revert p. induction entries as [|item entries IH]; intros p; simpl.
  - split; [auto|]. intros [H|(? & [] & _)]. exact H.
  - rewrite IH, deserialize_entry_unserializable. split.
    + intros [[H|(entry & -> & Hd)]|(entry & Hin & Hd)]; eauto 6.
    + intros [H|(entry & [->|Hin] & Hd)]; eauto 6.
Qed.

Lemma deserialize_entry_etags p item :
  etags (deserialize_entry p item) = etags p.
Proof.
  unfold deserialize_entry. destruct item as [i [load|entry]]; simpl; [reflexivity|].
  unfold _unpack. destruct (data entry); simpl; [|reflexivity].
  destruct (gt_num _ _); reflexivity.
Qed.

Lemma deserialize_entry_content p item :
  content (deserialize_entry p item) = <[item.1 := content_of item.2]> (content p).
Proof.
  unfold deserialize_entry. destruct item as [i [load|entry]]; simpl; [reflexivity|].
  unfold _unpack. destruct (data entry); simpl; [|reflexivity].
  destruct (gt_num _ _); reflexivity.
Qed.

Lemma foldl_deserialize_etags entries p :
  etags (foldl deserialize_entry p entries) = etags p.
Proof.
  revert p. induction entries as [|item entries IH]; intros p; simpl; [reflexivity|].
  rewrite IH. apply deserialize_entry_etags.
Qed.

Lemma foldl_deserialize_content_other entries p identifier :
  ~ In identifier (List.map fst entries) ->
  content (foldl deserialize_entry p entries) !! identifier = content p !! identifier.
Proof.
  revert p. induction entries as [|item entries IH]; intros p Hnot; simpl;
    [reflexivity|].
  simpl in Hnot. rewrite IH by tauto.
  rewrite deserialize_entry_content. apply lookup_insert_ne. tauto.
Qed.

Lemma foldl_deserialize_content entries p identifier stored :
  List.NoDup (List.map fst entries) ->
  In (identifier, stored) entries ->
  content (foldl deserialize_entry p entries) !! identifier
  = Some (content_of stored).
Proof.
  revert p. induction entries as [|item entries IH]; intros p Hnodup Hin; simpl;
    [destruct Hin|].
  simpl in Hnodup. inversion Hnodup as [|? ? Hfresh Hrest]; subst.
  destruct Hin as [->|Hin].
  - rewrite foldl_deserialize_content_other by exact Hfresh.
    rewrite deserialize_entry_content. apply lookup_insert_eq.
  - apply IH; assumption.
Qed.

End DeserializeFacts.

(** What is stored under an identifier is restored with the same etag
    and not with another one, and storing under one identifier does not
    change what is restored for another one. The identifier is not one of
    the [unserializable] ones. *)
Theorem get_after_set {Data : Type} (identifier etag : string) (d : option Data)
    (p : PackFile.Pack Data) :
  identifier ∉ PackFile.unserializable p ->
  PackFile.get identifier etag (PackFile.set identifier etag d p)
  = (PackFile.set identifier etag d p, d)
  /\ (forall etag', etag' <> etag ->
        PackFile.get identifier etag' (PackFile.set identifier etag d p)
        = (PackFile.set identifier etag d p, None))
  /\ (forall identifier' etag', identifier' <> identifier ->
        (PackFile.get identifier' etag' (PackFile.set identifier etag d p)).2
        = (PackFile.get identifier' etag' p).2).
Proof.
  intros H. split; [apply get_set_same, H|].
  split; [intros etag'; apply get_set_other_etag, H|].
  intros identifier' etag'. apply get_set_other.
Qed.

Lemma get_after_set_witness :
  PackFile.get "a" "etag1" (PackFile.set "a" "etag1" (Some 7) (PackFile.new_Pack "v1"))
  = (PackFile.set "a" "etag1" (Some 7) (PackFile.new_Pack "v1"), Some 7)
  /\ (forall etag', etag' <> "etag1"%string ->
        PackFile.get "a" etag' (PackFile.set "a" "etag1" (Some 7) (PackFile.new_Pack "v1"))
        = (PackFile.set "a" "etag1" (Some 7) (PackFile.new_Pack "v1"), None))
  /\ (forall identifier' etag', identifier' <> "a"%string ->
        (PackFile.get identifier' etag'
           (PackFile.set "a" "etag1" (Some 7) (PackFile.new_Pack "v1"))).2
        = (PackFile.get identifier' etag' (PackFile.new_Pack "v1")).2).
Proof.
  apply (get_after_set "a" "etag1" (Some 7) (PackFile.new_Pack "v1")).
  simpl. apply not_elem_of_empty.
Defined.

(** A second [get] with the same arguments returns the same value and
    leaves the pack as the first one left it: a lazy entry is unpacked and
    moved at most once. *)
Theorem get_is_idempotent {Data : Type} (identifier etag : string)
    (p : PackFile.Pack Data) :
  PackFile.get identifier etag (PackFile.get identifier etag p).1
  = PackFile.get identifier etag p.
Proof.
  unfold PackFile.get at 2 3.
  destruct (PackFile.etags p !! identifier) as [etagInCache|] eqn:He.
  2:{ simpl. unfold PackFile.get. rewrite He. reflexivity. }
  destruct (negb (String.eqb etagInCache etag)) eqn:Hetag.
  { simpl. unfold PackFile.get. rewrite He, Hetag. reflexivity. }
  simpl.
  destruct (PackFile.content p !! identifier) as [[d|load]|] eqn:Hc; simpl.
  - unfold PackFile.get. simpl. rewrite He, Hetag, Hc, used_again. reflexivity.
  - unfold PackFile._unpack. simpl.
    destruct (PackFile.data load) as [d|] eqn:Hd; simpl.
    + destruct (PackFile.le_num (PackFile.size load) PackFile.MAX_INLINE_SIZE) eqn:Hle; simpl.
      * unfold PackFile.get. simpl. rewrite He, Hetag, lookup_insert_eq, used_again.
        reflexivity.
      * unfold PackFile.get. simpl. rewrite He, Hetag, Hc. unfold PackFile._unpack. simpl.
        rewrite Hd, Hle. simpl. rewrite insert_insert_eq, used_again. reflexivity.
    + unfold PackFile.get. simpl. rewrite He, Hetag, Hc. unfold PackFile._unpack. simpl.
      rewrite Hd. simpl. rewrite used_again.
      f_equal. f_equal; [|rewrite (assoc_L (∪)), (idemp_L (∪)); reflexivity].
      apply delete_id. apply lookup_delete_eq.
  - unfold PackFile.get. simpl. rewrite He, Hetag, Hc, used_again. reflexivity.
Qed.

(** [deserialize] leaves the pack [invalid] exactly when one of the
    inline entries it read has data and a size above [MAX_INLINE_SIZE]. *)
Theorem deserialize_invalid_iff {Data : Type} (version : string)
    (etags : gmap string string) (unserializable : gset string)
    (buildSnapshot : option FSInfo.Snapshot)
    (entries : list (string * PackFile.Stored Data)) :
  PackFile.invalid
    (PackFile.deserialize version etags unserializable buildSnapshot entries) = true
  <-> exists identifier entry d,
        In (identifier, PackFile.StoredInline entry) entries
        /\ PackFile.data entry = Some d
        /\ PackFile.gt_num (PackFile.size entry) PackFile.MAX_INLINE_SIZE = true.
Proof.
  unfold PackFile.deserialize. rewrite foldl_deserialize_invalid. simpl.
  split; [intros [H|H]; [discriminate|exact H]|auto].
Qed.

(** An identifier whose inline entry came back from the file without data
    is not stored again: [set] leaves the deserialized pack as it is. *)
Theorem unserializable_entries_are_not_stored_again {Data : Type} (version : string)
    (etags : gmap string string) (unserializable : gset string)
    (buildSnapshot : option FSInfo.Snapshot)
    (entries : list (string * PackFile.Stored Data))
    (identifier etag : string) (entry : PackFile.PackEntry Data) (d : option Data) :
  In (identifier, PackFile.StoredInline entry) entries ->
  PackFile.data entry = None ->
  PackFile.set identifier etag d
    (PackFile.deserialize version etags unserializable buildSnapshot entries)
  = PackFile.deserialize version etags unserializable buildSnapshot entries.
Proof.
  intros Hin Hd. unfold PackFile.set. rewrite bool_decide_eq_true_2; [reflexivity|].
  unfold PackFile.deserialize. apply foldl_deserialize_unserializable.
  right. exists entry. auto.
Qed.

Lemma unserializable_entries_are_not_stored_again_witness :
  PackFile.set "a" "etag2" (Some "blob"%string)
    (PackFile.deserialize "v1" {["a" := "etag1"%string]} ∅ None
       [("a"%string, PackFile.StoredInline Inputs.entry_undefined)])
  = PackFile.deserialize "v1" {["a" := "etag1"%string]} ∅ None
      [("a"%string, PackFile.StoredInline Inputs.entry_undefined)].
Proof.
  apply (unserializable_entries_are_not_stored_again "v1" {["a" := "etag1"%string]}
           ∅ None [("a"%string, PackFile.StoredInline Inputs.entry_undefined)]
           "a" "etag2" Inputs.entry_undefined (Some "blob"%string)).
  - left. reflexivity.
  - reflexivity.
Defined.

(** What the file held is what is restored: for a deserialized pack whose
    entries have distinct identifiers, [get] with the etag of the file
    returns the data of the entry stored under the identifier, be it
    inline or lazy. *)
Theorem get_after_deserialize {Data : Type} (version : string)
    (etags : gmap string string) (unserializable : gset string)
    (buildSnapshot : option FSInfo.Snapshot)
    (entries : list (string * PackFile.Stored Data))
    (identifier etag : string) (stored : PackFile.Stored Data) :
  List.NoDup (List.map fst entries) ->
  In (identifier, stored) entries ->
  etags !! identifier = Some etag ->
  (PackFile.get identifier etag
     (PackFile.deserialize version etags unserializable buildSnapshot entries)).2
  = match stored with
    | PackFile.StoredLazy load => PackFile.data load
    | PackFile.StoredInline entry => PackFile.data entry
    end.
Proof.
  intros Hnodup Hin Hetag. unfold PackFile.get, PackFile.deserialize.
  rewrite foldl_deserialize_etags. simpl. rewrite Hetag, String.eqb_refl. simpl.
  rewrite (foldl_deserialize_content _ _ _ stored) by assumption.
  destruct stored as [load|entry]; simpl; [apply _unpack_value|reflexivity].
Qed.

Lemma get_after_deserialize_witness :
  (PackFile.get "a" "etag1"
     (PackFile.deserialize "v1" {["a" := "etag1"%string]} ∅ None
        [("a"%string, PackFile.StoredLazy Inputs.entry_large)])).2
  = PackFile.data Inputs.entry_large.
Proof.
  apply (get_after_deserialize "v1" {["a" := "etag1"%string]} ∅ None
           [("a"%string, PackFile.StoredLazy Inputs.entry_large)]
           "a" "etag1" (PackFile.StoredLazy Inputs.entry_large)).
  - repeat constructor. simpl. tauto.
  - left. reflexivity.
  - reflexivity.
Defined.

(** ** [Pack]: collecting garbage *)

Section GarbageFacts.

Context {Data : Type}.

Import PackFile.

Implicit Types a : Accessed Data.

Lemma _updateLastAccess_lookup now a identifier :
  lastAccess (_updateLastAccess now a) !! identifier = last_access now a identifier.
Proof.
  unfold _updateLastAccess, last_access. simpl.
  set (P := fun (r : gmap string Z) (X : gset string) =>
              r !! identifier
              = if bool_decide (identifier ∈ X) then Some now
                else lastAccess a !! identifier).
  change (P (set_fold (fun i r => <[i := now]> r) (lastAccess a) (used (pack a)))
            (used (pack a))).
  apply set_fold_ind_L; subst P; simpl.
  - reflexivity.
  - intros x X r Hx IH. destruct (decide (x = identifier)) as [->|Hne].
    + rewrite lookup_insert_eq, bool_decide_eq_true_2; [reflexivity|].
      apply elem_of_union_l, elem_of_singleton. reflexivity.
    + rewrite lookup_insert_ne, IH by exact Hne.
      rewrite (bool_decide_ext (identifier ∈ {[x]} ∪ X) (identifier ∈ X));
        [reflexivity|].
      rewrite elem_of_union, elem_of_singleton.
      split; [|auto]. intros [H|H]; [congruence|exact H].
Qed.

Lemma collect_loop maxAge now a0 (m : gmap string Z) identifier :
  let a := map_fold (collect maxAge now) a0 m in
  match m !! identifier with
  | Some last => if maxAge <? now - last then removed a identifier
                 else kept a0 a identifier
  | None => kept a0 a identifier
  end.
Proof.
  simpl.
  apply (map_fold_weak_ind
           (fun r m => match m !! identifier with
                       | Some last => if maxAge <? now - last then removed r identifier
                                      else kept a0 r identifier
                       | None => kept a0 r identifier
                       end)).
  - rewrite lookup_empty. repeat split.
  - intros i x m' r Hi IH. destruct (decide (i = identifier)) as [->|Hne].
    + rewrite lookup_insert_eq. rewrite Hi in IH. unfold collect.
      destruct (maxAge <? now - x); [|exact IH].
      repeat split; simpl; apply lookup_delete_eq.
    + rewrite lookup_insert_ne by exact Hne. unfold collect.
      destruct (maxAge <? now - x); [|exact IH].
      destruct (m' !! identifier) as [last|];
        [destruct (maxAge <? now - last)|];
        destruct IH as (H1 & H2 & H3);
        repeat split; simpl; rewrite lookup_delete_ne by exact Hne; assumption.
Qed.

End GarbageFacts.

(** [collectGarbage] removes from [etags], [content] and [lastAccess]
    exactly the identifiers whose last access, as [_updateLastAccess]
    leaves it, is more than [maxAge] before the second reading of the
    clock; every other identifier keeps its entries. *)
Theorem collectGarbage_removes_exactly_the_old {Data : Type} (maxAge now1 now2 : Z)
    (a : PackFile.Accessed Data) (identifier : string) :
  let a' := PackFile.collectGarbage maxAge now1 now2 a in
  match PackFile.last_access now1 a identifier with
  | Some last =>
      if maxAge <? now2 - last then PackFile.removed a' identifier
      else PackFile.etags (PackFile.pack a') !! identifier
           = PackFile.etags (PackFile.pack a) !! identifier
           /\ PackFile.content (PackFile.pack a') !! identifier
              = PackFile.content (PackFile.pack a) !! identifier
           /\ PackFile.lastAccess a' !! identifier = Some last
  | None =>
      PackFile.etags (PackFile.pack a') !! identifier
      = PackFile.etags (PackFile.pack a) !! identifier
      /\ PackFile.content (PackFile.pack a') !! identifier
         = PackFile.content (PackFile.pack a) !! identifier
      /\ PackFile.lastAccess a' !! identifier = None
  end.
Proof.
  cbv zeta. unfold PackFile.collectGarbage.
  pose proof (collect_loop maxAge now2 (PackFile._updateLastAccess now1 a)
                (PackFile.lastAccess (PackFile._updateLastAccess now1 a)) identifier) as H.
  cbv zeta in H. rewrite (_updateLastAccess_lookup now1 a identifier) in H.
  destruct (PackFile.last_access now1 a identifier) as [last|] eqn:Hlast.
  - destruct (maxAge <? now2 - last); [exact H|].
    destruct H as (H1 & H2 & H3). repeat split; [exact H1|exact H2|].
    rewrite H3, _updateLastAccess_lookup. exact Hlast.
  - destruct H as (H1 & H2 & H3). repeat split; [exact H1|exact H2|].
    rewrite H3, _updateLastAccess_lookup. exact Hlast.
Qed.

(** [afterAllStored] drops nothing that was stored or restored since the
    last update of the access times: when the two readings of the clock
    are no more than two days apart, such an identifier keeps its etag and
    its content, and [get] returns for it what it returned before. *)
Theorem afterAllStored_keeps_used {Data : Type} (now1 now2 : Z)
    (a : PackFile.Accessed Data) (identifier etag : string) :
  identifier ∈ PackFile.used (PackFile.pack a) ->
  now2 - now1 <= 172800000 ->
  let a' := PackFile.afterAllStored now1 now2 a in
  PackFile.etags (PackFile.pack a') !! identifier
  = PackFile.etags (PackFile.pack a) !! identifier
  /\ PackFile.content (PackFile.pack a') !! identifier
     = PackFile.content (PackFile.pack a) !! identifier
  /\ (PackFile.get identifier etag (PackFile.pack a')).2
     = (PackFile.get identifier etag (PackFile.pack a)).2.
Proof.
  intros Hused Hclock a'.
  assert (H : PackFile.etags (PackFile.pack a') !! identifier
              = PackFile.etags (PackFile.pack a) !! identifier
              /\ PackFile.content (PackFile.pack a') !! identifier
                 = PackFile.content (PackFile.pack a) !! identifier).
  { subst a'. unfold PackFile.afterAllStored.
    destruct (negb (PackFile.invalid (PackFile.pack a))); [split; reflexivity|].
    unfold PackFile.collectGarbage.
    pose proof (collect_loop (1000 * 60 * 60 * 24 * 2) now2
                  (PackFile._updateLastAccess now1 a)
                  (PackFile.lastAccess (PackFile._updateLastAccess now1 a))
                  identifier) as H.
    cbv zeta in H. rewrite (_updateLastAccess_lookup now1 a identifier) in H.
    unfold PackFile.last_access in H.
    rewrite bool_decide_eq_true_2 in H by exact Hused.
    replace (1000 * 60 * 60 * 24 * 2 <? now2 - now1) with false in H
      by (symmetry; apply Z.ltb_ge; lia).
    destruct H as (H1 & H2 & _). split; assumption. }
  destruct H as [H1 H2]. split; [exact H1|]. split; [exact H2|].
  apply get_value; assumption.
Qed.

Lemma afterAllStored_keeps_used_witness :
  PackFile.etags
    (PackFile.pack
       (PackFile.afterAllStored 1000 2000
          (PackFile.mkAccessed
             (PackFile.set "a" "etag1" (Some 7) (PackFile.new_Pack "v1")) ∅)))
  !! "a"%string
  = PackFile.etags (PackFile.set "a" "etag1" (Some 7) (PackFile.new_Pack "v1"))
    !! "a"%string
  /\ PackFile.content
       (PackFile.pack
          (PackFile.afterAllStored 1000 2000
             (PackFile.mkAccessed
                (PackFile.set "a" "etag1" (Some 7) (PackFile.new_Pack "v1")) ∅)))
     !! "a"%string
     = PackFile.content (PackFile.set "a" "etag1" (Some 7) (PackFile.new_Pack "v1"))
       !! "a"%string
  /\ (PackFile.get "a" "etag1"
        (PackFile.pack
           (PackFile.afterAllStored 1000 2000
              (PackFile.mkAccessed
                 (PackFile.set "a" "etag1" (Some 7) (PackFile.new_Pack "v1")) ∅)))).2
     = (PackFile.get "a" "etag1"
          (PackFile.set "a" "etag1" (Some 7) (PackFile.new_Pack "v1"))).2.
Proof.
  apply (afterAllStored_keeps_used 1000 2000
           (PackFile.mkAccessed
              (PackFile.set "a" "etag1" (Some 7) (PackFile.new_Pack "v1")) ∅)
           "a" "etag1").
  - apply (bool_decide_unpack _). vm_compute. exact I.
  - lia.
Defined.

(** ** [PackFileCacheStrategy]: the restored pack *)

(** The pack that [packPromise] resolves to: once the reads of the check
    have answered it resolves, never rejects, and always to a pack of the
    requested version, which is the restored pack or a new one. A restored
    pack of that version with a build snapshot is kept exactly when
    [checkSnapshotValid] accepts the snapshot. *)
Theorem packPromise_restores {Data : Type} (fileSystemInfo : FSInfo.FileSystemInfo)
    (version' : string) (restored : cb_args (option (PackFile.Deserialized Data)))
    (done : list FSInfo.CheckSnapshotValid.completion) :
  (forall cacheEntry snapshot,
     restored = CbOk (Some (PackFile.APack cacheEntry)) ->
     PackFile.buildSnapshot cacheEntry = Some snapshot ->
     FSInfo.CheckSnapshotValid.answers fileSystemInfo snapshot done) ->
  exists pack,
    PackFile.packPromise fileSystemInfo version' restored done = Some pack
    /\ PackFile.version pack = version'
    /\ (pack = PackFile.new_Pack version'
        \/ restored = CbOk (Some (PackFile.APack pack)))
    /\ (forall cacheEntry snapshot,
          restored = CbOk (Some (PackFile.APack cacheEntry)) ->
          PackFile.version cacheEntry = version' ->
          PackFile.buildSnapshot cacheEntry = Some snapshot ->
          (pack = cacheEntry
           <-> FSInfo.CheckSnapshotValid.cached_facts_hold fileSystemInfo snapshot
               /\ Forall (fun d => FSInfo.CheckSnapshotValid.passed
                                     (FSInfo.startTime snapshot) d = true) done)).
Proof.
  intros Hdone. unfold PackFile.packPromise.
  destruct restored as [err|[[|cacheEntry]|]];
    try (exists (PackFile.new_Pack version');
         split; [reflexivity|]; split; [reflexivity|]; split; [auto|];
         intros c s [=]).
  destruct (String.eqb_spec (PackFile.version cacheEntry) version') as [Hv|Hv]; simpl.
  2:{ exists (PackFile.new_Pack version').
      split; [reflexivity|]. split; [reflexivity|]. split; [auto|].
      intros c s [= <-] Hc. contradiction. }
  destruct (PackFile.buildSnapshot cacheEntry) as [snapshot|] eqn:Hs.
  2:{ exists cacheEntry.
      split; [reflexivity|]. split; [exact Hv|]. split; [auto|].
      intros c s [= <-] _ Hs'. congruence. }
  specialize (Hdone cacheEntry snapshot eq_refl Hs).
  destruct (run_verdict fileSystemInfo snapshot done Hdone) as [Hcalled Hiff].
  cbv zeta in Hcalled, Hiff.
  destruct Hcalled as [Hc|Hc]; rewrite Hc in *.
  - exists cacheEntry. split; [reflexivity|]. split; [exact Hv|]. split; [auto|].
    intros c s [= <-] _ Hs'. rewrite Hs in Hs'. injection Hs' as <-.
    split; [intros _; apply Hiff; reflexivity|reflexivity].
  - exists (PackFile.new_Pack version'). split; [reflexivity|]. split; [reflexivity|].
    split; [auto|].
    intros c s [= <-] _ Hs'. rewrite Hs in Hs'. injection Hs' as <-. split.
    + intros Heq. rewrite <- Heq in Hs. discriminate.
    + intros H. apply Hiff in H. discriminate.
Qed.

Lemma packPromise_restores_witness :
  exists pack,
    PackFile.packPromise Inputs.seeded_info "v1"
      (CbOk (Some (PackFile.APack
                     (PackFile.mkPack (Data := string) "v1" ∅ ∅
                        (Some Inputs.snapshot_at_2000) ∅ ∅ ∅ false []))))
      [] = Some pack
    /\ PackFile.version pack = "v1"%string
    /\ (pack = PackFile.new_Pack "v1"
        \/ CbOk (Some (PackFile.APack
                         (PackFile.mkPack (Data := string) "v1" ∅ ∅
                            (Some Inputs.snapshot_at_2000) ∅ ∅ ∅ false [])))
           = CbOk (Some (PackFile.APack pack)))
    /\ (forall cacheEntry snapshot,
          CbOk (Some (PackFile.APack
                        (PackFile.mkPack (Data := string) "v1" ∅ ∅
                           (Some Inputs.snapshot_at_2000) ∅ ∅ ∅ false [])))
          = CbOk (Some (PackFile.APack cacheEntry)) ->
          PackFile.version cacheEntry = "v1"%string ->
          PackFile.buildSnapshot cacheEntry = Some snapshot ->
          (pack = cacheEntry
           <-> FSInfo.CheckSnapshotValid.cached_facts_hold Inputs.seeded_info snapshot
               /\ Forall (fun d => FSInfo.CheckSnapshotValid.passed
                                     (FSInfo.startTime snapshot) d = true) [])).
Proof.
  apply (packPromise_restores Inputs.seeded_info "v1"
           (CbOk (Some (PackFile.APack
                          (PackFile.mkPack (Data := string) "v1" ∅ ∅
                             (Some Inputs.snapshot_at_2000) ∅ ∅ ∅ false []))))
           []).
  intros cacheEntry snapshot [= <-] [= <-].
  unfold FSInfo.CheckSnapshotValid.answers. vm_compute. apply Permutation_refl.
Defined.

(** ** [_getManagedItemInfo] *)

Section InfoFacts.

Import FSInfo.

Lemma has_at_info name version : has_at (name ++ "@" ++ version)%string = true.
Proof.
  induction name as [|c name IH]; [reflexivity|].
  change (Nat.eqb (Ascii.nat_of_ascii c) 64 || has_at (name ++ "@" ++ version)%string
          = true).
  rewrite IH. apply orb_true_r.
Qed.

Lemma info_is_no_error name version :
  String.eqb (name ++ "@" ++ version)%string "error" = false.
Proof.
  destruct (String.eqb_spec (name ++ "@" ++ version)%string "error") as [H|];
    [|reflexivity].
  pose proof (has_at_info name version) as Hat. rewrite H in Hat. discriminate.
Qed.

End InfoFacts.

(** The info that [_getManagedItemInfo] calls back with has the form
    [name@version], so it is never the string ["error"] that
    [createSnapshot] records for a failed read. *)
Theorem _getManagedItemInfo_is_no_error_marker (join : string -> string -> string)
    (readFile : string -> cb_args string)
    (JSON_parse : string -> option FSInfo.Json) (path info : string) :
  FSInfo._getManagedItemInfo join readFile JSON_parse path
  = JS.Return (FSInfo.Info info) ->
  String.eqb info "error" = false /\ FSInfo.has_at info = true.
Proof.
  unfold FSInfo._getManagedItemInfo. intros H.
  destruct (readFile (join path "package.json"%string)) as [err|content];
    [discriminate|].
  destruct (JSON_parse content) as [[|name version]|]; try discriminate.
  injection H as <-.
  split; [apply info_is_no_error|apply has_at_info].
Qed.

Lemma _getManagedItemInfo_is_no_error_marker_witness :
  String.eqb "pkg@1.0.0" "error" = false /\ FSInfo.has_at "pkg@1.0.0" = true.
Proof.
  apply (_getManagedItemInfo_is_no_error_marker FSInfo.join_posix
           (fun _ => CbOk "{}"%string)
           (fun _ => Some (FSInfo.JData (Some "pkg"%string) (Some "1.0.0"%string)))
           "/node_modules/pkg" "pkg@1.0.0").
  reflexivity.
Defined.

(** ** [storeBuildDependencies]: the build snapshot of the pack *)

Section BuildSnapshotFacts.

Import FSInfo.

Lemma has_key_union_field {V} (m1 m2 : option (gmap string V)) path :
  (is_Some m1 -> is_Some m2) ->
  has_key (union_field m1 m2) path <-> has_key m1 path \/ has_key m2 path.
Proof.
  intros H. unfold has_key, union_field. destruct m1 as [a|], m2 as [b|].
  - split.
    + intros (m & [= <-] & Hm). apply lookup_union_is_Some in Hm as [Hm|Hm]; eauto.
    + intros Hm. exists (b ∪ a). split; [reflexivity|].
      apply lookup_union_is_Some.
      destruct Hm as [(m & [= <-] & Hm)|(m & [= <-] & Hm)]; auto.
  - destruct H as [? [=]]. eauto.
  - case_bool_decide as Hsize.
    + apply map_size_empty_iff in Hsize. subst b. split.
      * intros (m & [=] & _).
      * intros [(m & [=] & _)|(m & [= <-] & Hm)].
        rewrite lookup_empty in Hm. destruct Hm as [? [=]].
    + split; [auto|]. intros [(m & [=] & _)|Hm]. exact Hm.
  - split; [auto|]. intros [Hm|Hm]; exact Hm.
Qed.

End BuildSnapshotFacts.

(** Storing build dependencies forgets none: when the last step of
    [storeBuildDependencies] returns, the build snapshot of the pack has
    an entry for a path exactly where the earlier build snapshot or the new
    snapshot has one; nothing else of the pack changes, [invalid]
    included. *)
Theorem storeBuildDependencies_keeps_dependencies {Data : Type}
    (snapshot : FSInfo.Snapshot) (p p' : PackFile.Pack Data) :
  PackFile.storeBuildDependencies_merge snapshot p = JS.Return p' ->
  exists merged,
    PackFile.buildSnapshot p' = Some merged
    /\ (forall k path,
          FSInfo.keys k merged path
          <-> (exists old, PackFile.buildSnapshot p = Some old
                           /\ FSInfo.keys k old path)
              \/ FSInfo.keys k snapshot path)
    /\ PackFile.invalid p' = PackFile.invalid p
    /\ PackFile.etags p' = PackFile.etags p
    /\ PackFile.content p' = PackFile.content p.
Proof.
  unfold PackFile.storeBuildDependencies_merge. intros H.
  destruct (PackFile.buildSnapshot p) as [old|] eqn:Hold.
  - destruct (FSInfo.mergeSnapshots old snapshot) as [merged|] eqn:Hmerge;
      [|discriminate].
    simpl in H. injection H as <-. exists merged. split; [reflexivity|].
    split; [|repeat split].
    apply mergeSnapshots_inv in Hmerge as [(H1 & H2 & H3 & H4 & H5 & H6) ->].
    intros k path.
    assert (Hk : FSInfo.keys k old path \/ FSInfo.keys k snapshot path
                 <-> (exists old', Some old = Some old' /\ FSInfo.keys k old' path)
                     \/ FSInfo.keys k snapshot path).
    { split; (intros [H|H]; [left|right; exact H]).
      - exists old. auto.
      - destruct H as (old' & [= <-] & H). exact H. }
    rewrite <- Hk.
    destruct k; simpl; apply has_key_union_field; assumption.
  - injection H as <-. exists snapshot. split; [reflexivity|].
    split; [|repeat split].
    intros k path. split; [auto|]. intros [(old & [=] & _)|H]. exact H.
Qed.

Lemma storeBuildDependencies_keeps_dependencies_witness :
  exists merged,
    PackFile.buildSnapshot
      (PackFile.mkPack (Data := string) "v1" ∅ ∅
         (Some (FSInfo.mkSnapshot None None
                  (Some ({["/b" := FSInfo.Snap (Some "92eb5ffe"%string)]}
                         ∪ {["/a" := FSInfo.Snap (Some "0cc175b9"%string)]}))
                  None None None None))
         ∅ ∅ ∅ false [])
    = Some merged
    /\ (forall k path,
          FSInfo.keys k merged path
          <-> (exists old,
                 PackFile.buildSnapshot
                   (PackFile.mkPack (Data := string) "v1" ∅ ∅
                      (Some Inputs.snapshot_hashes) ∅ ∅ ∅ false [])
                 = Some old
                 /\ FSInfo.keys k old path)
              \/ FSInfo.keys k Inputs.snapshot_hashes_b path)
    /\ false = false
    /\ (∅ : gmap string string) = ∅
    /\ (∅ : gmap string (PackFile.Content string)) = ∅.
Proof.
  apply (storeBuildDependencies_keeps_dependencies Inputs.snapshot_hashes_b
           (PackFile.mkPack (Data := string) "v1" ∅ ∅ (Some Inputs.snapshot_hashes)
              ∅ ∅ ∅ false [])
           (PackFile.mkPack (Data := string) "v1" ∅ ∅
              (Some (FSInfo.mkSnapshot None None
                       (Some ({["/b" := FSInfo.Snap (Some "92eb5ffe"%string)]}
                              ∪ {["/a" := FSInfo.Snap (Some "0cc175b9"%string)]}))
                       None None None None))
              ∅ ∅ ∅ false [])).
  vm_compute. reflexivity.
Defined.
